(** * The assertion codec of snapd (asserts/asserts.go)

    A shallow embedding of the header grammar, the single-shot and the
    streaming decoder, the canonical encoder (assembleAndSign) and the
    streaming encoder, followed by the properties proved about them.

    Conventions of the embedding:
    - Go [string] and [[]byte] are both sequences of bytes: [list ascii].
    - Go [int] is a 64-bit integer; lengths are [nat], parsed header
      integers are [Z] with the 64-bit range check of strconv written out.
    - [map[string]string] is a [gmap]; reading an absent key yields the
      empty string, as in Go ([!!!]).
    - a function returning [(T, error)] returns a [result T]. *)

From Stdlib Require Import ZArith Ascii List Lia DecimalN.
From stdpp Require Import gmap strings list sorting.

Abbreviation bytes := (list ascii).

(** A Go string literal. *)
Definition B (s : string) : bytes := String.list_ascii_of_string s.

Definition nl : bytes := ["010"%char].
Definition nlnl : bytes := ["010"%char; "010"%char].

(** ** Errors *)

Inductive fmt_arg :=
| AStr (s : bytes)
| AInt (n : Z).

(** [Errorf] is [fmt.Errorf] with its format and arguments kept apart;
    [Errorw] is an [Errorf] whose last verb [%v] formats another error. *)
Inductive error :=
| io_EOF
| io_ErrUnexpectedEOF
| ReaderError (msg : string)
| Errorf (format : string) (args : list fmt_arg)
| Errorw (format : string) (args : list fmt_arg) (cause : error).

Inductive result (A : Type) :=
| Ok (a : A)
| Err (e : error).
Arguments Ok {A} a.
Arguments Err {A} e.

#[global] Instance fmt_arg_eq_dec : EqDecision fmt_arg.
Proof. solve_decision. Defined.

#[global] Instance error_eq_dec : EqDecision error.
Proof. solve_decision. Defined.

#[global] Instance result_eq_dec {A} `{EqDecision A} : EqDecision (result A).
Proof. solve_decision. Defined.

Definition result_bind {A C} (f : A -> result C) (r : result A) : result C :=
  match r with
  | Ok a => f a
  | Err e => Err e
  end.

#[global] Instance result_mbind : MBind result := @result_bind.
#[global] Instance result_mret : MRet result := @Ok.

(** [fmt.Errorf(format, args..., err)] applied to the error of [r]. *)
Definition wrapErr {A} (format : string) (args : list fmt_arg)
    (r : result A) : result A :=
  match r with
  | Ok a => Ok a
  | Err e => Err (Errorw format args e)
  end.

(** ** The Go library functions the codec calls *)

Definition is_nl (c : ascii) : bool := Ascii.eqb c "010"%char.

Fixpoint HasPrefix (s prefix : bytes) {struct prefix} : bool :=
  match prefix, s with
  | [], _ => true
  | p :: prefix', c :: s' => Ascii.eqb p c && HasPrefix s' prefix'
  | _ :: _, [] => false
  end.

Definition HasSuffix (s suffix : bytes) : bool :=
  HasPrefix (rev s) (rev suffix).

(** [bytes.Index] and [strings.Index]: the first index of [sep] in [s],
    [None] for -1. *)
Fixpoint Index (s sep : bytes) : option nat :=
  if HasPrefix s sep then Some 0
  else match s with
       | [] => None
       | _ :: s' => S <$> Index s' sep
       end.

(** [bytes.LastIndex]: the last index of [sep] in [s], [None] for -1. *)
Fixpoint LastIndex (s sep : bytes) : option nat :=
  match s with
  | [] => if HasPrefix s sep then Some 0 else None
  | _ :: s' =>
      match LastIndex s' sep with
      | Some i => Some (S i)
      | None => if HasPrefix s sep then Some 0 else None
      end
  end.

(** [strings.IndexRune(s, c) != -1] for a rune below 0x80. *)
Definition ContainsByte (s : bytes) (c : ascii) : bool :=
  existsb (Ascii.eqb c) s.

(** [strings.Split(s, sep)] for a separator of one byte. *)
Fixpoint Split (s : bytes) (sep : ascii) : list bytes :=
  match s with
  | [] => [[]]
  | c :: s' =>
      if Ascii.eqb c sep then [] :: Split s' sep
      else match Split s' sep with
           | l :: ls => (c :: l) :: ls
           | [] => [[c]]
           end
  end.

(** [strings.Replace(s, old, new, -1)] for an [old] of one byte. *)
Definition Replace (s : bytes) (old : ascii) (new : bytes) : bytes :=
  flat_map (fun c => if Ascii.eqb c old then new else [c]) s.

Definition byte_in (lo hi : N) (c : ascii) : bool :=
  ((lo <=? N_of_ascii c) && (N_of_ascii c <=? hi))%N.

(** Second byte of a three or four byte UTF-8 sequence started by [c0]:
    the accept ranges of unicode/utf8, which exclude overlong forms,
    surrogates and code points above U+10FFFF. *)
Definition utf8_second (c0 c1 : ascii) : bool :=
  match N_of_ascii c0 with
  | 0xE0 => byte_in 0xA0 0xBF c1
  | 0xED => byte_in 0x80 0x9F c1
  | 0xF0 => byte_in 0x90 0xBF c1
  | 0xF4 => byte_in 0x80 0x8F c1
  | _ => byte_in 0x80 0xBF c1
  end%N.

(** [utf8.Valid]. *)
Fixpoint utf8_Valid (p : bytes) : bool :=
  match p with
  | [] => true
  | c0 :: r =>
      if (N_of_ascii c0 <? 0x80)%N then utf8_Valid r
      else if byte_in 0xC2 0xDF c0 then
        match r with
        | c1 :: r' => byte_in 0x80 0xBF c1 && utf8_Valid r'
        | _ => false
        end
      else if byte_in 0xE0 0xEF c0 then
        match r with
        | c1 :: c2 :: r' =>
            utf8_second c0 c1 && byte_in 0x80 0xBF c2 && utf8_Valid r'
        | _ => false
        end
      else if byte_in 0xF0 0xF4 c0 then
        match r with
        | c1 :: c2 :: c3 :: r' =>
            utf8_second c0 c1 && byte_in 0x80 0xBF c2
            && byte_in 0x80 0xBF c3 && utf8_Valid r'
        | _ => false
        end
      else false
  end.

Definition digit_of_byte (c : ascii) (u : Decimal.uint) : option Decimal.uint :=
  match N_of_ascii c with
  | 48 => Some (Decimal.D0 u) | 49 => Some (Decimal.D1 u)
  | 50 => Some (Decimal.D2 u) | 51 => Some (Decimal.D3 u)
  | 52 => Some (Decimal.D4 u) | 53 => Some (Decimal.D5 u)
  | 54 => Some (Decimal.D6 u) | 55 => Some (Decimal.D7 u)
  | 56 => Some (Decimal.D8 u) | 57 => Some (Decimal.D9 u)
  | _ => None
  end%N.

Fixpoint uint_of_bytes (s : bytes) : option Decimal.uint :=
  match s with
  | [] => Some Decimal.Nil
  | c :: s' => uint_of_bytes s' ≫= digit_of_byte c
  end.

Fixpoint bytes_of_uint (u : Decimal.uint) : bytes :=
  match u with
  | Decimal.Nil => []
  | Decimal.D0 u => "0"%char :: bytes_of_uint u
  | Decimal.D1 u => "1"%char :: bytes_of_uint u
  | Decimal.D2 u => "2"%char :: bytes_of_uint u
  | Decimal.D3 u => "3"%char :: bytes_of_uint u
  | Decimal.D4 u => "4"%char :: bytes_of_uint u
  | Decimal.D5 u => "5"%char :: bytes_of_uint u
  | Decimal.D6 u => "6"%char :: bytes_of_uint u
  | Decimal.D7 u => "7"%char :: bytes_of_uint u
  | Decimal.D8 u => "8"%char :: bytes_of_uint u
  | Decimal.D9 u => "9"%char :: bytes_of_uint u
  end.

Definition maxInt : Z := 2 ^ 63 - 1.
Definition minInt : Z := - 2 ^ 63.

(** [strconv.Atoi]: an optional sign, then one or more decimal digits,
    the value within the range of [int]; [None] for its error. *)
Definition Atoi (s : bytes) : option Z :=
  let '(neg, ds) :=
    match s with
    | c :: r =>
        if Ascii.eqb c "-"%char then (true, r)
        else if Ascii.eqb c "+"%char then (false, r)
        else (false, s)
    | [] => (false, s)
    end in
  match ds with
  | [] => None
  | _ =>
      u ← uint_of_bytes ds;
      let v := Z.of_N (N.of_uint u) in
      let v := if neg : bool then (- v)%Z else v in
      if ((minInt <=? v) && (v <=? maxInt))%Z then Some v else None
  end.

(** [strconv.Itoa]. *)
Definition Itoa (n : Z) : bytes :=
  if (n <? 0)%Z then "-"%char :: bytes_of_uint (N.to_uint (Z.to_N (- n)))
  else bytes_of_uint (N.to_uint (Z.to_N n)).

(** The order of Go strings: bytewise lexicographic. *)
Definition bytes_le (s1 s2 : bytes) : Prop :=
  String.le (String.string_of_list_ascii s1) (String.string_of_list_ascii s2).

#[global] Instance bytes_le_dec : RelDecision bytes_le.
Proof. intros s1 s2. unfold bytes_le. apply _. Defined.

#[global] Instance bytes_le_trans : Transitive bytes_le.
Proof. intros x y z. unfold bytes_le. apply transitivity. Qed.

#[global] Instance bytes_le_total : Total bytes_le.
Proof. intros x y. unfold bytes_le. apply total, _. Qed.

(** [sort.Strings]. *)
Definition sort_Strings (l : list bytes) : list bytes := merge_sort bytes_le l.

(** ** Assertion types and the registry *)

Inductive AssertionType :=
| AccountType
| AccountKeyType
| ModelType
| SerialType
| SnapDeclarationType
| SnapBuildType
| SnapRevisionType.

#[global] Instance AssertionType_eq_dec : EqDecision AssertionType.
Proof. solve_decision. Defined.

Definition Name (t : AssertionType) : bytes :=
  match t with
  | AccountType => B "account"
  | AccountKeyType => B "account-key"
  | ModelType => B "model"
  | SerialType => B "serial"
  | SnapDeclarationType => B "snap-declaration"
  | SnapBuildType => B "snap-build"
  | SnapRevisionType => B "snap-revision"
  end.

Definition PrimaryKey (t : AssertionType) : list bytes :=
  match t with
  | AccountType => [B "account-id"]
  | AccountKeyType => [B "account-id"; B "public-key-id"]
  | ModelType => [B "series"; B "brand-id"; B "model"]
  | SerialType => [B "brand-id"; B "model"; B "serial"]
  | SnapDeclarationType => [B "series"; B "snap-id"]
  | SnapBuildType => [B "series"; B "snap-id"; B "snap-digest"]
  | SnapRevisionType => [B "series"; B "snap-id"; B "snap-digest"]
  end.

Definition typeRegistry : gmap bytes AssertionType :=
  list_to_map
    [ (Name AccountType, AccountType);
      (Name AccountKeyType, AccountKeyType);
      (Name ModelType, ModelType);
      (Name SerialType, SerialType);
      (Name SnapDeclarationType, SnapDeclarationType);
      (Name SnapBuildType, SnapBuildType);
      (Name SnapRevisionType, SnapRevisionType) ].

(** [Type(name)]: the type registered under [name], [None] for nil. *)
Definition Type' (name : bytes) : option AssertionType := typeRegistry !! name.

(** ** Assertions *)

Module assertionBase.
Record t := mk {
  headers : gmap bytes bytes;
  body : bytes;
  revision : Z;
  content : bytes;
  signature : bytes
}.

#[global] Instance eq_dec : EqDecision t.
Proof. solve_decision. Defined.
End assertionBase.

(** Modelled from the spec: the typed variants behind the [Assertion]
    interface are built by the per-type assemblers, which are not in this
    file. The spec (Design notes) has every variant embed the shared base,
    with [Type], [Revision], [AuthorityID], [Header], [Headers], [Body] and
    [Signature] "exposed uniformly across variants"; an assertion is
    therefore observed through its base record. *)
Abbreviation Assertion := assertionBase.t.

Definition assertionBase_Type (ab : assertionBase.t) : option AssertionType :=
  Type' (assertionBase.headers ab !!! B "type").

Definition Revision (ab : assertionBase.t) : Z := assertionBase.revision ab.

Definition AuthorityID (ab : assertionBase.t) : bytes :=
  assertionBase.headers ab !!! B "authority-id".

Definition Header (ab : assertionBase.t) (name : bytes) : bytes :=
  assertionBase.headers ab !!! name.

(** The copy loop of [Headers] over the value of the map; the allocation
    of the copy is the subject of module [Store] below. *)
Definition Headers (ab : assertionBase.t) : gmap bytes bytes :=
  map_fold (fun name v res => <[name := v]> res) ∅ (assertionBase.headers ab).

Definition Body (ab : assertionBase.t) : bytes := assertionBase.body ab.

Definition Signature (ab : assertionBase.t) : bytes * bytes :=
  (assertionBase.content ab, assertionBase.signature ab).

(** ** Header grammar *)

Definition is_lower (c : ascii) : bool := byte_in 97 122 c.
Definition is_digit (c : ascii) : bool := byte_in 48 57 c.
Definition is_dash (c : ascii) : bool := Ascii.eqb c "-"%char.

(** The regular expression [^[a-z][a-z0-9-]*[a-z0-9]$]. *)
Definition headerNameSanity (name : bytes) : bool :=
  match name with
  | c :: rest =>
      is_lower c
      && forallb (fun x => is_lower x || is_digit x || is_dash x) rest
      && match last rest with
         | Some l => is_lower l || is_digit l
         | None => false
         end
  | [] => false
  end.

(** The test of the inner loop of [parseHeaders]: a continuation line is
    not empty and starts with a space. *)
Definition isContinuation (iline : bytes) : bool :=
  match iline with
  | c :: _ => Ascii.eqb c " "%char
  | [] => false
  end.

(** The loop of [parseHeaders] over [lines[i:]]. For a multiline value
    the inner fixpoint runs over the continuation lines ([i] up to [j]),
    joining them into [valueBuf], and resumes the outer loop at [j]. *)
Fixpoint parseEntries (headers : gmap bytes bytes) (lines : list bytes)
    : result (gmap bytes bytes) :=
  match lines with
  | [] => Ok headers
  | entry :: rest =>
      match Index entry (B ":") with
      | None =>
          Err (Errorf "header entry missing ':' separator: %q" [AStr entry])
      | Some nameValueSplit =>
          let name := take nameValueSplit entry in
          if negb (headerNameSanity name) then
            Err (Errorf "invalid header name: %q" [AStr name])
          else
            let afterSplit := nameValueSplit + 1 in
            if afterSplit =? length entry then
              match rest with
              | first :: rest' =>
                  if isContinuation first then
                    (fix continuation (valueBuf : bytes) (ls : list bytes)
                         {struct ls} : result (gmap bytes bytes) :=
                       match ls with
                       | iline :: ls' =>
                           if isContinuation iline then
                             continuation (valueBuf ++ nl ++ drop 1 iline) ls'
                           else parseEntries (<[name := valueBuf]> headers) ls
                       | [] => Ok (<[name := valueBuf]> headers)
                       end) (drop 1 first) rest'
                  else
                    Err (Errorf "empty multiline header value: %q" [AStr entry])
              | [] =>
                  Err (Errorf "empty multiline header value: %q" [AStr entry])
              end
            else if negb (bool_decide (entry !! afterSplit = Some " "%char)) then
              Err (Errorf
                "header entry should have a space or newline (multiline) before value: %q"
                [AStr entry])
            else
              parseEntries (<[name := drop (afterSplit + 1) entry]> headers) rest
      end
  end.

Definition parseHeaders (head : bytes) : result (gmap bytes bytes) :=
  if negb (utf8_Valid head) then Err (Errorf "header is not utf8" [])
  else parseEntries ∅ (Split head "010"%char).

(** ** Header checks *)

(** Modelled from the spec: the header checks live in another file of the
    package. Validator section: a checked integer header, "if present",
    "parses as a base-10 integer", with a default otherwise. *)
Definition checkInteger (headers : gmap bytes bytes) (name : bytes)
    (defaultValue : Z) : result Z :=
  match headers !! name with
  | None => Ok defaultValue
  | Some valueStr =>
      match Atoi valueStr with
      | Some value => Ok value
      | None =>
          Err (Errorf "%q header is not an integer: %v" [AStr name; AStr valueStr])
      end
  end.

(** Modelled from the spec: Validator section, a mandatory header is
    "present and non-empty". *)
Definition checkNotEmpty (headers : gmap bytes bytes) (name : bytes)
    : result bytes :=
  match headers !! name with
  | None => Err (Errorf "%q header is mandatory" [AStr name])
  | Some value =>
      if length value =? 0 then
        Err (Errorf "%q header should not be empty" [AStr name])
      else Ok value
  end.

(** Modelled from the spec: Validator section, each primary-key header is
    "present, non-empty, contains no [/]". *)
Definition checkPrimaryKey (headers : gmap bytes bytes) (primKey : bytes)
    : result bytes :=
  value ← checkNotEmpty headers primKey;
  if ContainsByte value "/"%char then
    Err (Errorf "%q primary key header cannot contain '/'" [AStr primKey])
  else Ok value.

(** Modelled from the spec: Validator section, the type "resolves via the
    registry"; a nil type is refused. *)
Definition checkAssertType (assertType : option AssertionType) : result AssertionType :=
  match assertType with
  | None => Err (Errorf "internal error: assertion type cannot be nil" [])
  | Some t =>
      match Type' (Name t) with
      | Some sanity =>
          if decide (sanity = t) then Ok t
          else Err (Errorf
            "internal error: unpredefined assertion type for name %q used"
            [AStr (Name t)])
      | None =>
          Err (Errorf "internal error: unknown assertion type: %q" [AStr (Name t)])
      end
  end.

Definition checkRevision (headers : gmap bytes bytes) : result Z :=
  revision ← checkInteger headers (B "revision") 0%Z;
  if (revision <? 0)%Z then
    Err (Errorf "revision should be positive: %v" [AInt revision])
  else Ok revision.

(** The loop of [Assemble] over the primary key: the first failing check
    ends it. *)
Fixpoint checkPrimaryKeys (headers : gmap bytes bytes) (primKeys : list bytes)
    : result unit :=
  match primKeys with
  | [] => Ok tt
  | primKey :: rest =>
      _ ← checkPrimaryKey headers primKey;
      checkPrimaryKeys headers rest
  end.

(** ** Streaming decoder: the reader

    [rd] is what the underlying [io.Reader] has not delivered yet, followed
    for ever by the error [rd_err] (io.EOF for a stream that ends); [b] is
    what the [bufio.Reader] has read from [rd] and not yet discarded. *)

Module Decoder.
Record t := mk {
  rd : bytes;
  rd_err : error;
  initialBufSize : Z;
  b : bytes;
  err : option error;
  maxHeadersSize : Z;
  maxBodySize : Z;
  maxSigSize : Z
}.

#[global] Instance eq_dec : EqDecision t.
Proof. solve_decision. Defined.

Definition with_buffer (d : t) (rd' b' : bytes) (err' : option error) : t :=
  mk rd' (rd_err d) (initialBufSize d) b' err'
     (maxHeadersSize d) (maxBodySize d) (maxSigSize d).

(** The input the decoder has not consumed yet. *)
Definition unread (d : t) : bytes := b d ++ rd d.
End Decoder.

Definition MaxBodySize : Z := 2 * 1024 * 1024.
Definition MaxHeadersSize : Z := 128 * 1024.
Definition MaxSignatureSize : Z := 128 * 1024.
Definition defaultDecoderButSize : Z := 4096.

(** [NewDecoder(r)] for a reader holding [r] and then failing with [e]. *)
Definition NewDecoder (r : bytes) (e : error) : Decoder.t :=
  Decoder.mk r e defaultDecoderButSize [] None
    MaxHeadersSize MaxBodySize MaxSignatureSize.

(** [d.b.Buffered()]. *)
Definition Buffered (d : Decoder.t) : nat := length (Decoder.b d).

(** [d.b.Discard(n)]. *)
Definition Discard (n : nat) (d : Decoder.t) : Decoder.t :=
  Decoder.with_buffer d (Decoder.rd d) (drop n (Decoder.b d)) (Decoder.err d).

(** [peek]: [bufio.Reader.Peek(size)] reads from [rd] until [size] bytes
    are buffered or [rd] fails (growing the buffer when it is too small,
    which is all the ErrBufferFull branch does), and returns the first
    [size] buffered bytes. The first failure is kept in [d.err], and
    [d.err] is what every later call returns. *)
Definition peek (size : Z) (d : Decoder.t)
    : (bytes * option error) * Decoder.t :=
  let n := Z.to_nat size in
  let missing := n - length (Decoder.b d) in
  let b' := Decoder.b d ++ take missing (Decoder.rd d) in
  let rd' := drop missing (Decoder.rd d) in
  let buf := take n b' in
  let err' :=
    match Decoder.err d with
    | None => if length buf <? n then Some (Decoder.rd_err d) else None
    | Some e => Some e
    end in
  ((buf, err'), Decoder.with_buffer d rd' b' err').

Definition readExact (size : Z) (d : Decoder.t)
    : (bytes * option error) * Decoder.t :=
  let '((buf, err), d) := peek size d in
  let d := Discard (length buf) d in
  if length buf =? Z.to_nat size then ((buf, None), d)
  else match err with
       | Some io_EOF => ((buf, Some io_ErrUnexpectedEOF), d)
       | _ => ((buf, err), d)
       end.

(** The loop of [readUntil]; it runs at most [fuel] times. *)
Fixpoint readUntil_loop (fuel : nat) (delim : bytes) (maxSize : Z)
    (last size : Z) (d : Decoder.t)
    : option ((bytes * option error) * Decoder.t) :=
  match fuel with
  | O => None
  | S fuel =>
      let '((buf, err), d) := peek size d in
      match Index (drop (Z.to_nat last) buf) delim with
      | Some i =>
          let n := Z.to_nat last + i + length delim in
          Some ((take n buf, None), Discard n d)
      | None =>
          if bool_decide (err ≠ None) && (length buf =? Buffered d) then
            Some ((buf, err), Discard (length buf) d)
          else
            let last := (size - Z.of_nat (length delim) + 1)%Z in
            let size := (size * 2)%Z in
            if (maxSize <? size)%Z then
              Some (([], Some (Errorf
                "maximum size exceeded while looking for delimiter %q"
                [AStr delim])), d)
            else readUntil_loop fuel delim maxSize last size d
      end
  end.

(** [readUntil]. The size doubles at each round and the loop ends once it
    exceeds [maxSize]: [Z.log2 maxSize + 1] rounds are enough for a
    positive initial size (lemma [readUntil_total]). *)
Definition readUntil (delim : bytes) (maxSize : Z) (d : Decoder.t)
    : option ((bytes * option error) * Decoder.t) :=
  readUntil_loop (S (Z.to_nat (Z.log2 maxSize))) delim maxSize
    0%Z (Decoder.initialBufSize d) d.

(** [err != nil && err != io.EOF]. *)
Definition notEOF (err : option error) : option error :=
  match err with
  | None | Some io_EOF => None
  | Some e => Some e
  end.

(** ** Streaming encoder: the writer

    [wr] is the sequence of bytes written so far to an [io.Writer] that
    accepts every write. *)

Module Encoder.
Record t := mk {
  wr : bytes;
  nextSep : bytes
}.
End Encoder.

Definition NewEncoder (w : bytes) : Encoder.t := Encoder.mk w [].

Definition Encoder_append (enc : Encoder.t) (encoded : bytes)
    : option error * Encoder.t :=
  let sz := length encoded in
  if sz =? 0 then
    (Some (Errorf "internal error: encoded assertion cannot be empty" []), enc)
  else
    let wr := Encoder.wr enc ++ Encoder.nextSep enc in
    let wr := wr ++ encoded in
    let wr :=
      if negb (bool_decide (encoded !! (sz - 1) = Some "010"%char))
      then wr ++ nl else wr in
    (None, Encoder.mk wr nl).

(** ** The collaborators of the codec

    The signer and the type-specific validation of the assemblers are
    outside the codec: the development is parametric in them. *)

Section codec.

Variable PrivateKey : Type.

(** [signContent(content, privKey)]. *)
Variable signContent : bytes -> PrivateKey -> result bytes.

(** Modelled from the spec: an assembler "promotes a validated base
    record into its typed variant". [typeCheck t ab] is the validation
    the assembler of [t] performs on the base record, [None] when it
    accepts. *)
Variable typeCheck : AssertionType -> assertionBase.t -> option error.

Definition assembler (t : AssertionType) (assert : assertionBase.t)
    : result Assertion :=
  match typeCheck t assert with
  | Some e => Err e
  | None => Ok assert
  end.

(** ** Assemble *)

Definition Assemble (headers : gmap bytes bytes)
    (body content signature : bytes) : result Assertion :=
  length' ← wrapErr "assertion: %v" [] (checkInteger headers (B "body-length") 0%Z);
  if negb (length' =? Z.of_nat (length body))%Z then
    Err (Errorf
      "assertion body length and declared body-length don't match: %v != %v"
      [AInt (Z.of_nat (length body)); AInt length'])
  else
    _ ← wrapErr "assertion: %v" [] (checkNotEmpty headers (B "authority-id"));
    typ ← wrapErr "assertion: %v" [] (checkNotEmpty headers (B "type"));
    match Type' typ with
    | None => Err (Errorf "unknown assertion type: %q" [AStr typ])
    | Some assertType =>
        _ ← wrapErr "assertion %s: %v" [AStr (Name assertType)]
              (checkPrimaryKeys headers (PrimaryKey assertType));
        revision ← wrapErr "assertion: %v" [] (checkRevision headers);
        if length signature =? 0 then
          Err (Errorf "empty assertion signature" [])
        else
          wrapErr "assertion %s: %v" [AStr (Name assertType)]
            (assembler assertType
               (assertionBase.mk headers body revision content signature))
    end.

(** ** Single-shot decoder *)

Definition Decode (serializedAssertion : bytes) : result Assertion :=
  let assertionSnapshot := serializedAssertion in
  match LastIndex assertionSnapshot nlnl with
  | None => Err (Errorf "assertion content/signature separator not found" [])
  | Some contentSignatureSplit =>
      let content := take contentSignatureSplit assertionSnapshot in
      let signature := drop (contentSignatureSplit + 2) assertionSnapshot in
      let '(body, head) :=
        match Index content nlnl with
        | None => ([], content)
        | Some headersBodySplit =>
            (drop (headersBodySplit + 2) content, take headersBodySplit content)
        end in
      headers ← wrapErr "parsing assertion headers: %v" [] (parseHeaders head);
      Assemble headers body content signature
  end.

(** ** Canonical encoder *)

Definition writeHeader (buf : bytes) (headers : gmap bytes bytes)
    (name : bytes) : bytes :=
  let buf := buf ++ nl in
  let buf := buf ++ name in
  let value := headers !!! name in
  if ContainsByte value "010"%char then
    buf ++ (B ":" ++ nl ++ B " ") ++ Replace value "010"%char (nl ++ B " ")
  else
    buf ++ B ": " ++ value.

(** The loop of [assembleAndSign] over the primary key: check, emit,
    mark as written. *)
Fixpoint writePrimaryKeys (finalHeaders : gmap bytes bytes)
    (primKeys : list bytes) (buf : bytes) (written : gset bytes)
    : result (bytes * gset bytes) :=
  match primKeys with
  | [] => Ok (buf, written)
  | primKey :: rest =>
      _ ← checkPrimaryKey finalHeaders primKey;
      writePrimaryKeys finalHeaders rest
        (writeHeader buf finalHeaders primKey) ({[primKey]} ∪ written)
  end.

(** The names of [finalHeaders] not yet written, sorted. Go ranges over
    the map in no fixed order; the sort fixes the order. *)
Definition otherKeys (finalHeaders : gmap bytes bytes) (written : gset bytes)
    : list bytes :=
  sort_Strings
    (filter (fun name => name ∉ written) (fst <$> map_to_list finalHeaders)).

Definition assembleAndSign (assertType : option AssertionType)
    (headers : gmap bytes bytes) (body : bytes) (privKey : PrivateKey)
    : result Assertion :=
  assertType ← checkAssertType assertType;
  let finalHeaders := headers in
  let bodyLength := length body in
  let finalBody := body in
  let finalHeaders := <[B "type" := Name assertType]> finalHeaders in
  let finalHeaders :=
    <[B "body-length" := Itoa (Z.of_nat bodyLength)]> finalHeaders in
  _ ← checkNotEmpty finalHeaders (B "authority-id");
  revision ← checkRevision finalHeaders;
  let buf := B "type: " in
  let buf := buf ++ Name assertType in
  let buf := writeHeader buf finalHeaders (B "authority-id") in
  let '(buf, finalHeaders) :=
    if (0 <? revision)%Z then
      (writeHeader buf finalHeaders (B "revision"), finalHeaders)
    else (buf, delete (B "revision") finalHeaders) in
  let written : gset bytes :=
    {[B "type"; B "authority-id"; B "revision"; B "body-length"]} in
  '(buf, written) ←
    writePrimaryKeys finalHeaders (PrimaryKey assertType) buf written;
  let buf :=
    foldl (fun buf k => writeHeader buf finalHeaders k) buf
      (otherKeys finalHeaders written) in
  let '(buf, finalHeaders) :=
    if 0 <? bodyLength then
      (writeHeader buf finalHeaders (B "body-length"), finalHeaders)
    else (buf, delete (B "body-length") finalHeaders) in
  let '(buf, finalBody) :=
    if 0 <? bodyLength then (buf ++ nlnl ++ finalBody, finalBody)
    else (buf, []) in
  let content := buf in
  signature ← wrapErr "cannot sign assertion: %v" [] (signContent content privKey);
  let signature := signature ++ ["010"%char] in
  wrapErr "cannot assemble assertion %s: %v" [AStr (Name assertType)]
    (assembler assertType
       (assertionBase.mk finalHeaders finalBody revision content signature)).

(** ** Single-shot encoder *)

Definition Encode (assert : Assertion) : bytes :=
  let '(content, signature) := Signature assert in
  content ++ nlnl ++ signature.

(** ** Streaming decoder *)

(** The end of [Decoder.Decode]: normalize the signature and assemble. *)
Definition Decoder_finish (headers : gmap bytes bytes) (length' : Z)
    (headLen : nat) (contentBuf sig : bytes) : result Assertion :=
  let sig :=
    if HasSuffix sig nlnl then take (length sig - 1) sig else sig in
  let finalContent := contentBuf in
  let finalBody :=
    if (0 <? length')%Z then drop (headLen + length nlnl) finalContent
    else [] in
  let finalSig := sig in
  Assemble headers finalBody finalContent finalSig.

(** [Decoder.Decode] from the trailer on: [contentBuf] holds the headers,
    their separator and the body. *)
Definition Decoder_trailer (headers : gmap bytes bytes) (length' : Z)
    (headLen : nat) (contentBuf : bytes) (d : Decoder.t)
    : option (result Assertion * Decoder.t) :=
  '((endOfBody, err), d) ← readUntil nlnl (Decoder.maxSigSize d) d;
  match notEOF err with
  | Some e => Some (Err (Errorw "error reading assertion trailer: %v" [] e), d)
  | None =>
      if bool_decide (endOfBody = nlnl) then
        '((sig, err), d) ← readUntil nlnl (Decoder.maxSigSize d) d;
        match notEOF err with
        | Some e =>
            Some (Err (Errorw "error reading assertion signature: %v" [] e), d)
        | None =>
            Some (Decoder_finish headers length' headLen contentBuf sig, d)
        end
      else if (0 <? length')%Z then
        Some (Err (Errorf "missing content/signature separator" []), d)
      else
        let sig := endOfBody in
        let contentBuf := take headLen contentBuf in
        Some (Decoder_finish headers length' headLen contentBuf sig, d)
  end.

(** [make([]byte, 0, cap)]: the empty slice of capacity [cap]. The
    allocation panics for a negative capacity ([None]); for any other the
    memory is assumed to be there. *)
Definition make_bytes (cap : Z) : option bytes :=
  if (cap <? 0)%Z then None else Some [].

(** [Decoder.Decode]: the result and the decoder after the call; [None]
    when the call returns nothing: [readUntil] does not return, or the
    allocation of the content buffer panics. *)
Definition Decoder_Decode (d : Decoder.t)
    : option (result Assertion * Decoder.t) :=
  '((headAndSep, err), d) ← readUntil nlnl (Decoder.maxHeadersSize d) d;
  match err with
  | Some io_EOF =>
      if negb (length headAndSep =? 0) then Some (Err io_ErrUnexpectedEOF, d)
      else Some (Err io_EOF, d)
  | Some e => Some (Err (Errorw "error reading assertion headers: %v" [] e), d)
  | None =>
      let headLen := length headAndSep - length nlnl in
      match parseHeaders (take headLen headAndSep) with
      | Err e => Some (Err (Errorw "parsing assertion headers: %v" [] e), d)
      | Ok headers =>
          match checkInteger headers (B "body-length") 0%Z with
          | Err e => Some (Err (Errorw "assertion: %v" [] e), d)
          | Ok length' =>
              if (Decoder.maxBodySize d <? length')%Z then
                Some (Err (Errorf
                  "assertion body length %d exceeds maximum body size"
                  [AInt length']), d)
              else
                contentBuf ←
                  make_bytes (Z.of_nat (length headAndSep) + length');
                let contentBuf := contentBuf ++ headAndSep in
                if (0 <? length')%Z then
                  let '((body, err), d) := readExact length' d in
                  match err with
                  | Some e => Some (Err e, d)
                  | None =>
                      Decoder_trailer headers length' headLen
                        (contentBuf ++ body) d
                  end
                else Decoder_trailer headers length' headLen contentBuf d
          end
      end
  end.

(** ** Streaming encoder *)

Definition Encoder_Encode (enc : Encoder.t) (assert : Assertion)
    : option error * Encoder.t :=
  let encoded := Encode assert in
  Encoder_append enc encoded.

(** A caller emitting a sequence of assertions: one [Encode] call per
    assertion, stopping at the first error. *)
Fixpoint Encoder_EncodeAll (enc : Encoder.t) (asserts : list Assertion)
    : option error * Encoder.t :=
  match asserts with
  | [] => (None, enc)
  | assert :: rest =>
      match Encoder_Encode enc assert with
      | (Some e, enc) => (Some e, enc)
      | (None, enc) => Encoder_EncodeAll enc rest
      end
  end.

End codec.

(** ** Header maps and byte slices as shared objects

    A Go map and a Go slice are references: the view of [assertionBase]
    in which the [headers] field is a location of a store of maps and the
    [body], [content] and [signature] fields are slices of arrays of a
    store of byte arrays, for the accessors whose result a caller may go
    on to mutate. *)

Module Store.
Abbreviation loc := positive.
Abbreviation store := (gmap loc (gmap bytes bytes)).

(** A byte slice: the window of [len] bytes at offset [off] of the
    backing array at [array]. (Its capacity plays no part here.) *)
Record slice := Slice {
  array : loc;
  off : nat;
  len : nat
}.

(** The backing arrays of the byte slices. *)
Abbreviation arrays := (gmap loc bytes).

Record assertionBase := mk {
  headers : loc;
  body : slice;
  revision : Z;
  content : slice;
  signature : slice
}.

(** [ab.headers[name]]. *)
Definition Header (ab : assertionBase) (name : bytes) (σ : store) : bytes :=
  (σ !!! headers ab) !!! name.

Definition assertionBase_Type (ab : assertionBase) (σ : store)
    : option AssertionType :=
  Type' (Header ab (B "type") σ).

Definition AuthorityID (ab : assertionBase) (σ : store) : bytes :=
  Header ab (B "authority-id") σ.

Definition Revision (ab : assertionBase) : Z := revision ab.

(** [Body] and [Signature] return the slices the assertion holds: no
    copy is made. *)
Definition Body (ab : assertionBase) : slice := body ab.
Definition Signature (ab : assertionBase) : slice * slice :=
  (content ab, signature ab).

(** [Headers]: [make] allocates a location not in the store; the loop
    copies every entry into the new map. *)
Definition Headers (ab : assertionBase) (σ : store) : loc * store :=
  let res := fresh (dom σ) in
  let copy :=
    map_fold (fun name v res => <[name := v]> res) ∅ (σ !!! headers ab) in
  (res, <[res := copy]> σ).

(** What a caller can do to a map it holds: [m[name] = v] and
    [delete(m, name)]. *)
Inductive mutation :=
| Assign (name v : bytes)
| Delete (name : bytes).

Definition mutate (m : loc) (σ : store) (μ : mutation) : store :=
  match μ with
  | Assign name v => alter (insert name v) m σ
  | Delete name => alter (delete name) m σ
  end.

(** The bytes a slice shows. *)
Definition bytes_of (s : slice) (h : arrays) : bytes :=
  take (len s) (drop (off s) (h !!! array s)).

(** What a caller can do to a slice it holds: [s[i] = c]; [None] is the
    panic of an index out of range. *)
Definition set_index (s : slice) (i : nat) (c : ascii) (h : arrays)
    : option arrays :=
  if decide (i < len s) then Some (alter (<[off s + i := c]>) (array s) h)
  else None.
End Store.

(** ** Vocabulary of the properties *)

(** [bytes.Join(s, sep)]. *)
Fixpoint Join (s : list bytes) (sep : bytes) : bytes :=
  match s with
  | [] => []
  | [x] => x
  | x :: rest => x ++ sep ++ Join rest sep
  end.

(** What [writeHeader] appends to the buffer for the header [name]. *)
Definition entry (headers : gmap bytes bytes) (name : bytes) : bytes :=
  writeHeader [] headers name.

(** The names [assembleAndSign] sets or places itself. *)
Definition bookkeeping : list bytes :=
  [B "type"; B "authority-id"; B "revision"; B "body-length"].

(** The lines [writeHeader] writes for a header of value [v]: one line
    for a value without newline, else the name and one indented line per
    line of the value. *)
Definition entry_lines (name v : bytes) : list bytes :=
  if ContainsByte v "010"%char
  then (name ++ B ":") :: map (cons " "%char) (Split v "010"%char)
  else [name ++ B ": " ++ v].

(** The lines of a header block holding the headers [names], in this
    order, with the values [f] gives them. *)
Definition lines_of (f : bytes -> bytes) (names : list bytes) : list bytes :=
  concat (map (fun n => entry_lines n (f n)) names).

(** What may follow an entry in a header block: nothing, or a line that
    is not a continuation line. *)
Definition starts_entry (rest : list bytes) : Prop :=
  match rest with
  | [] => True
  | line :: _ => isContinuation line = false
  end.

(** A byte a header name may contain. *)
Definition name_char (c : ascii) : bool := is_lower c || is_digit c || is_dash c.

(** The inner loop of [parseHeaders] on its own: it reads the
    continuation lines of the header [name] and hands the remaining
    lines back to [parseEntries]. *)
Definition continuation (name : bytes) (headers : gmap bytes bytes)
    : bytes -> list bytes -> result (gmap bytes bytes) :=
  fix continuation (valueBuf : bytes) (ls : list bytes) {struct ls} :=
    match ls with
    | iline :: ls' =>
        if isContinuation iline then
          continuation (valueBuf ++ nl ++ drop 1 iline) ls'
        else parseEntries (<[name := valueBuf]> headers) ls
    | [] => Ok (<[name := valueBuf]> headers)
    end.

(** An encoded assertion completed with a final newline when it lacks
    one. *)
Definition terminated (encoded : bytes) : bytes :=
  if bool_decide (last encoded = Some "010"%char) then encoded
  else encoded ++ nl.

(** Two byte sequences equal up to the newline normalizations: [B'] is
    [B], or [B] with one newline added at the end when [B] lacks one, or
    [B] with a final pair of newlines reduced to a single one. *)
Inductive modulo_newlines (B0 : bytes) : bytes -> Prop :=
| mn_same : modulo_newlines B0 B0
| mn_added : HasSuffix B0 nl = false -> modulo_newlines B0 (B0 ++ nl)
| mn_collapsed B' :
    B0 = B' ++ nl -> HasSuffix B0 nlnl = true -> modulo_newlines B0 B'.

(** The decoder's error field is either unset or the error of the
    reader, met once the reader had nothing left. *)
Definition Decoder_wf (d : Decoder.t) : Prop :=
  match Decoder.err d with
  | None => True
  | Some e => e = Decoder.rd_err d /\ Decoder.rd d = []
  end.

(** The signature as [Decoder.Decode] keeps it: of two final newlines
    the second is dropped. *)
Definition normalized (sig : bytes) : bytes :=
  if HasSuffix sig nlnl then take (length sig - 1) sig else sig.

(** The configuration of a decoder, which no read changes. *)
Definition same_config (d d' : Decoder.t) : Prop :=
  Decoder.rd_err d' = Decoder.rd_err d /\
  Decoder.initialBufSize d' = Decoder.initialBufSize d /\
  Decoder.maxHeadersSize d' = Decoder.maxHeadersSize d /\
  Decoder.maxBodySize d' = Decoder.maxBodySize d /\
  Decoder.maxSigSize d' = Decoder.maxSigSize d.

(** Collaborators used to run the codec on concrete inputs: assemblers
    without type-specific demands and a signer with a fixed signature. *)
Definition acceptAll : AssertionType -> assertionBase.t -> option error :=
  fun _ _ => None.

Definition constSigner (sig : bytes) : bytes -> unit -> result bytes :=
  fun _ _ => Ok sig.

Definition accountHeaders : bytes := B "type: account
authority-id: canonical
account-id: alice".

(** The minimal account assertion, its signature right after the headers. *)
Definition accountWire : bytes := accountHeaders ++ nlnl ++ B "openpgp sig".

(** The same assertion with an empty body between two separators. *)
Definition accountWireSeparated : bytes :=
  accountHeaders ++ nlnl ++ nlnl ++ B "openpgp sig".

(** What the headers of the account assertion parse to, and the
    assertion decoded from [accountWire]. *)
Definition accountParsed : gmap bytes bytes :=
  list_to_map [(B "type", B "account");
               (B "authority-id", B "canonical");
               (B "account-id", B "alice")].

Definition accountAssertion : Assertion :=
  assertionBase.mk accountParsed [] 0%Z accountHeaders (B "openpgp sig").

(** A decoder of the default configuration that has read its stream to
    the end, with [b] left in its buffer. *)
Definition atEnd (b : bytes) : Decoder.t :=
  Decoder.mk [] io_EOF defaultDecoderButSize b (Some io_EOF)
    MaxHeadersSize MaxBodySize MaxSignatureSize.




(** A snap-build assertion with a revision, a body and two headers
    outside the primary key: what is given to [assembleAndSign], and the
    assertion it builds with the signature [SIG]. *)
Definition snapBuildHeaders : gmap bytes bytes :=
  list_to_map [(B "authority-id", B "canonical");
               (B "series", B "16");
               (B "snap-id", B "abc");
               (B "snap-digest", B "xyz");
               (B "revision", B "3");
               (B "timestamp", B "2016-01-02T15:04:05Z");
               (B "grade", B "devel")].

Definition snapBuildContent : bytes := B "type: snap-build
authority-id: canonical
revision: 3
series: 16
snap-id: abc
snap-digest: xyz
grade: devel
timestamp: 2016-01-02T15:04:05Z
body-length: 5

hello".

Definition snapBuildAssertion : Assertion :=
  assertionBase.mk
    (<[B "body-length" := B "5"]> (<[B "type" := B "snap-build"]> snapBuildHeaders))
    (B "hello") 3%Z snapBuildContent (B "SIG" ++ nl).

(** Account headers with a name outside the name pattern, and the
    assertion [assembleAndSign] builds from them. *)
Definition notedHeaders : gmap bytes bytes :=
  list_to_map [(B "authority-id", B "canonical");
               (B "account-id", B "alice");
               (B "Note", B "x")].

Definition notedAssertion : Assertion :=
  assertionBase.mk (<[B "type" := B "account"]> notedHeaders) [] 0%Z
    (B "type: account
authority-id: canonical
account-id: alice
Note: x")
    (B "openpgp sig" ++ nl).

(** A line that opens a header entry: a name matching the name pattern
    and a colon, followed by nothing (the value is on the continuation
    lines that follow) or by a space and the value. *)
Definition entry_line (l : bytes) : Prop :=
  exists name rest,
    l = name ++ B ":" ++ rest /\ headerNameSanity name = true /\
    (rest = [] \/ exists v, rest = " "%char :: v).

(** The sizes at which [readUntil] looks at the input: the initial
    buffer size, doubled as long as the result does not exceed [maxSize].
    A number of bytes is within reach of the scan when one of these sizes
    covers it. For a decoder made by [NewDecoder] and the limit of 128 KiB
    of the headers or of the signature, these are the numbers up to
    131072. *)
Definition within_reach (d : Decoder.t) (maxSize : Z) (n : nat) : Prop :=
  exists k : nat,
    (Z.of_nat n <= Decoder.initialBufSize d * 2 ^ Z.of_nat k)%Z /\
    (k = 0 \/ (Decoder.initialBufSize d * 2 ^ Z.of_nat k <= maxSize)%Z).

(** Whether a [Decoder.Decode] call on [d] gets to the allocation of
    its content buffer with a negative capacity, on which [make] panics:
    the header block is read and parsed, the body-length it declares is
    within [maxBodySize], and the length of the header block with its
    separator plus this body-length is negative. *)
Definition allocation_panics (d : Decoder.t) : bool :=
  match readUntil nlnl (Decoder.maxHeadersSize d) d with
  | Some ((headAndSep, None), d1) =>
      let headLen := length headAndSep - length nlnl in
      match parseHeaders (take headLen headAndSep) with
      | Ok headers =>
          match checkInteger headers (B "body-length") 0%Z with
          | Ok length' =>
              (length' <=? Decoder.maxBodySize d1)%Z &&
              (Z.of_nat (length headAndSep) + length' <? 0)%Z
          | Err _ => false
          end
      | Err _ => false
      end
  | _ => false
  end.

(** The error [readExact] returns when the reader fails before the
    bytes asked for are there. *)
Definition shortRead (e : error) : error :=
  match e with
  | io_EOF => io_ErrUnexpectedEOF
  | _ => e
  end.

(** A caller reading a stream: one [Decode] call after the other, at
    most [n] of them, until a call returns an error. The result holds the
    assertions returned, the error that ended the loop if there was one,
    and the decoder. *)
Fixpoint Decoder_DecodeAll
    (typeCheck : AssertionType -> assertionBase.t -> option error)
    (n : nat) (d : Decoder.t)
    : option (list Assertion * option error * Decoder.t) :=
  match n with
  | O => Some ([], None, d)
  | S n =>
      '(r, d) ← Decoder_Decode typeCheck d;
      match r with
      | Err e => Some ([], Some e, d)
      | Ok a =>
          '(asserts, err, d) ← Decoder_DecodeAll typeCheck n d;
          Some (a :: asserts, err, d)
      end
  end.

(** An encoded assertion within the limits of a decoder: the header
    block with its separator and the signature with its terminator are
    within reach of the scans, and the body is no longer than
    [maxBodySize]. *)
Definition fits (d : Decoder.t) (a : Assertion) : Prop :=
  (exists i, Index (Encode a) nlnl = Some i /\
             within_reach d (Decoder.maxHeadersSize d) (i + 2)) /\
  (Z.of_nat (length (assertionBase.body a)) <= Decoder.maxBodySize d)%Z /\
  within_reach d (Decoder.maxSigSize d)
    (length (assertionBase.signature a) + 2).

(** The headers of the account assertion, declaring a body of five
    bytes. *)
Definition fiveHeaders : bytes := accountHeaders ++ nl ++ B "body-length: 5".

(** The headers of the account assertion, declaring a body-length of
    -100: with the separator a block of 75 bytes. *)
Definition negativeHeaders : bytes :=
  accountHeaders ++ nl ++ B "body-length: -100".

Definition negativeWire : bytes := negativeHeaders ++ nlnl ++ B "openpgp sig".

(** ** Properties *)

Section properties.

Variable PrivateKey : Type.
Variable signContent : bytes -> PrivateKey -> result bytes.
Variable typeCheck : AssertionType -> assertionBase.t -> option error.

(** *** Streaming encoder *)

Lemma Join_cons (x : bytes) (rest : list bytes) :
  Join (x :: rest) nl = x ++ concat (map (fun y => nl ++ y) rest).
Proof.
  revert x. induction rest as [|y rest IH]; intros x.
  - simpl. by rewrite app_nil_r.
  - change (Join (x :: y :: rest) nl) with (x ++ nl ++ Join (y :: rest) nl).
    rewrite (IH y). simpl. by rewrite <- ?app_assoc.
Qed.

Lemma Encode_length (a : Assertion) : (length (Encode a) =? 0) = false.
Proof.
  unfold Encode, Signature. rewrite !length_app. simpl.
  apply Nat.eqb_neq. lia.
Qed.

Lemma Encoder_append_wr (enc : Encoder.t) (encoded : bytes) :
  encoded <> [] ->
  Encoder_append enc encoded =
    (None, Encoder.mk (Encoder.wr enc ++ Encoder.nextSep enc ++ terminated encoded) nl).
Proof.
  intros Hne. unfold Encoder_append, terminated.
  destruct (length encoded =? 0) eqn:Hl.
  { apply Nat.eqb_eq in Hl. destruct encoded; [congruence | discriminate]. }
  rewrite last_lookup.
  replace (Init.Nat.pred (length encoded)) with (length encoded - 1) by lia.
  case_bool_decide; simpl; by rewrite <- ?app_assoc.
Qed.

Lemma Encode_nonempty (a : Assertion) : Encode a <> [].
Proof.
  intros H. pose proof (Encode_length a) as Hl. rewrite H in Hl. discriminate.
Qed.

Lemma Encoder_EncodeAll_sep (asserts : list Assertion) (enc : Encoder.t) :
  Encoder.nextSep enc = nl ->
  Encoder_EncodeAll enc asserts =
    (None, Encoder.mk
       (Encoder.wr enc
          ++ concat (map (fun y => nl ++ y) (map (fun a => terminated (Encode a)) asserts)))
       nl).
Proof.
  revert enc. induction asserts as [|a rest IH]; intros [w sep] Hsep;
    simpl in *; subst sep.
  - by rewrite app_nil_r.
  - unfold Encoder_Encode. rewrite Encoder_append_wr by apply Encode_nonempty.
    rewrite IH by done. simpl. by rewrite <- !app_assoc.
Qed.

(** C9 (as amended). The bytes written by the streaming encoder for a
    sequence of assertions are the single-shot encodings, each completed
    with a final newline when it lacks one, joined with a single newline;
    no write fails. *)
Theorem Encoder_stream_is_join_of_terminated
    (asserts : list Assertion) (w : bytes) :
  fst (Encoder_EncodeAll (NewEncoder w) asserts) = None /\
  Encoder.wr (snd (Encoder_EncodeAll (NewEncoder w) asserts)) =
    w ++ Join (map (fun a => terminated (Encode a)) asserts) nl.
Proof.
  destruct asserts as [|a rest].
  - simpl. by rewrite app_nil_r.
  - cbn [Encoder_EncodeAll map]. unfold Encoder_Encode, NewEncoder.
    rewrite Encoder_append_wr by apply Encode_nonempty.
    rewrite Encoder_EncodeAll_sep by done.
    rewrite Join_cons. simpl. by rewrite <- ?app_assoc.
Qed.

(** *** Header maps are copied by [Headers] *)

Lemma map_fold_copy (m : gmap bytes bytes) :
  map_fold (fun name v res => <[name := v]> res) ∅ m = m.
Proof.
  apply (map_fold_weak_ind (fun r m => r = m)); [done|].
  intros i x m' r _ ->. done.
Qed.

Lemma Headers_value (ab : assertionBase.t) :
  Headers ab = assertionBase.headers ab.
Proof. apply map_fold_copy. Qed.

Lemma mutate_other (m l : Store.loc) (muts : list Store.mutation)
    (σ : Store.store) :
  l <> m -> foldl (Store.mutate m) σ muts !! l = σ !! l.
Proof.
  intros Hne. revert σ. induction muts as [|μ muts IH]; intros σ; [done|].
  simpl. rewrite IH. destruct μ; simpl; by rewrite lookup_alter_ne.
Qed.

(** C10 (as amended). [Headers] returns a map at a location that was
    not in use and that holds a copy of the headers; whatever the caller
    then assigns to or deletes from that map, [Header], [Type],
    [AuthorityID] and a further [Headers] call give what they gave
    before. (This does not make an assertion immutable through all its
    accessors: [Body] and [Signature] return the slices the assertion
    holds.) *)
Theorem Headers_returns_fresh_copy (ab : Store.assertionBase)
    (σ : Store.store) (muts : list Store.mutation) :
  is_Some (σ !! Store.headers ab) ->
  let m := fst (Store.Headers ab σ) in
  let σ1 := snd (Store.Headers ab σ) in
  let σ2 := foldl (Store.mutate m) σ1 muts in
  (m ∉ dom σ) /\
  σ1 !! m = σ !! Store.headers ab /\
  (forall name, Store.Header ab name σ2 = Store.Header ab name σ) /\
  Store.assertionBase_Type ab σ2 = Store.assertionBase_Type ab σ /\
  Store.AuthorityID ab σ2 = Store.AuthorityID ab σ /\
  snd (Store.Headers ab σ2) !! fst (Store.Headers ab σ2)
    = σ !! Store.headers ab.
Proof.
  intros [hs Hhs]. simpl.
  set (m := fresh (dom σ)).
  assert (Hfresh : m ∉ dom σ) by apply is_fresh.
  assert (Hne : Store.headers ab <> m).
  { intros Heq. apply Hfresh. rewrite <- Heq. apply elem_of_dom. eauto. }
  assert (Hkeep : forall σ', σ' = foldl (Store.mutate m)
      (<[m := map_fold (fun name v res => <[name := v]> res) ∅
                (σ !!! Store.headers ab)]> σ) muts ->
      σ' !! Store.headers ab = Some hs).
  { intros σ' ->. rewrite mutate_other by done.
    by rewrite lookup_insert_ne. }
  assert (Htot : σ !!! Store.headers ab = hs).
  { by rewrite lookup_total_alt, Hhs. }
  assert (Hhdr : forall name,
    Store.Header ab name (foldl (Store.mutate m)
      (<[m := map_fold (fun name v res => <[name := v]> res) ∅
                (σ !!! Store.headers ab)]> σ) muts) = Store.Header ab name σ).
  { intros name. unfold Store.Header.
    rewrite (lookup_total_alt _ (Store.headers ab)), (Hkeep _ eq_refl).
    by rewrite Htot. }
  split; [done|]. split.
  { rewrite lookup_insert_eq, map_fold_copy, Htot. done. }
  split; [done|]. split.
  { unfold Store.assertionBase_Type. by rewrite Hhdr. }
  split.
  { unfold Store.AuthorityID. by rewrite Hhdr. }
  rewrite lookup_insert_eq, map_fold_copy.
  rewrite (lookup_total_alt _ (Store.headers ab)), (Hkeep _ eq_refl).
  done.
Qed.

(** *** Prefixes and occurrences *)

Lemma HasPrefix_true (s p : bytes) :
  HasPrefix s p = true <-> exists r, s = p ++ r.
Proof.
  revert s. induction p as [|c p IH]; intros s; simpl.
  - split; [intros _; by exists s | intros _; by destruct s].
  - destruct s as [|x s].
    + split; [done|]. intros [r Hr]. discriminate.
    + simpl. rewrite andb_true_iff, Ascii.eqb_eq, IH. split.
      * intros [-> [r ->]]. eauto.
      * intros [r Hr]. injection Hr as -> ->. eauto.
Qed.

Lemma HasPrefix_app (p r : bytes) : HasPrefix (p ++ r) p = true.
Proof. apply HasPrefix_true. eauto. Qed.

Lemma HasPrefix_nil (p : bytes) : p <> [] -> HasPrefix [] p = false.
Proof. by destruct p. Qed.

Lemma HasPrefix_short (s p : bytes) :
  length s < length p -> HasPrefix s p = false.
Proof.
  intros Hlen. destruct (HasPrefix s p) eqn:H; [|done].
  apply HasPrefix_true in H as [r ->]. rewrite length_app in Hlen. lia.
Qed.

Lemma HasPrefix_take (s p : bytes) (k : nat) :
  length p <= k -> HasPrefix (take k s) p = HasPrefix s p.
Proof.
  revert s k. induction p as [|c p IH]; intros s k Hk; simpl; [done|].
  simpl in Hk. destruct k as [|k]; [lia|].
  destruct s as [|x s]; simpl; [done|].
  rewrite IH by lia. done.
Qed.

Lemma HasPrefix_app_l (s r p : bytes) :
  length p <= length s -> HasPrefix (s ++ r) p = HasPrefix s p.
Proof.
  intros Hlen. rewrite <- (HasPrefix_take (s ++ r) p (length s)) by done.
  by rewrite take_app_length.
Qed.

Lemma Index_Some (s sep : bytes) (i : nat) :
  Index s sep = Some i <->
  HasPrefix (drop i s) sep = true /\
  forall j, j < i -> HasPrefix (drop j s) sep = false.
Proof.
  revert i. induction s as [|c s IH]; intros i.
  - simpl. destruct (HasPrefix [] sep) eqn:Hp.
    + split.
      * intros [= <-]. split; [done|]. intros j Hj. lia.
      * intros [_ Hlt]. destruct i as [|i]; [done|].
        specialize (Hlt 0 ltac:(lia)). simpl in Hlt. congruence.
    + split; [done|]. intros [H _]. rewrite drop_nil in H. congruence.
  - cbn [Index]. destruct (HasPrefix (c :: s) sep) eqn:Hp.
    + split.
      * intros [= <-]. split; [done|]. intros j Hj. lia.
      * intros [_ Hlt]. destruct i as [|i]; [done|].
        specialize (Hlt 0 ltac:(lia)). simpl in Hlt. congruence.
    + destruct (Index s sep) as [k|] eqn:Hk; simpl.
      * destruct (proj1 (IH k) eq_refl) as [Hk1 Hk2]. split.
        -- intros [= <-]. split; [done|]. intros [|j] Hj; [done|].
           simpl. apply Hk2. lia.
        -- intros [Hi Hlt]. destruct i as [|i]; [simpl in Hi; congruence|].
           f_equal. f_equal. simpl in Hi.
           destruct (Nat.lt_trichotomy k i) as [Hlt'|[->|Hgt]]; [|done|].
           ++ specialize (Hlt (S k) ltac:(lia)). simpl in Hlt. congruence.
           ++ specialize (Hk2 i Hgt). congruence.
      * split; [done|]. intros [Hi Hlt].
        destruct i as [|i]; [simpl in Hi; congruence|]. simpl in Hi.
        assert (@None nat = Some i) as Hc; [|done].
        apply IH. split; [done|]. intros j Hj.
        apply (Hlt (S j)). lia.
Qed.

Lemma Index_None (s sep : bytes) :
  Index s sep = None <-> forall j, HasPrefix (drop j s) sep = false.
Proof.
  induction s as [|c s IH].
  - simpl. destruct (HasPrefix [] sep) eqn:Hp.
    + split; [done|]. intros H. specialize (H 0). simpl in H. congruence.
    + split; [|done]. intros _ j. by rewrite drop_nil.
  - cbn [Index]. destruct (HasPrefix (c :: s) sep) eqn:Hp.
    + split; [done|]. intros H. specialize (H 0). simpl in H. congruence.
    + destruct (Index s sep) as [k|] eqn:Hk; simpl.
      * split; [done|]. intros H.
        assert (Some k = None) as Hc; [|done].
        apply IH. intros j. apply (H (S j)).
      * split; [|done]. intros _ [|j]; [done|]. simpl. by apply IH.
Qed.

Lemma Index_bound (s sep : bytes) (i : nat) :
  Index s sep = Some i -> i + length sep <= length s.
Proof.
  intros HI. pose proof HI as [H _]%Index_Some.
  apply HasPrefix_true in H as [r Hr].
  destruct (decide (i <= length s)) as [Hle|Hgt].
  - pose proof (f_equal length Hr) as Hl.
    rewrite length_drop, length_app in Hl. lia.
  - rewrite drop_ge in Hr by lia.
    destruct sep; [|discriminate].
    destruct s; simpl in HI; injection HI as <-; simpl in *; lia.
Qed.

(** *** The reader of the streaming decoder *)

Lemma same_config_refl (d : Decoder.t) : same_config d d.
Proof. by repeat split. Qed.

Lemma same_config_trans (d1 d2 d3 : Decoder.t) :
  same_config d1 d2 -> same_config d2 d3 -> same_config d1 d3.
Proof.
  intros (?&?&?&?&?) (?&?&?&?&?). repeat split; congruence.
Qed.

Lemma peek_config (size : Z) (d : Decoder.t) : same_config d (peek size d).2.
Proof. by repeat split. Qed.

Lemma peek_unread (size : Z) (d : Decoder.t) :
  Decoder.unread (peek size d).2 = Decoder.unread d.
Proof.
  unfold peek, Decoder.unread. simpl.
  by rewrite <- app_assoc, take_drop.
Qed.

Lemma peek_buf_b (size : Z) (d : Decoder.t) :
  (peek size d).1.1 = take (Z.to_nat size) (Decoder.b (peek size d).2).
Proof. done. Qed.

Lemma peek_buf (size : Z) (d : Decoder.t) :
  (peek size d).1.1 = take (Z.to_nat size) (Decoder.unread d).
Proof.
  unfold peek, Decoder.unread. simpl.
  rewrite !firstn_app, firstn_firstn. do 2 f_equal. lia.
Qed.

Lemma peek_err (size : Z) (d : Decoder.t) :
  (peek size d).1.2 = Decoder.err (peek size d).2.
Proof. done. Qed.

Lemma peek_wf (size : Z) (d : Decoder.t) :
  Decoder_wf d -> Decoder_wf (peek size d).2.
Proof.
  unfold Decoder_wf, peek. simpl.
  destruct (Decoder.err d) as [e|].
  - intros [-> Hrd]. rewrite Hrd. by rewrite drop_nil.
  - intros _.
    destruct (_ <? _) eqn:Hlt; [|done]. simpl. split; [done|].
    apply Nat.ltb_lt in Hlt.
    rewrite length_take, length_app, length_take in Hlt.
    apply drop_ge. lia.
Qed.

Lemma peek_err_short (size : Z) (d : Decoder.t) :
  Decoder_wf d -> length (Decoder.unread d) < Z.to_nat size ->
  (peek size d).1.2 = Some (Decoder.rd_err d).
Proof.
  unfold Decoder_wf, peek, Decoder.unread. simpl.
  rewrite length_app. intros Hwf Hlen.
  destruct (Decoder.err d) as [e|]; [by destruct Hwf as [-> _]|].
  destruct (_ <? _) eqn:Hlt; [done|].
  apply Nat.ltb_ge in Hlt.
  rewrite length_take, length_app, length_take in Hlt. lia.
Qed.

Lemma peek_err_full (size : Z) (d : Decoder.t) :
  Decoder.err d = None -> Z.to_nat size <= length (Decoder.unread d) ->
  (peek size d).1.2 = None.
Proof.
  unfold peek, Decoder.unread. simpl. rewrite length_app. intros -> Hlen.
  destruct (_ <? _) eqn:Hlt; [|done].
  apply Nat.ltb_lt in Hlt.
  rewrite length_take, length_app, length_take in Hlt. lia.
Qed.

Lemma Discard_config (n : nat) (d : Decoder.t) : same_config d (Discard n d).
Proof. by repeat split. Qed.

Lemma Discard_wf (n : nat) (d : Decoder.t) :
  Decoder_wf d -> Decoder_wf (Discard n d).
Proof. done. Qed.

Lemma Discard_unread (n : nat) (d : Decoder.t) :
  Decoder.unread d = take n (Decoder.b d) ++ Decoder.unread (Discard n d).
Proof.
  unfold Discard, Decoder.unread. simpl. by rewrite app_assoc, take_drop.
Qed.

Lemma HasPrefix_drop_take (u delim : bytes) (n j : nat) :
  j + length delim <= n ->
  HasPrefix (drop j (take n u)) delim = HasPrefix (drop j u) delim.
Proof.
  intros Hle. rewrite skipn_firstn_comm. apply HasPrefix_take. lia.
Qed.

(** What [readUntil] returns: the input up to and including the first
    occurrence of the delimiter; or, when the reader fails before any
    occurrence, all the input together with the reader's error; or the
    size error, with nothing consumed. *)
Lemma readUntil_loop_spec (fuel : nat) (delim : bytes) (maxSize : Z) :
  delim <> [] ->
  forall (last size : Z) (d : Decoder.t) buf err d',
  Decoder_wf d ->
  (forall j, j < Z.to_nat last ->
     HasPrefix (drop j (Decoder.unread d)) delim = false) ->
  readUntil_loop fuel delim maxSize last size d = Some ((buf, err), d') ->
  same_config d d' /\ Decoder_wf d' /\
  Decoder.unread d = buf ++ Decoder.unread d' /\
  match err with
  | None =>
      exists i, Index (Decoder.unread d) delim = Some i /\
                buf = take (i + length delim) (Decoder.unread d)
  | Some e =>
      (Index (Decoder.unread d) delim = None /\ Decoder.unread d' = [] /\
       e = Decoder.rd_err d /\ Decoder.err d' = Some e)
      \/ (buf = [] /\
          e = Errorf "maximum size exceeded while looking for delimiter %q"
                [AStr delim])
  end.
Proof.
  intros Hdelim.
  assert (Hdl : 0 < length delim) by (destruct delim; [done|simpl; lia]).
  induction fuel as [|fuel IH];
    intros last size d buf err d' Hwf Hinv Hloop; [discriminate|].
  cbn [readUntil_loop] in Hloop.
  pose proof (peek_buf size d) as Hbuf.
  pose proof (peek_buf_b size d) as Hbufb.
  pose proof (peek_unread size d) as Hun.
  pose proof (peek_wf size d Hwf) as Hwf0.
  pose proof (peek_config size d) as Hcfg.
  pose proof (peek_err size d) as Herr.
  destruct (peek size d) as [[buf0 err0] d0]. simpl in *.
  set (n := Z.to_nat size) in *. set (l := Z.to_nat last) in *.
  destruct (Index (drop l buf0) delim) as [i|] eqn:Hidx.
  - (* the delimiter is in the buffer *)
    injection Hloop as <- <- <-.
    pose proof (Index_bound _ _ _ Hidx) as Hb. rewrite length_drop in Hb.
    assert (Hlen0 : length buf0 <= n).
    { rewrite Hbuf, length_take. lia. }
    assert (Hlenb : length buf0 <= length (Decoder.b d0)).
    { rewrite Hbufb, length_take. lia. }
    apply Index_Some in Hidx as [Hat Hbefore].
    rewrite drop_drop in Hat.
    split; [eapply same_config_trans; [done|apply Discard_config]|].
    split; [by apply Discard_wf|]. split.
    + rewrite <- Hun, (Discard_unread (l + i + length delim) d0).
      f_equal. rewrite Hbufb, take_take. f_equal. lia.
    + exists (l + i). split.
      * apply Index_Some. split.
        -- rewrite <- Hat, Hbuf. symmetry. apply HasPrefix_drop_take. lia.
        -- intros j Hj. destruct (decide (j < l)) as [Hjl|Hjl]; [by apply Hinv|].
           specialize (Hbefore (j - l) ltac:(lia)).
           rewrite drop_drop in Hbefore.
           replace (l + (j - l)) with j in Hbefore by lia.
           rewrite <- Hbefore, Hbuf. symmetry. apply HasPrefix_drop_take. lia.
      * rewrite Hbuf, take_take. f_equal. lia.
  - destruct (bool_decide (err0 <> None) && (length buf0 =? Buffered d0)) eqn:Hret.
    + (* the reader failed and the buffer is exhausted *)
      injection Hloop as <- <- <-.
      apply andb_true_iff in Hret as [Hne Hlen].
      apply bool_decide_eq_true in Hne. apply Nat.eqb_eq in Hlen.
      destruct err0 as [e|]; [|done].
      unfold Decoder_wf in Hwf0. rewrite <- Herr in Hwf0.
      destruct Hwf0 as [-> Hrd].
      assert (Hall : buf0 = Decoder.b d0).
      { rewrite Hbufb. apply take_ge. rewrite Hbufb, length_take in Hlen.
        unfold Buffered in Hlen. lia. }
      assert (Hub : Decoder.unread d = buf0).
      { rewrite <- Hun, Hall. unfold Decoder.unread. by rewrite Hrd, app_nil_r. }
      assert (Hnil : Decoder.unread (Discard (length buf0) d0) = []).
      { unfold Decoder.unread, Discard. simpl.
        rewrite Hrd, app_nil_r, Hall. by rewrite drop_all. }
      split; [eapply same_config_trans; [done|apply Discard_config]|].
      split; [unfold Decoder_wf; simpl; by rewrite <- Herr|].
      split; [by rewrite Hnil, app_nil_r|].
      left. split; [|split; [done|split]].
      * apply Index_None. intros j.
        destruct (decide (j < l)) as [Hjl|Hjl]; [by apply Hinv|].
        pose proof (proj1 (Index_None _ _) Hidx (j - l)) as Hj.
        rewrite drop_drop in Hj.
        replace (l + (j - l)) with j in Hj by lia. by rewrite Hub.
      * by destruct Hcfg as [-> _].
      * simpl. by rewrite <- Herr.
    + destruct (maxSize <? size * 2)%Z.
      * injection Hloop as <- <- <-.
        split; [done|]. split; [done|]. split; [by rewrite Hun|]. by right.
      * apply IH in Hloop as (Hc & Hw & Hu & He); [|done|].
        -- split; [by eapply same_config_trans|]. split; [done|].
           rewrite <- Hun. split; [done|].
           destruct err as [e|]; [|done].
           destruct He as [(?&?&?&?)|?]; [left|by right].
           repeat split; try done. by destruct Hcfg as [<- _].
        -- intros j Hj. rewrite Hun.
           destruct (decide (j < l)) as [Hjl|Hjl]; [by apply Hinv|].
           pose proof (proj1 (Index_None _ _) Hidx (j - l)) as Hj'.
           rewrite drop_drop in Hj'.
           replace (l + (j - l)) with j in Hj' by lia.
           rewrite <- Hj', Hbuf. symmetry. apply HasPrefix_drop_take.
           lia.
Qed.

Lemma readUntil_spec (delim : bytes) (maxSize : Z) (d : Decoder.t) buf err d' :
  delim <> [] -> Decoder_wf d ->
  readUntil delim maxSize d = Some ((buf, err), d') ->
  same_config d d' /\ Decoder_wf d' /\
  Decoder.unread d = buf ++ Decoder.unread d' /\
  match err with
  | None =>
      exists i, Index (Decoder.unread d) delim = Some i /\
                buf = take (i + length delim) (Decoder.unread d)
  | Some e =>
      (Index (Decoder.unread d) delim = None /\ Decoder.unread d' = [] /\
       e = Decoder.rd_err d /\ Decoder.err d' = Some e)
      \/ (buf = [] /\
          e = Errorf "maximum size exceeded while looking for delimiter %q"
                [AStr delim])
  end.
Proof.
  intros Hdelim Hwf Hrun. unfold readUntil in Hrun.
  eapply readUntil_loop_spec in Hrun; try done.
  intros j Hj. simpl in Hj. lia.
Qed.

(** [readUntil] returns when the initial buffer size is positive. *)
Lemma readUntil_loop_total (delim : bytes) (maxSize : Z) (fuel : nat) :
  forall (last size : Z) (d : Decoder.t),
  (0 < size)%Z -> (maxSize < size * 2 ^ Z.of_nat (S fuel))%Z ->
  is_Some (readUntil_loop (S fuel) delim maxSize last size d).
Proof.
  induction fuel as [|fuel IH]; intros last size d Hsize Hmax;
    cbn [readUntil_loop]; destruct (peek size d) as [[buf0 err0] d0];
    (destruct (Index _ delim); [eauto|]);
    (destruct (_ && _); [eauto|]).
  - destruct (maxSize <? size * 2)%Z eqn:Hlt; [eauto|].
    apply Z.ltb_ge in Hlt. change (2 ^ Z.of_nat 1)%Z with 2%Z in Hmax. lia.
  - destruct (maxSize <? size * 2)%Z eqn:Hlt; [eauto|].
    apply IH; [lia|].
    rewrite (Nat2Z.inj_succ (S fuel)), Z.pow_succ_r in Hmax by lia. lia.
Qed.

Lemma readUntil_total (delim : bytes) (maxSize : Z) (d : Decoder.t) :
  (0 < Decoder.initialBufSize d)%Z ->
  is_Some (readUntil delim maxSize d).
Proof.
  intros Hinit. unfold readUntil. apply readUntil_loop_total; [done|].
  rewrite Nat2Z.inj_succ, Z.pow_succ_r by lia.
  destruct (decide (0 < maxSize)%Z) as [Hpos|Hneg].
  - rewrite Z2Nat.id by apply Z.log2_nonneg.
    pose proof (Z.log2_spec maxSize Hpos) as [_ Hup].
    rewrite Z.pow_succ_r in Hup by apply Z.log2_nonneg. nia.
  - assert (0 < 2 ^ Z.of_nat (Z.to_nat (Z.log2 maxSize)))%Z
      by (apply Z.pow_pos_nonneg; lia).
    nia.
Qed.

Lemma HasPrefix_take_true (s p : bytes) (k : nat) :
  HasPrefix (take k s) p = true -> HasPrefix s p = true.
Proof.
  intros [r Hr]%HasPrefix_true. apply HasPrefix_true.
  exists (r ++ drop k s). by rewrite app_assoc, <- Hr, take_drop.
Qed.

Lemma Index_None_slice (u delim : bytes) (l n : nat) :
  Index u delim = None -> Index (drop l (take n u)) delim = None.
Proof.
  intros Hnone. apply Index_None. intros j. rewrite drop_drop.
  destruct (HasPrefix _ delim) eqn:Hp; [|done].
  rewrite skipn_firstn_comm in Hp. apply HasPrefix_take_true in Hp.
  by rewrite (proj1 (Index_None _ _) Hnone) in Hp.
Qed.

(** A scan that meets no delimiter and is not stopped by the size limit
    returns all the input with the error of the reader. *)
Lemma readUntil_loop_end (delim : bytes) (maxSize : Z) (k : nat) :
  forall (fuel : nat) (last size : Z) (d : Decoder.t),
  Decoder_wf d -> (0 < size)%Z ->
  Index (Decoder.unread d) delim = None ->
  k < fuel ->
  (Z.of_nat (length (Decoder.unread d)) < size * 2 ^ Z.of_nat k)%Z ->
  k = 0 \/ (size * 2 ^ Z.of_nat k <= maxSize)%Z ->
  exists d',
    readUntil_loop fuel delim maxSize last size d
      = Some ((Decoder.unread d, Some (Decoder.rd_err d)), d') /\
    Decoder.unread d' = [] /\ same_config d d'.
Proof.
  induction k as [|k IH]; intros fuel last size d Hwf Hsize Hnone Hfuel Hlen Hmax;
    (destruct fuel as [|fuel]; [lia|]); cbn [readUntil_loop];
    pose proof (peek_buf size d) as Hbuf;
    pose proof (peek_buf_b size d) as Hbufb;
    pose proof (peek_unread size d) as Hun;
    pose proof (peek_wf size d Hwf) as Hwf0;
    pose proof (peek_config size d) as Hcfg;
    pose proof (peek_err size d) as Herr;
    pose proof (peek_err_short size d Hwf) as Hshort;
    destruct (peek size d) as [[buf0 err0] d0]; simpl in *;
    rewrite Hbuf, (Index_None_slice _ _ _ _ Hnone), <- Hbuf.
  - assert (Hlt : length (Decoder.unread d) < Z.to_nat size) by lia.
    rewrite (Hshort Hlt) in *.
    unfold Decoder_wf in Hwf0. rewrite <- Herr in Hwf0. destruct Hwf0 as [_ Hrd].
    assert (Hb : Decoder.b d0 = Decoder.unread d).
    { rewrite <- Hun. unfold Decoder.unread. by rewrite Hrd, app_nil_r. }
    assert (Hall : buf0 = Decoder.unread d) by (rewrite Hbuf; apply take_ge; lia).
    unfold Buffered. rewrite Hb, Hall, Nat.eqb_refl. simpl.
    eexists. split; [done|].
    split; [|eapply same_config_trans; [done|apply Discard_config]].
    unfold Decoder.unread, Discard. simpl. rewrite Hrd, Hb, app_nil_r.
    by rewrite drop_all.
  - destruct (bool_decide (err0 <> None) && (length buf0 =? Buffered d0)) eqn:Hret.
    + apply andb_true_iff in Hret as [Hne Heq].
      apply bool_decide_eq_true in Hne. apply Nat.eqb_eq in Heq.
      destruct err0 as [e|]; [|done].
      unfold Decoder_wf in Hwf0. rewrite <- Herr in Hwf0.
      destruct Hwf0 as [-> Hrd].
      assert (Hb : Decoder.b d0 = Decoder.unread d).
      { rewrite <- Hun. unfold Decoder.unread. by rewrite Hrd, app_nil_r. }
      assert (Hall : buf0 = Decoder.unread d).
      { rewrite Hbufb, Hb in *. apply take_ge. rewrite length_take in Heq.
        unfold Buffered in Heq. rewrite Hb in Heq. lia. }
      destruct Hcfg as (Hre & Hcfg). rewrite Hre, Hall.
      eexists. split; [done|]. split.
      * unfold Decoder.unread, Discard. simpl. rewrite Hrd, Hb, app_nil_r.
        by rewrite drop_all.
      * eapply same_config_trans; [by split|apply Discard_config].
    + rewrite Nat2Z.inj_succ, Z.pow_succ_r in Hlen, Hmax by lia.
      destruct Hmax as [?|Hmax]; [done|].
      assert (0 < 2 ^ Z.of_nat k)%Z by (apply Z.pow_pos_nonneg; lia).
      destruct (maxSize <? size * 2)%Z eqn:Hlt; [apply Z.ltb_lt in Hlt; nia|].
      destruct (IH fuel (size - Z.of_nat (length delim) + 1)%Z (size * 2)%Z d0)
        as (d' & Hrun & Hnil & Hc); try done; try lia.
      * by rewrite Hun.
      * rewrite Hun. lia.
      * rewrite Hun in Hrun. destruct Hcfg as (Hre & Hcfg).
        rewrite Hre in Hrun. exists d'. split; [done|]. split; [done|].
        eapply same_config_trans; [by split|done].
Qed.

Lemma readUntil_end (delim : bytes) (maxSize : Z) (d : Decoder.t) (k : nat) :
  Decoder_wf d -> (0 < Decoder.initialBufSize d)%Z ->
  Index (Decoder.unread d) delim = None ->
  (Z.of_nat (length (Decoder.unread d))
     < Decoder.initialBufSize d * 2 ^ Z.of_nat k)%Z ->
  k = 0 \/ (Decoder.initialBufSize d * 2 ^ Z.of_nat k <= maxSize)%Z ->
  exists d',
    readUntil delim maxSize d
      = Some ((Decoder.unread d, Some (Decoder.rd_err d)), d') /\
    Decoder.unread d' = [] /\ same_config d d'.
Proof.
  intros Hwf Hinit Hnone Hlen Hmax. unfold readUntil.
  apply (readUntil_loop_end delim maxSize k); try done.
  destruct Hmax as [->|Hmax]; [lia|].
  assert (0 < 2 ^ Z.of_nat k)%Z by (apply Z.pow_pos_nonneg; lia).
  assert (2 ^ Z.of_nat k <= maxSize)%Z as Hpow by nia.
  apply Z.log2_le_pow2 in Hpow; lia.
Qed.

(** C5. On a stream that ends, a [Decode] call finding no byte left
    returns io.EOF; a call finding bytes but no header terminator before
    the end of the stream (the scan being within the header size limit,
    that is reaching the end at one of its doubling sizes) returns
    io.ErrUnexpectedEOF. *)
Theorem Decoder_Decode_end_of_stream (d : Decoder.t) :
  Decoder_wf d ->
  Decoder.rd_err d = io_EOF ->
  (0 < Decoder.initialBufSize d)%Z ->
  (Decoder.unread d = [] ->
   exists d', Decoder_Decode typeCheck d = Some (Err io_EOF, d')) /\
  (Decoder.unread d <> [] ->
   Index (Decoder.unread d) nlnl = None ->
   (exists k : nat,
      (Z.of_nat (length (Decoder.unread d))
         < Decoder.initialBufSize d * 2 ^ Z.of_nat k)%Z /\
      (k = 0 \/
       (Decoder.initialBufSize d * 2 ^ Z.of_nat k
          <= Decoder.maxHeadersSize d)%Z)) ->
   exists d', Decoder_Decode typeCheck d = Some (Err io_ErrUnexpectedEOF, d')).
Proof.
  intros Hwf Heof Hinit. split.
  - intros Hnil.
    destruct (readUntil_end nlnl (Decoder.maxHeadersSize d) d 0)
      as (d' & Hrun & _); try done.
    { by rewrite Hnil. }
    { rewrite Hnil. simpl. lia. }
    { by left. }
    exists d'. unfold Decoder_Decode. rewrite Hrun. simpl.
    by rewrite Heof, Hnil.
  - intros Hne Hnone (k & Hlen & Hmax).
    destruct (readUntil_end nlnl (Decoder.maxHeadersSize d) d k)
      as (d' & Hrun & _); try done.
    exists d'. unfold Decoder_Decode. rewrite Hrun. simpl.
    rewrite Heof. by destruct (Decoder.unread d).
Qed.

(** *** Inversion of the checks *)

Lemma bind_Ok {A C} (f : A -> result C) (r : result A) (c : C) :
  r ≫= f = Ok c -> exists a, r = Ok a /\ f a = Ok c.
Proof. destruct r as [a|e]; [eauto|discriminate]. Qed.

Lemma wrapErr_Ok {A} (format : string) (args : list fmt_arg)
    (r : result A) (a : A) :
  wrapErr format args r = Ok a <-> r = Ok a.
Proof. destruct r; simpl; split; congruence. Qed.

Lemma HasSuffix_true (s suffix : bytes) :
  HasSuffix s suffix = true <-> exists r, s = r ++ suffix.
Proof.
  unfold HasSuffix. rewrite HasPrefix_true. split.
  - intros [r Hr]. exists (rev r).
    rewrite <- (rev_involutive s), Hr, rev_app_distr.
    by rewrite rev_involutive.
  - intros [r ->]. exists (rev r). by rewrite rev_app_distr.
Qed.

Lemma normalized_cases (sig : bytes) :
  (HasSuffix sig nlnl = false /\ normalized sig = sig) \/
  (HasSuffix sig nlnl = true /\ sig = normalized sig ++ nl).
Proof.
  unfold normalized. destruct (HasSuffix sig nlnl) eqn:Hs; [right|by left].
  split; [done|]. apply HasSuffix_true in Hs as [r ->].
  rewrite length_app. simpl.
  replace (length r + 2 - 1) with (length (r ++ nl)) by (rewrite length_app; simpl; lia).
  change nlnl with (nl ++ nl). rewrite app_assoc, take_app_length. done.
Qed.

Lemma assembler_Ok (t : AssertionType) (ab : assertionBase.t) (a : Assertion) :
  assembler typeCheck t ab = Ok a -> a = ab /\ typeCheck t ab = None.
Proof.
  unfold assembler. destruct (typeCheck t ab); [discriminate|].
  by intros [= <-].
Qed.

(** An assembled assertion holds the components it was given; its
    revision is the checked [revision] header. *)
Lemma Assemble_Ok (headers : gmap bytes bytes) (body content signature : bytes)
    (a : Assertion) :
  Assemble typeCheck headers body content signature = Ok a ->
  exists revision t,
    a = assertionBase.mk headers body revision content signature /\
    checkInteger headers (B "body-length") 0%Z = Ok (Z.of_nat (length body)) /\
    checkRevision headers = Ok revision /\
    Type' (headers !!! B "type") = Some t /\
    signature <> [] /\
    typeCheck t a = None.
Proof.
  unfold Assemble. intros H.
  apply bind_Ok in H as (len & Hlen%wrapErr_Ok & H).
  destruct (negb (len =? Z.of_nat (length body))%Z) eqn:Hcmp; [discriminate|].
  apply negb_false_iff, Z.eqb_eq in Hcmp. subst len.
  apply bind_Ok in H as (auth & Hauth%wrapErr_Ok & H).
  apply bind_Ok in H as (typ & Htyp%wrapErr_Ok & H).
  destruct (Type' typ) as [t|] eqn:Ht; [|discriminate].
  apply bind_Ok in H as (? & Hpk%wrapErr_Ok & H).
  apply bind_Ok in H as (rev & Hrev%wrapErr_Ok & H).
  destruct (length signature =? 0) eqn:Hsig; [discriminate|].
  apply wrapErr_Ok, assembler_Ok in H as [-> Hcheck].
  exists rev, t. repeat split; try done.
  - unfold checkNotEmpty in Htyp. rewrite lookup_total_alt.
    destruct (headers !! B "type") as [v|]; [|discriminate]. simpl.
    destruct (length v =? 0); [discriminate|]. by injection Htyp as ->.
  - intros ->. discriminate.
Qed.

(** *** Inversion of [Decoder.Decode] *)

#[local] Arguments HasPrefix : simpl never.
#[local] Arguments HasSuffix : simpl never.
#[local] Arguments Index : simpl never.
#[local] Arguments B : simpl never.
#[local] Arguments parseHeaders : simpl never.
#[local] Arguments checkInteger : simpl never.
#[local] Arguments Assemble : simpl never.
#[local] Arguments Decoder_trailer : simpl never.
#[local] Arguments Decoder_finish : simpl never.
#[local] Arguments readUntil : simpl never.
#[local] Arguments readExact : simpl never.
#[local] Arguments normalized : simpl never.
#[local] Arguments make_bytes : simpl never.

Lemma peek_err_None (size : Z) (d : Decoder.t) :
  (peek size d).1.2 = None -> length (peek size d).1.1 = Z.to_nat size.
Proof.
  unfold peek. simpl. destruct (Decoder.err d); [discriminate|].
  destruct (_ <? _) eqn:Hlt; [discriminate|]. intros _.
  apply Nat.ltb_ge in Hlt. pose proof (firstn_le_length (Z.to_nat size)
    (Decoder.b d ++ take (Z.to_nat size - length (Decoder.b d)) (Decoder.rd d))).
  lia.
Qed.

Lemma readExact_Ok (size : Z) (d : Decoder.t) buf d' :
  Decoder_wf d ->
  readExact size d = ((buf, None), d') ->
  length buf = Z.to_nat size /\
  Decoder.unread d = buf ++ Decoder.unread d' /\
  same_config d d' /\ Decoder_wf d'.
Proof.
  intros Hwf. unfold readExact.
  pose proof (peek_buf_b size d) as Hbufb.
  pose proof (peek_unread size d) as Hun.
  pose proof (peek_wf size d Hwf) as Hwf0.
  pose proof (peek_config size d) as Hcfg.
  pose proof (peek_err_None size d) as Hnone.
  destruct (peek size d) as [[buf0 err0] d0]. simpl in *.
  assert (Hgoal : length buf0 = Z.to_nat size ->
    length buf0 = Z.to_nat size /\
    Decoder.unread d = buf0 ++ Decoder.unread (Discard (length buf0) d0) /\
    same_config d (Discard (length buf0) d0) /\
    Decoder_wf (Discard (length buf0) d0)).
  { intros Hlen. split; [done|]. split.
    - rewrite <- Hun, (Discard_unread (length buf0) d0). f_equal.
      rewrite Hlen. done.
    - split; [eapply same_config_trans; [done|apply Discard_config]|].
      by apply Discard_wf. }
  destruct (length buf0 =? Z.to_nat size) eqn:Hlen.
  - intros [= <- <-]. apply Hgoal. by apply Nat.eqb_eq.
  - destruct err0 as [[]|]; intros [= <- <-]. apply Hgoal. by apply Hnone.
Qed.

Lemma readUntil_found_suffix (d : Decoder.t) buf d' (maxSize : Z) :
  Decoder_wf d ->
  readUntil nlnl maxSize d = Some ((buf, None), d') ->
  exists head,
    buf = head ++ nlnl /\
    Index (Decoder.unread d) nlnl = Some (length head) /\
    Decoder.unread d = head ++ nlnl ++ Decoder.unread d' /\
    same_config d d' /\ Decoder_wf d'.
Proof.
  intros Hwf Hrun.
  apply readUntil_spec in Hrun as (Hcfg & Hwf' & Hun & i & Hidx & Hbuf);
    [|done|done].
  pose proof (Index_bound _ _ _ Hidx) as Hb.
  pose proof Hidx as [Hat _]%Index_Some.
  apply HasPrefix_true in Hat as [r Hr].
  exists (take i (Decoder.unread d)).
  assert (Hlen : length (take i (Decoder.unread d)) = i)
    by (rewrite length_take; lia).
  assert (Hsplit : buf = take i (Decoder.unread d) ++ nlnl).
  { rewrite Hbuf. rewrite <- (take_drop i (Decoder.unread d)) at 1.
    rewrite take_app_add'; [|done]. f_equal.
    rewrite Hr. by rewrite take_app_length. }
  split; [done|]. split; [by rewrite Hlen|].
  split; [|done]. rewrite Hun at 1. rewrite Hsplit. by rewrite <- app_assoc.
Qed.

Lemma readUntil_soft (d : Decoder.t) buf err d' (maxSize : Z) :
  Decoder_wf d ->
  readUntil nlnl maxSize d = Some ((buf, err), d') ->
  notEOF err = None ->
  Decoder.unread d = buf ++ Decoder.unread d' /\
  same_config d d' /\ Decoder_wf d' /\
  (buf <> nlnl -> HasPrefix (Decoder.unread d) nlnl = false).
Proof.
  intros Hwf Hrun Hsoft.
  apply readUntil_spec in Hrun as (Hcfg & Hwf' & Hun & Hres); [|done|done].
  split; [done|]. split; [done|]. split; [done|]. intros Hne.
  destruct err as [e|].
  - destruct Hres as [(Hnone & _)|(_ & ->)]; [|discriminate].
    apply (proj1 (Index_None _ _) Hnone 0).
  - destruct Hres as (i & Hidx & Hbuf).
    pose proof Hidx as [Hat Hbefore]%Index_Some.
    destruct i as [|i]; [|apply (Hbefore 0); lia].
    exfalso. apply Hne. rewrite drop_0 in Hat.
    apply HasPrefix_true in Hat as [r Hr]. by rewrite Hbuf, Hr.
Qed.

Lemma Decoder_trailer_Ok (headers : gmap bytes bytes) (length' : Z)
    (headLen : nat) (contentBuf : bytes) (d : Decoder.t) a d' :
  Decoder_wf d ->
  Decoder_trailer typeCheck headers length' headLen contentBuf d
    = Some (Ok a, d') ->
  same_config d d' /\ Decoder_wf d' /\
  exists sig,
    (Decoder.unread d = nlnl ++ sig ++ Decoder.unread d' /\
     Decoder_finish typeCheck headers length' headLen contentBuf sig = Ok a)
    \/
    ((length' <= 0)%Z /\
     Decoder.unread d = sig ++ Decoder.unread d' /\
     HasPrefix (Decoder.unread d) nlnl = false /\
     Decoder_finish typeCheck headers length' headLen
       (take headLen contentBuf) sig = Ok a).
Proof.
  intros Hwf. unfold Decoder_trailer.
  destruct (readUntil nlnl (Decoder.maxSigSize d) d)
    as [[[endOfBody err] d1]|] eqn:Hrun1; [|discriminate]. simpl.
  destruct (notEOF err) eqn:Hsoft1; [discriminate|].
  destruct (readUntil_soft _ _ _ _ _ Hwf Hrun1 Hsoft1)
    as (Hun1 & Hcfg1 & Hwf1 & Hdirect).
  case_bool_decide as Hsep.
  - subst endOfBody.
    destruct (readUntil nlnl (Decoder.maxSigSize d1) d1)
      as [[[sig err2] d2]|] eqn:Hrun2; [|discriminate]. simpl.
    destruct (notEOF err2) eqn:Hsoft2; [discriminate|].
    destruct (readUntil_soft _ _ _ _ _ Hwf1 Hrun2 Hsoft2)
      as (Hun2 & Hcfg2 & Hwf2 & _).
    intros [= Hfin <-].
    split; [by eapply same_config_trans|]. split; [done|].
    exists sig. left. split; [|done]. by rewrite Hun1, Hun2.
  - destruct (0 <? length')%Z eqn:Hpos; [discriminate|].
    apply Z.ltb_ge in Hpos. intros [= Hfin <-].
    split; [done|]. split; [done|].
    exists endOfBody. right. split; [done|]. split; [done|].
    split; [by apply Hdirect|done].
Qed.

Lemma Decoder_finish_eq (headers : gmap bytes bytes) (length' : Z)
    (headLen : nat) (contentBuf sig : bytes) :
  Decoder_finish typeCheck headers length' headLen contentBuf sig =
  Assemble typeCheck headers
    (if (0 <? length')%Z then drop (headLen + 2) contentBuf else [])
    contentBuf (normalized sig).
Proof. reflexivity. Qed.

(** The allocation of the content buffer returns, with the empty
    buffer, exactly when the capacity asked for is not negative. *)
Lemma make_bytes_Some (cap : Z) (buf : bytes) :
  make_bytes cap = Some buf <-> buf = [] /\ (0 <= cap)%Z.
Proof.
  unfold make_bytes. destruct (cap <? 0)%Z eqn:Hcap.
  - apply Z.ltb_lt in Hcap. split; [discriminate|lia].
  - apply Z.ltb_ge in Hcap. split; [by intros [= <-]|by intros [-> _]].
Qed.

(** A successful [Decode] call: the input starts with a header block
    [head] up to its first blank line, [head] parses to headers declaring
    a body of [L] bytes, and what follows is either the body, a separator
    and the signature, or (no body declared) the signature at once. *)
Lemma Decoder_Decode_Ok (d : Decoder.t) a d' :
  Decoder_wf d ->
  Decoder_Decode typeCheck d = Some (Ok a, d') ->
  same_config d d' /\ Decoder_wf d' /\
  exists head headers L body sig,
    Index (Decoder.unread d) nlnl = Some (length head) /\
    parseHeaders head = Ok headers /\
    checkInteger headers (B "body-length") 0%Z = Ok L /\
    (L <= Decoder.maxBodySize d)%Z /\
    length body = Z.to_nat L /\
    ((Decoder.unread d
        = head ++ nlnl ++ body ++ nlnl ++ sig ++ Decoder.unread d' /\
      Assemble typeCheck headers body (head ++ nlnl ++ body) (normalized sig)
        = Ok a)
     \/
     ((L <= 0)%Z /\
      Decoder.unread d = head ++ nlnl ++ sig ++ Decoder.unread d' /\
      HasPrefix (sig ++ Decoder.unread d') nlnl = false /\
      Assemble typeCheck headers [] head (normalized sig) = Ok a)).
Proof.
  intros Hwf. unfold Decoder_Decode.
  destruct (readUntil nlnl (Decoder.maxHeadersSize d) d)
    as [[[headAndSep err] d1]|] eqn:Hrun1; [|discriminate]. simpl.
  destruct err as [e|].
  { destruct e; try discriminate. by destruct (negb _). }
  destruct (readUntil_found_suffix _ _ _ _ Hwf Hrun1)
    as (head & -> & Hidx & Hun1 & Hcfg1 & Hwf1).
  rewrite length_app. simpl.
  replace (length head + 2 - 2) with (length head) by lia.
  rewrite take_app_length.
  destruct (parseHeaders head) as [headers|] eqn:Hparse; [|discriminate].
  destruct (checkInteger headers (B "body-length") 0%Z) as [L|] eqn:HL;
    [|discriminate].
  destruct (Decoder.maxBodySize d1 <? L)%Z eqn:Hmax; [discriminate|].
  apply Z.ltb_ge in Hmax.
  assert (Hmax' : (L <= Decoder.maxBodySize d)%Z).
  { destruct Hcfg1 as (_ & _ & _ & <- & _). done. }
  destruct (make_bytes _) as [buf|] eqn:Hmake; [|discriminate].
  apply make_bytes_Some in Hmake as [-> _]. simpl.
  destruct (0 <? L)%Z eqn:Hpos.
  - destruct (readExact L d1) as [[body errb] d2] eqn:Hbody.
    destruct errb as [e|]; [discriminate|].
    destruct (readExact_Ok _ _ _ _ Hwf1 Hbody) as (Hlen & Hun2 & Hcfg2 & Hwf2).
    intros Htr.
    apply Decoder_trailer_Ok in Htr as (Hcfg3 & Hwf3 & sig & Htr); [|done].
    split; [eauto using same_config_trans|]. split; [done|].
    exists head, headers, L, body, sig.
    do 5 (split; [done|]). left.
    destruct Htr as [[Hun3 Hfin]|[Hneg _]]; [|apply Z.ltb_lt in Hpos; lia].
    split; [by rewrite Hun1, Hun2, Hun3|].
    rewrite Decoder_finish_eq, Hpos in Hfin.
    rewrite <- !app_assoc in Hfin.
    rewrite (app_assoc head nlnl body), drop_app_length' in Hfin;
      [|rewrite length_app; simpl; lia].
    by rewrite <- app_assoc in Hfin.
  - intros Htr. apply Z.ltb_ge in Hpos.
    apply Decoder_trailer_Ok in Htr as (Hcfg3 & Hwf3 & sig & Htr); [|done].
    split; [eauto using same_config_trans|]. split; [done|].
    exists head, headers, L, [], sig.
    do 4 (split; [done|]). split; [simpl; lia|].
    assert (Hnpos : (0 <? L)%Z = false) by (apply Z.ltb_ge; lia).
    destruct Htr as [[Hun3 Hfin]|(_ & Hun3 & Hdirect & Hfin)].
    + left. split; [by rewrite Hun1, Hun3|].
      rewrite Decoder_finish_eq, Hnpos in Hfin. exact Hfin.
    + right. split; [done|]. split; [by rewrite Hun1, Hun3|].
      split; [by rewrite <- Hun3|].
      rewrite Decoder_finish_eq, Hnpos in Hfin.
      by rewrite take_app_length in Hfin.
Qed.

(** *** The content rebuilt by [Decoder.Decode] *)

(** C4 (as amended). For an assertion returned by [Decoder.Decode], with
    [head] the header block of the input and [L] the declared body-length:
    the content is [head], the separator and the body when [L > 0]; when
    [L = 0] it is [head] alone if the signature follows the header
    separator at once, and [head] with the separator if a second
    separator precedes the signature. *)
Theorem Decoder_Decode_content (d : Decoder.t) a d' :
  Decoder_wf d ->
  Decoder_Decode typeCheck d = Some (Ok a, d') ->
  exists head rest L,
    Decoder.unread d = head ++ nlnl ++ rest /\
    Index (Decoder.unread d) nlnl = Some (length head) /\
    parseHeaders head = Ok (assertionBase.headers a) /\
    checkInteger (assertionBase.headers a) (B "body-length") 0%Z = Ok L /\
    assertionBase.body a
      = (if (0 <? L)%Z then take (Z.to_nat L) rest else []) /\
    assertionBase.content a
      = (if (0 <? L)%Z then head ++ nlnl ++ assertionBase.body a
         else if HasPrefix rest nlnl then head ++ nlnl else head).
Proof.
  intros Hwf Hdec.
  apply Decoder_Decode_Ok in Hdec
    as (_ & _ & head & headers & L & body & sig & Hidx & Hparse & HL & _
        & Hlen & Hcase); [|done].
  destruct Hcase as [[Hun Hasm]|(Hneg & Hun & Hdirect & Hasm)];
    apply Assemble_Ok in Hasm as (rev & t & -> & HL' & _); simpl.
  - exists head, (body ++ nlnl ++ sig ++ Decoder.unread d'), L.
    do 4 (split; [done|]).
    assert (HLb : L = Z.of_nat (length body)) by congruence.
    destruct (0 <? L)%Z eqn:Hpos.
    + split; [|done]. rewrite <- Hlen. by rewrite take_app_length.
    + apply Z.ltb_ge in Hpos.
      assert (body = []) as -> by (destruct body; [done|simpl in HLb; lia]).
      split; [done|].
      change ([] ++ nlnl ++ sig ++ Decoder.unread d')
        with (nlnl ++ (sig ++ Decoder.unread d')).
      by rewrite HasPrefix_app.
  - exists head, (sig ++ Decoder.unread d'), L.
    do 4 (split; [done|]).
    assert ((0 <? L)%Z = false) as -> by (apply Z.ltb_ge; lia).
    by rewrite Hdirect.
Qed.

(** *** The body-length limit *)


(** *** The signature right after the headers *)

(** C7. In a call that has reached the trailer scan, when this scan
    returns bytes other than the separator: with a declared body-length
    above 0 [Decode] fails with the missing separator error; otherwise
    those bytes, normalized, are the signature handed to [Assemble] with
    the header block as content, and an assertion is returned only if the
    declared body-length is 0. (With a body-length below 0 the trailer
    scan is reached when the allocation of the content buffer, which
    comes first, did not panic: when the capacity asked for, the length
    of the header block with its separator plus the body-length, is not
    negative.) *)
Theorem Decoder_Decode_direct_signature (d : Decoder.t)
    headAndSep d1 headers L d2 endOfBody err d3 :
  readUntil nlnl (Decoder.maxHeadersSize d) d = Some ((headAndSep, None), d1) ->
  parseHeaders (take (length headAndSep - 2) headAndSep) = Ok headers ->
  checkInteger headers (B "body-length") 0%Z = Ok L ->
  (L <= Decoder.maxBodySize d1)%Z ->
  (if (0 <? L)%Z then exists body, readExact L d1 = ((body, None), d2)
   else d2 = d1) ->
  readUntil nlnl (Decoder.maxSigSize d2) d2 = Some ((endOfBody, err), d3) ->
  notEOF err = None ->
  endOfBody <> nlnl ->
  ((0 < L)%Z ->
   Decoder_Decode typeCheck d
     = Some (Err (Errorf "missing content/signature separator" []), d3)) /\
  ((L <= 0)%Z ->
   (0 <= Z.of_nat (length headAndSep) + L)%Z ->
   Decoder_Decode typeCheck d
     = Some (Assemble typeCheck headers []
               (take (length headAndSep - 2) headAndSep)
               (normalized endOfBody), d3)) /\
  (forall a, Decoder_Decode typeCheck d = Some (Ok a, d3) ->
             L = 0%Z /\ assertionBase.signature a = normalized endOfBody).
Proof.
  intros Hrun1 Hparse HL Hmax Hbody Hrun2 Hsoft Hne.
  assert (Hdec : Decoder_Decode typeCheck d =
    (_ ← make_bytes (Z.of_nat (length headAndSep) + L);
     Some (if (0 <? L)%Z
           then Err (Errorf "missing content/signature separator" [])
           else Assemble typeCheck headers []
                  (take (length headAndSep - 2) headAndSep)
                  (normalized endOfBody), d3))).
  { unfold Decoder_Decode. rewrite Hrun1. simpl. rewrite Hparse, HL.
    apply Z.leb_le in Hmax. rewrite Z.leb_antisym in Hmax.
    apply negb_true_iff in Hmax. rewrite Hmax.
    destruct (make_bytes _) as [buf|] eqn:Hmake; [|done].
    apply make_bytes_Some in Hmake as [-> _]. simpl.
    destruct (0 <? L)%Z eqn:Hpos.
    - destruct Hbody as [body ->]. unfold Decoder_trailer.
      rewrite Hrun2. simpl. rewrite Hsoft.
      rewrite bool_decide_eq_false_2 by done. by rewrite Hpos.
    - subst d2. unfold Decoder_trailer. rewrite Hrun2. simpl. rewrite Hsoft.
      rewrite bool_decide_eq_false_2 by done. rewrite Hpos.
      by rewrite Decoder_finish_eq, Hpos. }
  split; [|split].
  - intros Hpos. rewrite Hdec.
    rewrite (proj2 (make_bytes_Some _ [])) by (split; [done|lia]).
    apply Z.ltb_lt in Hpos. simpl. by rewrite Hpos.
  - intros Hneg Hcap. rewrite Hdec.
    rewrite (proj2 (make_bytes_Some _ [])) by done.
    apply Z.ltb_ge in Hneg. simpl. by rewrite Hneg.
  - intros a Ha. rewrite Hdec in Ha.
    destruct (make_bytes _); [|discriminate]. simpl in Ha.
    destruct (0 <? L)%Z; [discriminate|].
    injection Ha as Ha.
    apply Assemble_Ok in Ha as (rev & t & -> & HL' & _). simpl.
    rewrite HL in HL'. by injection HL' as ->.
Qed.

(** *** Re-encoding what was decoded *)

Lemma LastIndex_spec (s sep : bytes) :
  match LastIndex s sep with
  | Some i =>
      HasPrefix (drop i s) sep = true /\ i <= length s /\
      forall j, i < j -> j <= length s -> HasPrefix (drop j s) sep = false
  | None => forall j, j <= length s -> HasPrefix (drop j s) sep = false
  end.
Proof.
  induction s as [|c s IH]; cbn [LastIndex].
  - destruct (HasPrefix [] sep) eqn:Hp.
    + split; [done|]. split; [done|]. intros j Hj Hle. simpl in Hle. lia.
    + intros j Hj. by rewrite drop_nil.
  - destruct (LastIndex s sep) as [k|].
    + destruct IH as (Hat & Hle & Hafter). split; [done|].
      split; [simpl; lia|]. intros [|j] Hj Hjl; [lia|].
      simpl. apply Hafter; simpl in Hjl; lia.
    + destruct (HasPrefix (c :: s) sep) eqn:Hp.
      * split; [done|]. split; [simpl; lia|]. intros [|j] Hj Hjl; [lia|].
        simpl. apply IH. simpl in Hjl. lia.
      * intros [|j] Hjl; [done|]. simpl. apply IH. simpl in Hjl. lia.
Qed.

Lemma LastIndex_Some (s sep : bytes) (i : nat) :
  LastIndex s sep = Some i <->
  HasPrefix (drop i s) sep = true /\ i <= length s /\
  forall j, i < j -> j <= length s -> HasPrefix (drop j s) sep = false.
Proof.
  pose proof (LastIndex_spec s sep) as Hspec. split.
  - intros Hi. by rewrite Hi in Hspec.
  - intros (Hat & Hle & Hafter).
    destruct (LastIndex s sep) as [k|].
    + destruct Hspec as (Hat' & Hle' & Hafter'). f_equal.
      destruct (Nat.lt_trichotomy k i) as [Hlt|[->|Hgt]]; [|done|].
      * rewrite (Hafter' i Hlt Hle) in Hat. done.
      * rewrite (Hafter k Hgt Hle') in Hat'. done.
    + rewrite (Hspec i Hle) in Hat. done.
Qed.

Lemma HasPrefix_split (s sep : bytes) (i : nat) :
  HasPrefix (drop i s) sep = true -> i <= length s ->
  s = take i s ++ sep ++ drop (i + length sep) s.
Proof.
  intros [r Hr]%HasPrefix_true Hle.
  rewrite <- (take_drop i s) at 1. f_equal.
  rewrite <- drop_drop, Hr. by rewrite drop_app_length.
Qed.

(** The single-shot decoder keeps the content and the signature as they
    stand in its input. *)
Lemma Decode_Ok (serializedAssertion : bytes) (a : Assertion) :
  Decode typeCheck serializedAssertion = Ok a ->
  exists i,
    LastIndex serializedAssertion nlnl = Some i /\
    assertionBase.content a = take i serializedAssertion /\
    assertionBase.signature a = drop (i + 2) serializedAssertion.
Proof.
  unfold Decode.
  destruct (LastIndex serializedAssertion nlnl) as [i|]; [|discriminate].
  destruct (Index (take i serializedAssertion) nlnl) as [k|];
    intros (headers & _ & Hasm)%bind_Ok;
    apply Assemble_Ok in Hasm as (rev & t & -> & _); by exists i.
Qed.

(** C2. Re-encoding an assertion decoded by the single-shot [Decode]
    gives back its input exactly; re-encoding an assertion decoded by
    [Decoder.Decode] gives back the bytes the call consumed, up to the
    newline normalizations (here: of two final newlines of the signature
    the second one is not reproduced). *)
Theorem Encode_reproduces_decoded_input :
  (forall serializedAssertion a,
     Decode typeCheck serializedAssertion = Ok a ->
     Encode a = serializedAssertion) /\
  (forall d a d',
     Decoder_wf d ->
     Decoder_Decode typeCheck d = Some (Ok a, d') ->
     exists consumed,
       Decoder.unread d = consumed ++ Decoder.unread d' /\
       modulo_newlines consumed (Encode a)).
Proof.
  split.
  - intros s a (i & Hi & Hc & Hs)%Decode_Ok.
    apply LastIndex_Some in Hi as (Hat & Hle & _).
    unfold Encode, Signature. rewrite Hc, Hs.
    symmetry. by apply (HasPrefix_split s nlnl i).
  - intros d a d' Hwf Hdec.
    apply Decoder_Decode_Ok in Hdec
      as (_ & _ & head & headers & L & body & sig & _ & _ & _ & _ & _ & Hcase);
      [|done].
    assert (Hmod : forall content,
      Assemble typeCheck headers
        (assertionBase.body a) content (normalized sig) = Ok a ->
      modulo_newlines (content ++ nlnl ++ sig) (Encode a)).
    { intros content (rev & t & Ha & _)%Assemble_Ok.
      unfold Encode, Signature. rewrite Ha.
      cbn [assertionBase.content assertionBase.signature].
      destruct (normalized_cases sig) as [[_ ->]|[Hsuf Hsig]];
        [apply mn_same|].
      apply mn_collapsed.
      - rewrite Hsig at 1. by rewrite <- !app_assoc.
      - apply HasSuffix_true in Hsuf as [r ->]. apply HasSuffix_true.
        exists (content ++ nlnl ++ r). by rewrite <- !app_assoc. }
    destruct Hcase as [[Hun Hasm]|(_ & Hun & _ & Hasm)].
    + exists ((head ++ nlnl ++ body) ++ nlnl ++ sig).
      split; [by rewrite Hun, <- !app_assoc|]. apply Hmod.
      pose proof Hasm as (rev & t & -> & _)%Assemble_Ok. done.
    + exists (head ++ nlnl ++ sig).
      split; [by rewrite Hun, <- !app_assoc|]. apply Hmod.
      pose proof Hasm as (rev & t & -> & _)%Assemble_Ok. done.
Qed.

(** *** The order of the headers in the signed content *)

Lemma sort_Strings_sorted (l : list bytes) :
  StronglySorted bytes_le (sort_Strings l).
Proof. apply StronglySorted_merge_sort; apply _. Qed.

Lemma sort_Strings_perm (l : list bytes) : sort_Strings l ≡ₚ l.
Proof. apply merge_sort_Permutation. Qed.

Lemma writeHeader_entry (buf : bytes) (headers : gmap bytes bytes)
    (name : bytes) :
  writeHeader buf headers name = buf ++ entry headers name.
Proof.
  unfold entry, writeHeader.
  destruct (ContainsByte _ _); simpl; by rewrite <- !app_assoc.
Qed.

Lemma entry_lookup (h1 h2 : gmap bytes bytes) (name : bytes) :
  h1 !! name = h2 !! name -> entry h1 name = entry h2 name.
Proof.
  intros Heq. unfold entry, writeHeader.
  by rewrite !lookup_total_alt, Heq.
Qed.

Lemma foldl_writeHeader (headers : gmap bytes bytes) (names : list bytes)
    (buf : bytes) :
  foldl (fun buf k => writeHeader buf headers k) buf names
  = buf ++ concat (map (entry headers) names).
Proof.
  revert buf. induction names as [|k names IH]; intros buf; simpl.
  - by rewrite app_nil_r.
  - by rewrite IH, writeHeader_entry, <- app_assoc.
Qed.

Lemma writePrimaryKeys_Ok (finalHeaders : gmap bytes bytes)
    (primKeys : list bytes) (buf : bytes) (written : gset bytes) buf' written' :
  writePrimaryKeys finalHeaders primKeys buf written = Ok (buf', written') ->
  buf' = buf ++ concat (map (entry finalHeaders) primKeys) /\
  written' = list_to_set primKeys ∪ written /\
  checkPrimaryKeys finalHeaders primKeys = Ok tt.
Proof.
  revert buf written. induction primKeys as [|k keys IH]; intros buf written.
  - simpl. intros [= <- <-]. rewrite app_nil_r. split; [done|].
    split; [by rewrite (left_id_L ∅ (∪))|done].
  - cbn [writePrimaryKeys checkPrimaryKeys].
    intros (v & Hv & Hrest)%bind_Ok. rewrite Hv.
    apply IH in Hrest as (-> & -> & Hchk). simpl.
    rewrite writeHeader_entry, <- app_assoc. split; [done|].
    split; [|done].
    by rewrite (comm_L (∪) {[k]} (list_to_set keys)), <- (assoc_L (∪)).
Qed.

Lemma otherKeys_spec (finalHeaders : gmap bytes bytes) (written : gset bytes) :
  StronglySorted bytes_le (otherKeys finalHeaders written) /\
  NoDup (otherKeys finalHeaders written) /\
  forall name,
    name ∈ otherKeys finalHeaders written <->
    name ∈ dom finalHeaders /\ name ∉ written.
Proof.
  unfold otherKeys. split; [apply sort_Strings_sorted|]. split.
  - rewrite sort_Strings_perm. apply NoDup_filter, NoDup_fst_map_to_list.
  - intros name. rewrite sort_Strings_perm, list_elem_of_filter.
    rewrite elem_of_dom. split.
    + intros [Hw Hin]. split; [|done].
      apply list_elem_of_fmap in Hin as [[k v] [-> Hkv]].
      apply elem_of_map_to_list in Hkv. eauto.
    + intros [[v Hv] Hw]. split; [done|].
      apply list_elem_of_fmap. exists (name, v). split; [done|].
      by apply elem_of_map_to_list.
Qed.

Lemma PrimaryKey_not_bookkeeping (t : AssertionType) (name : bytes) :
  name ∈ PrimaryKey t -> name ∉ bookkeeping.
Proof.
  intros Hin Hbk. unfold bookkeeping in Hbk.
  destruct t; simpl in Hin;
    repeat (apply elem_of_cons in Hin as [->|Hin]);
    try (by apply elem_of_nil in Hin);
    repeat (apply elem_of_cons in Hbk as [Hbk|Hbk]; [discriminate Hbk|]);
    by apply elem_of_nil in Hbk.
Qed.

(** What [assembleAndSign] builds, step by step, when it succeeds. *)
Lemma assembleAndSign_Ok (assertType : option AssertionType)
    (headers : gmap bytes bytes) (body : bytes) (privKey : PrivateKey)
    (a : Assertion) :
  assembleAndSign PrivateKey signContent typeCheck assertType headers body privKey
    = Ok a ->
  exists t revision sig,
    let fh := <[B "body-length" := Itoa (Z.of_nat (length body))]>
                (<[B "type" := Name t]> headers) in
    let fh1 := if (0 <? revision)%Z then fh else delete (B "revision") fh in
    let fh2 := if 0 <? length body then fh1 else delete (B "body-length") fh1 in
    let written : gset bytes :=
      list_to_set (PrimaryKey t) ∪ list_to_set bookkeeping in
    let content :=
      B "type: " ++ Name t ++ entry fh (B "authority-id")
      ++ (if (0 <? revision)%Z then entry fh (B "revision") else [])
      ++ concat (map (entry fh1) (PrimaryKey t))
      ++ concat (map (entry fh1) (otherKeys fh1 written))
      ++ (if 0 <? length body
          then entry fh1 (B "body-length") ++ nlnl ++ body else []) in
    assertType = Some t /\
    (exists auth, checkNotEmpty fh (B "authority-id") = Ok auth) /\
    checkRevision fh = Ok revision /\
    checkPrimaryKeys fh1 (PrimaryKey t) = Ok tt /\
    signContent content privKey = Ok sig /\
    typeCheck t a = None /\
    a = assertionBase.mk fh2 (if 0 <? length body then body else [])
          revision content (sig ++ nl).
Proof.
  unfold assembleAndSign.
  intros (t & Ht & H)%bind_Ok.
  assert (assertType = Some t) as ->.
  { unfold checkAssertType in Ht. destruct assertType as [t'|]; [|discriminate].
    destruct (Type' (Name t')); [|discriminate].
    destruct (decide _); [|discriminate]. by injection Ht as ->. }
  apply bind_Ok in H as (auth & Hauth & H).
  apply bind_Ok in H as (revision & Hrev & H).
  exists t, revision.
  set (fh := <[B "body-length" := Itoa (Z.of_nat (length body))]>
               (<[B "type" := Name t]> headers)) in *.
  destruct (0 <? revision)%Z eqn:Hpos.
  - apply bind_Ok in H as ([buf written] & Hpk & H).
    apply writePrimaryKeys_Ok in Hpk as (-> & -> & Hchk).
    rewrite foldl_writeHeader, !writeHeader_entry in H.
    destruct (0 <? length body) eqn:Hbody.
    + apply bind_Ok in H as (sig & Hsig%wrapErr_Ok & H).
      apply wrapErr_Ok, assembler_Ok in H as [-> Hcheck].
      exists sig. cbn zeta.
      rewrite <- !app_assoc in *.
      replace ({[B "type"; B "authority-id"; B "revision"; B "body-length"]} : gset bytes)
        with (list_to_set bookkeeping : gset bytes) in * by set_solver.
      split; [done|]. split; [by exists auth|done].
    + apply bind_Ok in H as (sig & Hsig%wrapErr_Ok & H).
      apply wrapErr_Ok, assembler_Ok in H as [-> Hcheck].
      exists sig. cbn zeta.
      rewrite <- !app_assoc in *.
      replace ({[B "type"; B "authority-id"; B "revision"; B "body-length"]} : gset bytes)
        with (list_to_set bookkeeping : gset bytes) in * by set_solver.
      rewrite !app_nil_r in *. split; [done|]. split; [by exists auth|done].
  - apply bind_Ok in H as ([buf written] & Hpk & H).
    apply writePrimaryKeys_Ok in Hpk as (-> & -> & Hchk).
    rewrite foldl_writeHeader, !writeHeader_entry in H.
    destruct (0 <? length body) eqn:Hbody.
    + apply bind_Ok in H as (sig & Hsig%wrapErr_Ok & H).
      apply wrapErr_Ok, assembler_Ok in H as [-> Hcheck].
      exists sig. cbn zeta.
      rewrite <- !app_assoc in *.
      replace ({[B "type"; B "authority-id"; B "revision"; B "body-length"]} : gset bytes)
        with (list_to_set bookkeeping : gset bytes) in * by set_solver.
      split; [done|]. split; [by exists auth|done].
    + apply bind_Ok in H as (sig & Hsig%wrapErr_Ok & H).
      apply wrapErr_Ok, assembler_Ok in H as [-> Hcheck].
      exists sig. cbn zeta.
      rewrite <- !app_assoc in *.
      replace ({[B "type"; B "authority-id"; B "revision"; B "body-length"]} : gset bytes)
        with (list_to_set bookkeeping : gset bytes) in * by set_solver.
      rewrite !app_nil_r in *. split; [done|]. split; [by exists auth|done].
Qed.

Lemma entry_delete (h : gmap bytes bytes) (k name : bytes) :
  name <> k -> entry (delete k h) name = entry h name.
Proof. intros Hne. apply entry_lookup. by rewrite lookup_delete_ne. Qed.

Lemma map_entry_delete (h : gmap bytes bytes) (k : bytes) (names : list bytes) :
  k ∉ names -> map (entry (delete k h)) names = map (entry h) names.
Proof.
  intros Hk. apply map_ext_in. intros name Hin.
  apply entry_delete. intros ->. apply Hk. by apply list_elem_of_In.
Qed.

Lemma revision_bookkeeping : B "revision" ∈ bookkeeping.
Proof. unfold bookkeeping. set_solver. Qed.

(** C3. The content signed by [assembleAndSign] is, in this order: the
    [type] entry without leading newline, the [authority-id] entry, the
    [revision] entry exactly when the revision is above 0, the entries of
    the primary key in its declared order, the entries of all other
    headers but the four bookkeeping ones in strictly ascending bytewise
    order of name, and the [body-length] entry followed by the body
    exactly when the body is not empty. *)
Theorem assembleAndSign_header_order (assertType : option AssertionType)
    (headers : gmap bytes bytes) (body : bytes) (privKey : PrivateKey)
    (a : Assertion) :
  assembleAndSign PrivateKey signContent typeCheck assertType headers body privKey
    = Ok a ->
  exists t others,
    let fh := <[B "body-length" := Itoa (Z.of_nat (length body))]>
                (<[B "type" := Name t]> headers) in
    assertType = Some t /\
    assertionBase.content a =
      B "type: " ++ Name t
      ++ entry fh (B "authority-id")
      ++ (if (0 <? Revision a)%Z then entry fh (B "revision") else [])
      ++ concat (map (entry fh) (PrimaryKey t))
      ++ concat (map (entry fh) others)
      ++ (if 0 <? length body
          then entry fh (B "body-length") ++ nlnl ++ body else []) /\
    StronglySorted bytes_le others /\
    NoDup others /\
    (forall name,
       name ∈ others <->
       name ∈ dom fh /\ (name ∉ bookkeeping) /\ (name ∉ PrimaryKey t)).
Proof.
  intros (t & rev & sig & Ht & _ & _ & _ & _ & _ & Ha)%assembleAndSign_Ok.
  cbn zeta in Ha.
  set (fh := <[B "body-length" := Itoa (Z.of_nat (length body))]>
               (<[B "type" := Name t]> headers)) in *.
  set (fh1 := if (0 <? rev)%Z then fh else delete (B "revision") fh) in *.
  set (written := (list_to_set (PrimaryKey t) ∪ list_to_set bookkeeping
                   : gset bytes)) in *.
  exists t, (otherKeys fh1 written). cbn zeta. fold fh.
  split; [done|].
  destruct (otherKeys_spec fh1 written) as (Hsorted & Hnodup & Hmem).
  assert (Hwritten : forall name, name ∉ written <->
            (name ∉ bookkeeping) /\ (name ∉ PrimaryKey t)).
  { intros name. unfold written.
    rewrite not_elem_of_union, !elem_of_list_to_set. tauto. }
  assert (Hnames : forall names, B "revision" ∉ names ->
            map (entry fh1) names = map (entry fh) names).
  { intros names Hn. unfold fh1. destruct (0 <? rev)%Z; [done|].
    by apply map_entry_delete. }
  assert (Hbl : entry fh1 (B "body-length") = entry fh (B "body-length")).
  { unfold fh1. destruct (0 <? rev)%Z; [done|]. by apply entry_delete. }
  split; [|split; [done|split; [done|]]].
  - rewrite Ha. unfold Revision. cbn [assertionBase.content assertionBase.revision].
    rewrite !Hnames, Hbl; [done| |].
    + intros Hin. apply Hmem in Hin as [_ Hin]. apply Hwritten in Hin as [Hin _].
      apply Hin, revision_bookkeeping.
    + intros Hin. apply PrimaryKey_not_bookkeeping in Hin.
      apply Hin, revision_bookkeeping.
  - intros name. rewrite Hmem, Hwritten.
    split; intros (Hdom & Hbk & Hpk); (split; [|done]).
    + unfold fh1 in Hdom. destruct (0 <? rev)%Z; [done|].
      rewrite dom_delete_L in Hdom. by apply elem_of_difference in Hdom as [? _].
    + unfold fh1. destruct (0 <? rev)%Z; [done|].
      rewrite dom_delete_L. apply elem_of_difference. split; [done|].
      intros ->%elem_of_singleton. apply Hbk, revision_bookkeeping.
Qed.

(** *** Lines: [Split] and [Join] *)

Lemma Split_nonempty (s : bytes) (c : ascii) : Split s c <> [].
Proof.
  destruct s as [|x s]; cbn [Split]; [done|].
  destruct (Ascii.eqb x c); [done|]. by destruct (Split s c).
Qed.

Lemma Split_cons_other (x : ascii) (s : bytes) (c : ascii) :
  Ascii.eqb x c = false ->
  exists l ls, Split s c = l :: ls /\ Split (x :: s) c = (x :: l) :: ls.
Proof.
  intros Hx. cbn [Split]. rewrite Hx.
  destruct (Split s c) as [|l ls] eqn:Hs; [by apply Split_nonempty in Hs|].
  eauto.
Qed.

Lemma Split_app (a b : bytes) (c : ascii) :
  Split (a ++ c :: b) c = Split a c ++ Split b c.
Proof.
  induction a as [|x a IH].
  - simpl. by rewrite Ascii.eqb_refl.
  - destruct (Ascii.eqb x c) eqn:Hx.
    + cbn [app Split]. by rewrite Hx, IH.
    + rewrite <- app_comm_cons.
      destruct (Split_cons_other x a c Hx) as (l & ls & Hs & Hxa).
      destruct (Split_cons_other x (a ++ c :: b) c Hx) as (l' & ls' & Hs' & Hxab).
      rewrite Hxa, Hxab. rewrite IH, Hs in Hs'. by injection Hs' as <- <-.
Qed.

Lemma Split_no_sep (s : bytes) (c : ascii) :
  ContainsByte s c = false -> Split s c = [s].
Proof.
  induction s as [|x s IH]; [done|]. intros H.
  unfold ContainsByte in H. cbn [existsb] in H.
  apply orb_false_iff in H as [Hx Hs]. rewrite Ascii.eqb_sym in Hx.
  destruct (Split_cons_other x s c Hx) as (l & ls & Heq & ->).
  rewrite IH in Heq by done. by injection Heq as <- <-.
Qed.

Lemma Split_lines (s : bytes) (c : ascii) :
  Forall (fun l => ContainsByte l c = false) (Split s c).
Proof.
  induction s as [|x s IH]; [by repeat constructor|].
  destruct (Ascii.eqb x c) eqn:Hx.
  - cbn [Split]. rewrite Hx. by constructor.
  - destruct (Split_cons_other x s c Hx) as (l & ls & Hs & ->).
    rewrite Hs in IH. apply Forall_cons in IH as [Hl Hls].
    constructor; [|done]. unfold ContainsByte in *. cbn [existsb].
    by rewrite Ascii.eqb_sym, Hx.
Qed.

Lemma Join_cons_sep (x : bytes) (rest : list bytes) (sep : bytes) :
  Join (x :: rest) sep = x ++ concat (map (fun y => sep ++ y) rest).
Proof.
  revert x. induction rest as [|y rest IH]; intros x.
  - simpl. by rewrite app_nil_r.
  - change (Join (x :: y :: rest) sep) with (x ++ sep ++ Join (y :: rest) sep).
    rewrite (IH y). simpl. by rewrite <- ?app_assoc.
Qed.

Lemma Join_app (l1 l2 : list bytes) (sep : bytes) :
  l1 <> [] -> l2 <> [] ->
  Join (l1 ++ l2) sep = Join l1 sep ++ sep ++ Join l2 sep.
Proof.
  intros H1 H2. destruct l1 as [|x l1]; [done|]. destruct l2 as [|y l2]; [done|].
  rewrite <- app_comm_cons, !Join_cons_sep, map_app, concat_app. simpl.
  by rewrite <- !app_assoc.
Qed.

Lemma Join_Split (s : bytes) (c : ascii) : Join (Split s c) [c] = s.
Proof.
  induction s as [|x s IH]; [done|].
  destruct (Ascii.eqb x c) eqn:Hx.
  - cbn [Split]. rewrite Hx. apply Ascii.eqb_eq in Hx as ->.
    destruct (Split s c) as [|l ls] eqn:Hs; [by apply Split_nonempty in Hs|].
    change (Join ([] :: l :: ls) [c]) with ([] ++ [c] ++ Join (l :: ls) [c]).
    by rewrite IH.
  - destruct (Split_cons_other x s c Hx) as (l & ls & Hs & ->).
    rewrite Hs in IH. rewrite Join_cons_sep in *. by rewrite <- IH.
Qed.

Lemma Split_Join (ls : list bytes) (c : ascii) :
  ls <> [] ->
  Forall (fun l => ContainsByte l c = false) ls ->
  Split (Join ls [c]) c = ls.
Proof.
  intros Hne Hall. induction ls as [|l ls IH]; [done|].
  apply Forall_cons in Hall as [Hl Hls].
  destruct ls as [|l' ls].
  - simpl. by apply Split_no_sep.
  - change (Join (l :: l' :: ls) [c]) with (l ++ c :: Join (l' :: ls) [c]).
    rewrite Split_app, IH by done. by rewrite Split_no_sep.
Qed.

Lemma Replace_Split (s : bytes) (c : ascii) (new : bytes) :
  Replace s c new = Join (Split s c) new.
Proof.
  induction s as [|x s IH]; [done|].
  unfold Replace in *. cbn [flat_map].
  destruct (Ascii.eqb x c) eqn:Hx.
  - cbn [Split]. rewrite Hx, IH.
    destruct (Split s c) as [|l ls] eqn:Hs; [by apply Split_nonempty in Hs|].
    done.
  - destruct (Split_cons_other x s c Hx) as (l & ls & Hs & ->).
    rewrite IH, Hs, !Join_cons_sep. done.
Qed.

Lemma Join_indent (ls : list bytes) :
  ls <> [] ->
  B " " ++ Join ls (nl ++ B " ") = Join (map (cons " "%char) ls) nl.
Proof.
  intros Hne. destruct ls as [|l ls]; [done|].
  cbn [map]. rewrite !Join_cons_sep. cbn [B String.list_ascii_of_string app].
  f_equal. f_equal. clear Hne. induction ls as [|l' ls IH]; [done|].
  cbn [map concat]. rewrite IH. by rewrite <- !app_assoc.
Qed.

(** *** Header names *)

Lemma name_char_ascii (c : ascii) :
  name_char c = true ->
  (N_of_ascii c <? 128)%N = true /\ c <> ":"%char /\ c <> " "%char
  /\ c <> "010"%char.
Proof.
  destruct c as [[] [] [] [] [] [] [] []]; vm_compute; intros H;
    try discriminate H; repeat split; discriminate.
Qed.

Lemma headerNameSanity_chars (name : bytes) :
  headerNameSanity name = true ->
  Forall (fun c => name_char c = true) name /\
  exists c rest, name = c :: rest /\ is_lower c = true.
Proof.
  destruct name as [|c rest]; [done|]. cbn [headerNameSanity].
  intros [[Hc Hrest]%andb_true_iff _]%andb_true_iff. split; [|eauto].
  constructor.
  - unfold name_char. by rewrite Hc.
  - apply Forall_forall. intros x Hx.
    rewrite forallb_forall in Hrest. apply Hrest. by apply list_elem_of_In.
Qed.

Lemma ContainsByte_false (s : bytes) (c : ascii) :
  ContainsByte s c = false <-> Forall (fun x => x <> c) s.
Proof.
  unfold ContainsByte. induction s as [|x s IH]; simpl.
  - split; [constructor|done].
  - rewrite orb_false_iff, IH, Forall_cons, Ascii.eqb_neq.
    split; intros [H1 H2]; (split; [congruence|done]).
Qed.

Lemma ContainsByte_app (a b : bytes) (c : ascii) :
  ContainsByte (a ++ b) c = ContainsByte a c || ContainsByte b c.
Proof. unfold ContainsByte. apply existsb_app. Qed.

Lemma sane_no_byte (name : bytes) (c : ascii) :
  headerNameSanity name = true ->
  c = ":"%char \/ c = " "%char \/ c = "010"%char ->
  ContainsByte name c = false.
Proof.
  intros [Hall _]%headerNameSanity_chars Hc. apply ContainsByte_false.
  eapply Forall_impl; [exact Hall|].
  intros x (_ & H1 & H2 & H3)%name_char_ascii.
  destruct Hc as [->|[->| ->]]; done.
Qed.

Lemma HasPrefix_single (s : bytes) (c : ascii) :
  HasPrefix s [c] = match s with x :: _ => Ascii.eqb c x | [] => false end.
Proof. destruct s; [done|]. unfold HasPrefix. by rewrite andb_true_r. Qed.

Lemma Index_single (a b : bytes) (c : ascii) :
  ContainsByte a c = false -> Index (a ++ c :: b) [c] = Some (length a).
Proof.
  intros Ha%ContainsByte_false. apply Index_Some. split.
  - rewrite drop_app_length, HasPrefix_single. apply Ascii.eqb_refl.
  - intros j Hj. rewrite HasPrefix_single.
    destruct (drop j (a ++ c :: b)) as [|x r] eqn:Hd; [done|].
    apply Ascii.eqb_neq. intros <-.
    assert (a !! j = Some c) as Hl.
    { rewrite <- (lookup_app_l a (c :: b)) by done.
      rewrite <- (Nat.add_0_r j), <- lookup_drop, Hd. done. }
    rewrite Forall_forall in Ha. eapply Ha; [|done].
    by eapply list_elem_of_lookup_2.
Qed.

Lemma sane_not_continuation (name rest : bytes) :
  headerNameSanity name = true -> isContinuation (name ++ rest) = false.
Proof.
  intros [Hall (c & r & -> & Hc)]%headerNameSanity_chars.
  apply Forall_cons in Hall as [Hch _].
  apply name_char_ascii in Hch as (_ & _ & Hsp & _).
  simpl. by apply Ascii.eqb_neq.
Qed.

(** *** Parsing what [writeHeader] wrote *)

Lemma parseEntries_multiline (hs : gmap bytes bytes) (entry first : bytes)
    (rest : list bytes) (k : nat) :
  Index entry (B ":") = Some k ->
  headerNameSanity (take k entry) = true ->
  k + 1 = length entry ->
  isContinuation first = true ->
  parseEntries hs (entry :: first :: rest)
  = continuation (take k entry) hs (drop 1 first) rest.
Proof.
  intros Hidx Hsane Hlen Hfirst. cbn [parseEntries].
  rewrite Hidx, Hsane, Hlen, Nat.eqb_refl, Hfirst. reflexivity.
Qed.

Lemma parseEntries_singleline (hs : gmap bytes bytes) (entry : bytes)
    (rest : list bytes) (k : nat) :
  Index entry (B ":") = Some k ->
  headerNameSanity (take k entry) = true ->
  k + 1 < length entry ->
  entry !! (k + 1) = Some " "%char ->
  parseEntries hs (entry :: rest)
  = parseEntries (<[take k entry := drop (k + 1 + 1) entry]> hs) rest.
Proof.
  intros Hidx Hsane Hlen Hsp. cbn [parseEntries].
  rewrite Hidx, Hsane, Hsp.
  assert ((k + 1 =? length entry) = false) as -> by (apply Nat.eqb_neq; lia).
  rewrite bool_decide_eq_true_2 by done. reflexivity.
Qed.

Lemma continuation_lines (name : bytes) (hs : gmap bytes bytes)
    (ls : list bytes) (rest : list bytes) (acc : bytes) :
  starts_entry rest ->
  continuation name hs acc (map (cons " "%char) ls ++ rest)
  = parseEntries (<[name := acc ++ concat (map (fun y => nl ++ y) ls)]> hs) rest.
Proof.
  intros Hrest. revert acc. induction ls as [|l ls IH]; intros acc.
  - simpl. rewrite app_nil_r. destruct rest as [|line rest]; [done|].
    simpl in Hrest. cbn [continuation]. by rewrite Hrest.
  - cbn [map app continuation isContinuation]. rewrite Ascii.eqb_refl.
    rewrite IH. cbn [drop concat map]. by rewrite <- !app_assoc.
Qed.

(** Parsing the lines of one serialized header adds this header, with
    its value, to the headers parsed so far. *)
Lemma parseEntries_entry_lines (hs : gmap bytes bytes) (name v : bytes)
    (rest : list bytes) :
  headerNameSanity name = true ->
  starts_entry rest ->
  parseEntries hs (entry_lines name v ++ rest)
  = parseEntries (<[name := v]> hs) rest.
Proof.
  intros Hsane Hrest. unfold entry_lines.
  pose proof (sane_no_byte name ":"%char Hsane (or_introl eq_refl)) as Hcolon.
  destruct (ContainsByte v "010"%char) eqn:Hnl.
  - destruct (Split v "010"%char) as [|l ls] eqn:Hs;
      [by apply Split_nonempty in Hs|].
    cbn [map app].
    rewrite (parseEntries_multiline _ _ _ _ (length name)).
    + rewrite take_app_length. cbn [drop].
      rewrite continuation_lines by done.
      rewrite <- Join_cons_sep. change nl with ["010"%char].
      change (drop 0 l) with l. by rewrite <- Hs, Join_Split.
    + apply (Index_single name [] ":"%char Hcolon).
    + by rewrite take_app_length.
    + rewrite length_app. simpl. lia.
    + done.
  - cbn [app].
    rewrite (parseEntries_singleline _ _ _ (length name)).
    + rewrite take_app_length. do 2 f_equal.
      rewrite <- Nat.add_assoc. rewrite drop_app_add'; done.
    + apply (Index_single name (" "%char :: v) ":"%char Hcolon).
    + by rewrite take_app_length.
    + rewrite length_app. simpl. lia.
    + rewrite lookup_app_r by lia.
      by replace (length name + 1 - length name) with 1 by lia.
Qed.

(** *** UTF-8 validity of what [writeHeader] wrote *)

Lemma utf8_Valid_app_le (n : nat) (a b : bytes) :
  length a <= n ->
  utf8_Valid a = true -> utf8_Valid b = true -> utf8_Valid (a ++ b) = true.
Proof.
  revert a. induction n as [|n IH]; intros a Hlen Ha Hb;
    (destruct a as [|c0 r]; [done|]); simpl in Hlen; [lia|].
  cbn [utf8_Valid app] in *.
  destruct (N_of_ascii c0 <? 128)%N; [apply IH; [lia|done..]|].
  destruct (byte_in 194 223 c0).
  { destruct r as [|c1 r]; [done|]. cbn [app].
    apply andb_true_iff in Ha as [-> Ha]. simpl in Hlen.
    apply IH; [lia|done..]. }
  destruct (byte_in 224 239 c0).
  { destruct r as [|c1 [|c2 r]]; [done..|]. cbn [app].
    apply andb_true_iff in Ha as [-> Ha]. simpl in Hlen.
    apply IH; [lia|done..]. }
  destruct (byte_in 240 244 c0); [|done].
  destruct r as [|c1 [|c2 [|c3 r]]]; [done..|]. cbn [app].
  apply andb_true_iff in Ha as [-> Ha]. simpl in Hlen.
  apply IH; [lia|done..].
Qed.

Lemma utf8_Valid_app (a b : bytes) :
  utf8_Valid a = true -> utf8_Valid b = true -> utf8_Valid (a ++ b) = true.
Proof. by apply (utf8_Valid_app_le (length a)). Qed.

Lemma utf8_Valid_ascii (s : bytes) :
  Forall (fun c => (N_of_ascii c <? 128)%N = true) s -> utf8_Valid s = true.
Proof.
  induction 1 as [|c s Hc _ IH]; [done|]. cbn [utf8_Valid]. by rewrite Hc.
Qed.

Lemma byte_in_high_not_nl (lo hi : N) (c : ascii) :
  (128 <= lo)%N -> byte_in lo hi c = true -> Ascii.eqb c "010"%char = false.
Proof.
  intros Hlo [Hc _]%andb_true_iff. apply N.leb_le in Hc.
  apply Ascii.eqb_neq. intros ->. simpl in Hc. lia.
Qed.

Lemma utf8_second_not_nl (c0 c1 : ascii) :
  utf8_second c0 c1 = true -> Ascii.eqb c1 "010"%char = false.
Proof.
  unfold utf8_second.
  repeat (match goal with |- context [match ?x with _ => _ end] =>
            destruct x end);
    apply byte_in_high_not_nl; lia.
Qed.

Lemma high_not_nl (c : ascii) :
  (N_of_ascii c <? 128)%N = false -> Ascii.eqb c "010"%char = false.
Proof.
  intros Hc. apply N.ltb_ge in Hc. apply Ascii.eqb_neq. intros ->.
  simpl in Hc. lia.
Qed.

Lemma utf8_Valid_Replace_le (n : nat) (v new : bytes) :
  length v <= n ->
  utf8_Valid new = true ->
  utf8_Valid v = true -> utf8_Valid (Replace v "010"%char new) = true.
Proof.
  intros Hlen Hnew. revert v Hlen.
  induction n as [|n IH]; intros v Hlen Hv;
    (destruct v as [|c0 r]; [done|]); simpl in Hlen; [lia|].
  unfold Replace in *. cbn [utf8_Valid flat_map] in *.
  destruct (N_of_ascii c0 <? 128)%N eqn:H0.
  { apply utf8_Valid_app; [|apply IH; [lia|done]].
    destruct (Ascii.eqb c0 "010"%char); [done|].
    cbn [utf8_Valid]. by rewrite H0. }
  rewrite (high_not_nl _ H0). cbn [app utf8_Valid]. rewrite H0.
  destruct (byte_in 194 223 c0).
  { destruct r as [|c1 r]; [done|]. cbn [flat_map].
    apply andb_true_iff in Hv as [H1 Hv].
    rewrite (byte_in_high_not_nl 128 191 _ ltac:(lia) H1). cbn [app].
    rewrite H1. simpl in Hlen. apply IH; [lia|done]. }
  destruct (byte_in 224 239 c0).
  { destruct r as [|c1 [|c2 r]]; [done..|]. cbn [flat_map].
    apply andb_true_iff in Hv as [[H1 H2]%andb_true_iff Hv].
    rewrite (utf8_second_not_nl _ _ H1).
    rewrite (byte_in_high_not_nl 128 191 _ ltac:(lia) H2). cbn [app].
    rewrite H1, H2. simpl in Hlen. apply IH; [lia|done]. }
  destruct (byte_in 240 244 c0); [|done].
  destruct r as [|c1 [|c2 [|c3 r]]]; [done..|]. cbn [flat_map].
  apply andb_true_iff in Hv as [[[H1 H2]%andb_true_iff H3]%andb_true_iff Hv].
  rewrite (utf8_second_not_nl _ _ H1).
  rewrite (byte_in_high_not_nl 128 191 _ ltac:(lia) H2).
  rewrite (byte_in_high_not_nl 128 191 _ ltac:(lia) H3). cbn [app].
  rewrite H1, H2, H3. simpl in Hlen. apply IH; [lia|done].
Qed.

Lemma utf8_Valid_sane (name : bytes) :
  headerNameSanity name = true -> utf8_Valid name = true.
Proof.
  intros [Hall _]%headerNameSanity_chars. apply utf8_Valid_ascii.
  eapply Forall_impl; [exact Hall|]. by intros c [? _]%name_char_ascii.
Qed.

(** The text of one serialized header, without its leading newline. *)
Lemma entry_text (headers : gmap bytes bytes) (name : bytes) :
  entry headers name = nl ++ Join (entry_lines name (headers !!! name)) nl.
Proof.
  unfold entry, writeHeader, entry_lines.
  destruct (ContainsByte (headers !!! name) "010"%char).
  - rewrite Replace_Split.
    change (Join ((name ++ B ":") :: ?l) nl) with
      (Join ([name ++ B ":"] ++ l) nl).
    rewrite Join_app; [|done|].
    + rewrite <- Join_indent by apply Split_nonempty.
      simpl. by rewrite <- !app_assoc.
    + intros H%map_eq_nil. by apply Split_nonempty in H.
  - reflexivity.
Qed.

Lemma utf8_Valid_entry (headers : gmap bytes bytes) (name : bytes) :
  headerNameSanity name = true ->
  utf8_Valid (headers !!! name) = true ->
  utf8_Valid (entry headers name) = true.
Proof.
  intros Hname Hv. unfold entry, writeHeader.
  pose proof (utf8_Valid_sane _ Hname) as Hn.
  destruct (ContainsByte _ _); cbn [app];
    repeat (apply utf8_Valid_app; try done).
  by apply (utf8_Valid_Replace_le (length (headers !!! name))).
Qed.

Lemma entry_lines_nonempty (name v : bytes) : entry_lines name v <> [].
Proof. unfold entry_lines. by destruct (ContainsByte v "010"%char). Qed.

Lemma entry_lines_no_nl (name v : bytes) :
  headerNameSanity name = true ->
  Forall (fun l => ContainsByte l "010"%char = false) (entry_lines name v).
Proof.
  intros Hsane. unfold entry_lines.
  pose proof (sane_no_byte name "010"%char Hsane
                (or_intror (or_intror eq_refl))) as Hname.
  destruct (ContainsByte v "010"%char) eqn:Hv.
  - constructor.
    + by rewrite ContainsByte_app, Hname.
    + apply Forall_map. eapply Forall_impl; [apply Split_lines|].
      intros l Hl. unfold ContainsByte in *. by cbn [existsb].
  - constructor; [|done]. by rewrite !ContainsByte_app, Hname, Hv.
Qed.

Lemma parseHeaders_lines (lines : list bytes) :
  lines <> [] ->
  Forall (fun l => ContainsByte l "010"%char = false) lines ->
  utf8_Valid (Join lines nl) = true ->
  parseHeaders (Join lines nl) = parseEntries ∅ lines.
Proof.
  intros Hne Hall Hutf. unfold parseHeaders. rewrite Hutf. cbn [negb].
  change nl with ["010"%char]. by rewrite Split_Join.
Qed.

(** C8 (as amended). For a header name matching the name pattern and a
    value of valid UTF-8 with at least one newline, [writeHeader] writes a
    newline, the name, a colon and a newline, then the value with one
    space before each of its lines; parsing that entry (past the newline
    that separates it from the previous entry) gives the value back. *)
Theorem multiline_header_round_trip (headers : gmap bytes bytes)
    (name v : bytes) :
  headerNameSanity name = true ->
  utf8_Valid v = true ->
  ContainsByte v "010"%char = true ->
  headers !! name = Some v ->
  writeHeader [] headers name
    = nl ++ name ++ (B ":" ++ nl ++ B " ")
      ++ Replace v "010"%char (nl ++ B " ") /\
  parseHeaders (drop 1 (writeHeader [] headers name)) = Ok {[name := v]}.
Proof.
  intros Hsane Hutf Hnl Hv.
  assert (Htot : headers !!! name = v) by (by rewrite lookup_total_alt, Hv).
  split.
  - unfold writeHeader. rewrite Htot, Hnl. cbn [app]. by rewrite <- !app_assoc.
  - pose proof (utf8_Valid_entry headers name Hsane) as Hvalid.
    rewrite Htot in Hvalid. specialize (Hvalid Hutf).
    fold (entry headers name). rewrite entry_text, Htot in *.
    change (drop 1 (nl ++ ?x)) with x.
    change (utf8_Valid (Join (entry_lines name v) nl) = true) in Hvalid.
    rewrite parseHeaders_lines.
    + rewrite <- (app_nil_r (entry_lines name v)).
      rewrite parseEntries_entry_lines by done.
      cbn [parseEntries]. by rewrite insert_empty.
    + apply entry_lines_nonempty.
    + by apply entry_lines_no_nl.
    + exact Hvalid.
Qed.

(** *** Decimal integers *)

Lemma uint_of_bytes_of_uint (u : Decimal.uint) :
  uint_of_bytes (bytes_of_uint u) = Some u.
Proof. induction u; cbn [bytes_of_uint uint_of_bytes]; by rewrite ?IHu. Qed.

Lemma bytes_of_uint_digits (u : Decimal.uint) :
  Forall (fun c => is_digit c = true) (bytes_of_uint u).
Proof. induction u; cbn [bytes_of_uint]; by constructor. Qed.

Lemma is_digit_ascii (c : ascii) :
  is_digit c = true ->
  (N_of_ascii c <? 128)%N = true /\ c <> "010"%char /\ c <> "-"%char
  /\ c <> "+"%char.
Proof.
  destruct c as [[] [] [] [] [] [] [] []]; vm_compute; intros H;
    try discriminate H; repeat split; discriminate.
Qed.

Lemma to_uint_not_Nil (n : N) : N.to_uint n <> Decimal.Nil.
Proof.
  intros Hnil. pose proof (DecimalN.Unsigned.of_to n) as Hn.
  rewrite Hnil in Hn. by subst n.
Qed.

Lemma Atoi_Itoa (n : Z) :
  (0 <= n <= maxInt)%Z -> Atoi (Itoa n) = Some n.
Proof.
  intros [Hlo Hhi]. unfold Itoa.
  assert ((n <? 0)%Z = false) as -> by (apply Z.ltb_ge; lia).
  pose proof (to_uint_not_Nil (Z.to_N n)) as Hnil.
  pose proof (uint_of_bytes_of_uint (N.to_uint (Z.to_N n))) as Hparse.
  pose proof (bytes_of_uint_digits (N.to_uint (Z.to_N n))) as Hdig.
  destruct (bytes_of_uint (N.to_uint (Z.to_N n))) as [|c r] eqn:Hs.
  { destruct (N.to_uint (Z.to_N n)); done. }
  apply Forall_cons in Hdig as [(_ & _ & Hminus & Hplus)%is_digit_ascii _].
  unfold Atoi.
  rewrite (proj2 (Ascii.eqb_neq _ _) Hminus), (proj2 (Ascii.eqb_neq _ _) Hplus).
  rewrite Hparse. cbn [mbind option_bind].
  rewrite DecimalN.Unsigned.of_to, Z2N.id by done.
  unfold minInt. unfold maxInt in Hhi.
  assert (((- 2 ^ 63 <=? n) && (n <=? maxInt))%Z = true) as ->; [|done].
  apply andb_true_iff. split; apply Z.leb_le; unfold maxInt; lia.
Qed.

Lemma Itoa_nonneg_digits (n : Z) :
  (0 <= n)%Z -> Forall (fun c => is_digit c = true) (Itoa n).
Proof.
  intros Hn. unfold Itoa.
  assert ((n <? 0)%Z = false) as -> by (apply Z.ltb_ge; lia).
  apply bytes_of_uint_digits.
Qed.

(** *** A header block written entry by entry *)

Section header_block.

Variable f : bytes -> bytes.

Lemma starts_entry_lines (names : list bytes) :
  Forall (fun n => headerNameSanity n = true) names ->
  starts_entry (lines_of f names).
Proof.
  intros Hall. destruct names as [|n names]; [done|].
  apply Forall_cons in Hall as [Hn _].
  unfold lines_of. cbn [map concat]. unfold entry_lines.
  destruct (ContainsByte (f n) "010"%char); cbn [app starts_entry];
    by apply sane_not_continuation.
Qed.

Lemma parseEntries_names (names : list bytes) (hs : gmap bytes bytes) :
  Forall (fun n => headerNameSanity n = true) names ->
  parseEntries hs (lines_of f names)
  = Ok (foldl (fun m n => <[n := f n]> m) hs names).
Proof.
  revert hs. induction names as [|n names IH]; intros hs Hall; [done|].
  apply Forall_cons in Hall as [Hn Hall].
  unfold lines_of. cbn [map concat foldl].
  rewrite parseEntries_entry_lines; [by apply IH|done|].
  by apply starts_entry_lines.
Qed.

Lemma foldl_insert_lookup (names : list bytes) (hs : gmap bytes bytes)
    (k : bytes) :
  foldl (fun m n => <[n := f n]> m) hs names !! k
  = if decide (k ∈ names) then Some (f k) else hs !! k.
Proof.
  revert hs. induction names as [|n names IH]; intros hs; [done|].
  cbn [foldl]. rewrite IH.
  destruct (decide (k ∈ names)) as [Hin|Hnin].
  - rewrite decide_True; [done|]. by apply elem_of_cons; right.
  - destruct (decide (k = n)) as [->|Hne].
    + rewrite lookup_insert_eq, decide_True; [done|]. by apply elem_of_cons; left.
    + rewrite lookup_insert_ne by done. rewrite decide_False; [done|].
      intros [?|?]%elem_of_cons; done.
Qed.

Lemma lines_of_no_nl (names : list bytes) :
  Forall (fun n => headerNameSanity n = true) names ->
  Forall (fun l => ContainsByte l "010"%char = false) (lines_of f names).
Proof.
  induction 1 as [|n names Hn _ IH]; [constructor|].
  unfold lines_of. cbn [map concat]. apply Forall_app. split; [|done].
  by apply entry_lines_no_nl.
Qed.

Lemma lines_of_no_blank (names : list bytes) :
  Forall (fun n => headerNameSanity n = true) names ->
  Forall (fun l => l <> []) (lines_of f names).
Proof.
  induction 1 as [|n names Hn _ IH]; [constructor|].
  unfold lines_of. cbn [map concat]. apply Forall_app. split; [|done].
  unfold entry_lines. destruct (ContainsByte (f n) "010"%char);
    apply headerNameSanity_chars in Hn as [_ (c & r & -> & _)].
  - constructor; [done|]. apply Forall_map, Forall_true. done.
  - by constructor.
Qed.

End header_block.

Lemma Join_entries (fh : gmap bytes bytes) (names : list bytes)
    (block : list bytes) :
  block <> [] ->
  Join (block ++ concat (map (fun n => entry_lines n (fh !!! n)) names)) nl
  = Join block nl ++ concat (map (entry fh) names).
Proof.
  revert block. induction names as [|n names IH]; intros block Hne.
  - simpl. by rewrite !app_nil_r.
  - cbn [map concat]. rewrite app_assoc, IH.
    + rewrite Join_app; [|done|apply entry_lines_nonempty].
      rewrite entry_text. by rewrite <- !app_assoc.
    + intros [-> _]%app_eq_nil. done.
Qed.

Lemma utf8_Valid_entries (fh : gmap bytes bytes) (names : list bytes) :
  Forall (fun n => headerNameSanity n = true) names ->
  Forall (fun n => utf8_Valid (fh !!! n) = true) names ->
  utf8_Valid (concat (map (entry fh) names)) = true.
Proof.
  induction 1 as [|n names Hn _ IH]; intros Hv; [done|].
  apply Forall_cons in Hv as [Hvn Hv]. cbn [map concat].
  apply utf8_Valid_app; [by apply utf8_Valid_entry|by apply IH].
Qed.

(** A block of lines none of which is empty has no blank line, and does
    not end in a newline. *)
Lemma no_blank_line (lines : list bytes) :
  lines <> [] ->
  Forall (fun l => ContainsByte l "010"%char = false) lines ->
  Forall (fun l => l <> []) lines ->
  Index (Join lines nl ++ nl) nlnl = None.
Proof.
  intros Hne Hnl Hblank.
  destruct (Index (Join lines nl ++ nl) nlnl) as [i|] eqn:Hidx; [|done].
  exfalso.
  pose proof (Index_bound _ _ _ Hidx) as Hb.
  apply Index_Some in Hidx as [Hat _].
  apply HasPrefix_split in Hat; [|simpl in Hb; lia].
  set (a := take i (Join lines nl ++ nl)) in *.
  set (b := drop (i + length nlnl) (Join lines nl ++ nl)) in *.
  assert (Hsplit : Split (Join lines nl ++ nl) "010"%char
                   = Split a "010"%char ++ [] :: Split b "010"%char).
  { rewrite Hat at 1. change (a ++ nlnl ++ b) with (a ++ "010"%char :: ("010"%char :: b)).
    rewrite Split_app. by f_equal. }
  change nl with ["010"%char] in Hsplit.
  rewrite (Split_app (Join lines ["010"%char]) [] "010"%char) in Hsplit.
  rewrite Split_Join in Hsplit by done. cbn [Split] in Hsplit.
  pose proof (Split_nonempty b "010"%char) as Hbne.
  pose proof (f_equal length Hsplit) as Hlen.
  rewrite !length_app in Hlen. cbn [length] in Hlen.
  assert (length (Split b "010"%char) > 0)
    by (destruct (Split b "010"%char); [done|simpl; lia]).
  assert (Hk : lines !! length (Split a "010"%char) = Some []).
  { rewrite <- (lookup_app_l lines [[]]) by lia.
    rewrite Hsplit, lookup_app_r by lia.
    by rewrite Nat.sub_diag. }
  apply list_elem_of_lookup_2 in Hk.
  rewrite Forall_forall in Hblank. by apply (Hblank [] Hk).
Qed.

Lemma Index_head_alone (head : bytes) :
  Index (head ++ nl) nlnl = None -> Index head nlnl = None.
Proof.
  intros Hnone. apply Index_None. intros j.
  destruct (HasPrefix (drop j head) nlnl) eqn:Hp; [|done].
  pose proof Hp as [r Hr]%HasPrefix_true.
  assert (j <= length head).
  { destruct (decide (j <= length head)); [done|].
    rewrite drop_ge in Hr by lia. discriminate. }
  pose proof (proj1 (Index_None _ _) Hnone j) as Hj.
  rewrite drop_app_le, Hr in Hj by done.
  rewrite <- app_assoc, HasPrefix_app in Hj. done.
Qed.

Lemma Index_head_body (head body : bytes) :
  Index (head ++ nl) nlnl = None ->
  Index (head ++ nlnl ++ body) nlnl = Some (length head).
Proof.
  intros Hnone. apply Index_Some. split.
  - by rewrite drop_app_length, HasPrefix_app.
  - intros j Hj.
    change (head ++ nlnl ++ body) with (head ++ nl ++ (nl ++ body)).
    rewrite app_assoc, drop_app_le by (rewrite length_app; simpl; lia).
    rewrite HasPrefix_app_l.
    + apply (proj1 (Index_None _ _) Hnone j).
    + rewrite length_drop, length_app. simpl. lia.
Qed.

(** *** What the checks depend on *)

Lemma checkNotEmpty_Ok (h : gmap bytes bytes) (name v : bytes) :
  checkNotEmpty h name = Ok v <-> h !! name = Some v /\ v <> [].
Proof.
  unfold checkNotEmpty.
  destruct (h !! name) as [w|]; [|split; [discriminate|by intros [? _]]].
  destruct w as [|c w]; simpl; split.
  - discriminate.
  - intros [[= <-] ?]. done.
  - intros [= <-]. done.
  - intros [[= <-] _]. done.
Qed.

Lemma checkNotEmpty_ext (h1 h2 : gmap bytes bytes) (name : bytes) :
  h1 !! name = h2 !! name -> checkNotEmpty h1 name = checkNotEmpty h2 name.
Proof. unfold checkNotEmpty. by intros ->. Qed.

Lemma checkInteger_ext (h1 h2 : gmap bytes bytes) (name : bytes) (dflt : Z) :
  h1 !! name = h2 !! name ->
  checkInteger h1 name dflt = checkInteger h2 name dflt.
Proof. unfold checkInteger. by intros ->. Qed.

Lemma checkPrimaryKeys_ext (h1 h2 : gmap bytes bytes) (keys : list bytes) :
  (forall k, k ∈ keys -> h1 !! k = h2 !! k) ->
  checkPrimaryKeys h1 keys = checkPrimaryKeys h2 keys.
Proof.
  induction keys as [|k keys IH]; intros Hext; [done|].
  cbn [checkPrimaryKeys]. unfold checkPrimaryKey.
  rewrite (checkNotEmpty_ext h1 h2 k) by (apply Hext; by left).
  rewrite IH; [done|]. intros k' Hk'. apply Hext. by right.
Qed.

Lemma checkPrimaryKeys_dom (h : gmap bytes bytes) (keys : list bytes) :
  checkPrimaryKeys h keys = Ok tt -> forall k, k ∈ keys -> is_Some (h !! k).
Proof.
  induction keys as [|k keys IH]; intros Hchk k' Hk'.
  - by apply elem_of_nil in Hk'.
  - cbn [checkPrimaryKeys] in Hchk.
    apply bind_Ok in Hchk as (v & Hv & Hrest).
    apply elem_of_cons in Hk' as [->|Hk']; [|by apply IH].
    unfold checkPrimaryKey in Hv.
    apply bind_Ok in Hv as (w & [Hw _]%checkNotEmpty_Ok & _). eauto.
Qed.

Lemma checkRevision_Ok (h : gmap bytes bytes) (rev : Z) :
  checkRevision h = Ok rev ->
  (0 <= rev)%Z /\ (h !! B "revision" = None -> rev = 0%Z).
Proof.
  unfold checkRevision. intros (r & Hr & Hpos)%bind_Ok.
  destruct (r <? 0)%Z eqn:Hneg; [discriminate|]. injection Hpos as ->.
  apply Z.ltb_ge in Hneg. split; [done|]. intros Hnone.
  unfold checkInteger in Hr. rewrite Hnone in Hr. by injection Hr.
Qed.

Lemma Name_facts (t : AssertionType) :
  ContainsByte (Name t) "010"%char = false /\
  utf8_Valid (Name t) = true /\
  Name t <> [] /\
  Type' (Name t) = Some t.
Proof. destruct t; repeat split; try compute_done; discriminate. Qed.

Lemma PrimaryKey_sane (t : AssertionType) :
  Forall (fun n => headerNameSanity n = true) (PrimaryKey t).
Proof. destruct t; repeat constructor. Qed.

Lemma bookkeeping_sane :
  Forall (fun n => headerNameSanity n = true) bookkeeping.
Proof. repeat constructor. Qed.

Lemma elem_of_bookkeeping (k : bytes) :
  k ∈ bookkeeping <->
  k = B "type" \/ k = B "authority-id" \/ k = B "revision"
  \/ k = B "body-length".
Proof.
  unfold bookkeeping. rewrite !elem_of_cons, elem_of_nil. tauto.
Qed.

(** *** The canonical content *)

Lemma map_entry_ext (h1 h2 : gmap bytes bytes) (names : list bytes) :
  (forall k, k ∈ names -> h1 !! k = h2 !! k) ->
  map (entry h1) names = map (entry h2) names.
Proof.
  intros Hext. apply map_ext_in. intros k Hk. apply entry_lookup, Hext.
  by apply list_elem_of_In.
Qed.

(** The content signed by [assembleAndSign] is a block of header lines,
    one entry per header of the final assertion, followed by the body if
    there is one; and the final headers pass the checks of [Assemble]. *)
Lemma canonical_content (assertType : option AssertionType)
    (headers : gmap bytes bytes) (body : bytes) (privKey : PrivateKey)
    (a : Assertion) :
  assembleAndSign PrivateKey signContent typeCheck assertType headers body privKey
    = Ok a ->
  (forall name v, headers !! name = Some v ->
     headerNameSanity name = true /\ utf8_Valid v = true) ->
  exists t names,
    assertionBase.content a
      = Join (concat (map (fun n =>
                entry_lines n (assertionBase.headers a !!! n)) names)) nl
        ++ (if 0 <? length body then nlnl ++ body else []) /\
    assertionBase.body a = (if 0 <? length body then body else []) /\
    names <> [] /\
    Forall (fun n => headerNameSanity n = true) names /\
    Forall (fun n => utf8_Valid (assertionBase.headers a !!! n) = true) names /\
    (forall k, k ∈ names <-> k ∈ dom (assertionBase.headers a)) /\
    assertionBase.headers a !! B "type" = Some (Name t) /\
    (exists auth,
       checkNotEmpty (assertionBase.headers a) (B "authority-id") = Ok auth) /\
    checkRevision (assertionBase.headers a) = Ok (assertionBase.revision a) /\
    checkPrimaryKeys (assertionBase.headers a) (PrimaryKey t) = Ok tt /\
    assertionBase.headers a !! B "body-length"
      = (if 0 <? length body
         then Some (Itoa (Z.of_nat (length body))) else None) /\
    typeCheck t a = None /\
    (exists sig, assertionBase.signature a = sig ++ nl).
Proof.
  intros (t & rev & sig & _ & [auth Hauth] & Hrev & Hpk & _ & Hcheck & Ha)
    %assembleAndSign_Ok Hdomain.
  cbn zeta in *.
  set (fh := <[B "body-length" := Itoa (Z.of_nat (length body))]>
               (<[B "type" := Name t]> headers)) in *.
  set (fh1 := if (0 <? rev)%Z then fh else delete (B "revision") fh) in *.
  set (fh2 := if 0 <? length body then fh1 else delete (B "body-length") fh1) in *.
  set (written := (list_to_set (PrimaryKey t) ∪ list_to_set bookkeeping
                   : gset bytes)) in *.
  set (others := otherKeys fh1 written) in *.
  destruct (Name_facts t) as (HNnl & HNutf & HNne & HNtype).
  destruct (otherKeys_spec fh1 written) as (_ & _ & Hothers). fold others in Hothers.
  destruct (checkRevision_Ok _ _ Hrev) as [Hrev0 Hrevnone].
  pose proof (checkPrimaryKeys_dom _ _ Hpk) as Hpkdom.
  assert (Hwritten : forall k, k ∉ written <->
            (k ∉ bookkeeping) /\ (k ∉ PrimaryKey t)).
  { intros k. unfold written.
    rewrite not_elem_of_union, !elem_of_list_to_set. tauto. }
  (* lookups in the three header maps *)
  assert (Hfh1 : forall k, k <> B "revision" -> fh1 !! k = fh !! k).
  { intros k Hk. unfold fh1. destruct (0 <? rev)%Z; [done|].
    by rewrite lookup_delete_ne. }
  assert (Hfh2 : forall k, k <> B "body-length" -> fh2 !! k = fh1 !! k).
  { intros k Hk. unfold fh2. destruct (0 <? length body); [done|].
    by rewrite lookup_delete_ne. }
  assert (Hfh1rev : fh1 !! B "revision"
                    = if (0 <? rev)%Z then fh !! B "revision" else None).
  { unfold fh1. destruct (0 <? rev)%Z; [done|]. by rewrite lookup_delete_eq. }
  assert (Hfh2bl : fh2 !! B "body-length"
                   = if 0 <? length body
                     then Some (Itoa (Z.of_nat (length body))) else None).
  { unfold fh2. destruct (0 <? length body); [|by rewrite lookup_delete_eq].
    rewrite Hfh1 by done. unfold fh. by rewrite lookup_insert_eq. }
  assert (Hfhtype : fh !! B "type" = Some (Name t)).
  { unfold fh. rewrite lookup_insert_ne by done. by rewrite lookup_insert_eq. }
  assert (Hfhother : forall k, k <> B "type" -> k <> B "body-length" ->
            fh !! k = headers !! k).
  { intros k H1 H2. unfold fh. by rewrite !lookup_insert_ne. }
  assert (Hpkbk : forall k, k ∈ PrimaryKey t -> k ∉ bookkeeping)
    by apply PrimaryKey_not_bookkeeping.
  assert (Hnotbk : forall k, k ∉ bookkeeping ->
            k <> B "type" /\ k <> B "authority-id" /\ k <> B "revision"
            /\ k <> B "body-length").
  { intros k Hk. rewrite elem_of_bookkeeping in Hk. tauto. }
  set (R := if (0 <? rev)%Z then [B "revision"] else []).
  set (BL := if 0 <? length body then [B "body-length"] else []).
  set (names := [B "type"; B "authority-id"] ++ R ++ PrimaryKey t ++ others ++ BL).
  assert (Hmem : forall k, k ∈ names <-> k ∈ dom fh2).
  { intros k. unfold names. rewrite !elem_of_app, !elem_of_cons, elem_of_nil.
    rewrite elem_of_dom. split.
    - intros [[->|[->|[]]]|[Hk|[Hk|[Hk|Hk]]]].
      + rewrite Hfh2, Hfh1, Hfhtype by done. eauto.
      + rewrite Hfh2, Hfh1 by done.
        apply checkNotEmpty_Ok in Hauth as [-> _]. eauto.
      + unfold R in Hk. destruct (0 <? rev)%Z eqn:Hpos; [|by apply elem_of_nil in Hk].
        apply list_elem_of_singleton in Hk as ->.
        rewrite Hfh2, Hfh1rev by done.
        destruct (fh !! B "revision") eqn:Hr; [eauto|].
        apply Z.ltb_lt in Hpos. specialize (Hrevnone eq_refl). lia.
      + destruct (Hnotbk k (Hpkbk k Hk)) as (_ & _ & _ & Hbl).
        rewrite Hfh2 by done. by apply Hpkdom.
      + apply Hothers in Hk as [Hk Hw]. apply Hwritten in Hw as [Hbk _].
        destruct (Hnotbk k Hbk) as (_ & _ & _ & Hbl).
        rewrite Hfh2 by done. by apply elem_of_dom.
      + unfold BL in Hk. destruct (0 <? length body) eqn:Hb; [|by apply elem_of_nil in Hk].
        apply list_elem_of_singleton in Hk as ->. rewrite Hfh2bl. eauto.
    - intros Hk.
      destruct (decide (k = B "type")) as [->|Htype]; [by left; left|].
      destruct (decide (k = B "authority-id")) as [->|Hau];
        [by left; right; left|].
      right.
      destruct (decide (k = B "revision")) as [->|Hr].
      { left. unfold R. rewrite Hfh2, Hfh1rev in Hk by done.
        destruct (0 <? rev)%Z; [by apply list_elem_of_singleton|].
        by destruct Hk. }
      destruct (decide (k = B "body-length")) as [->|Hbl].
      { right. right. right. unfold BL. rewrite Hfh2bl in Hk.
        destruct (0 <? length body); [by apply list_elem_of_singleton|].
        by destruct Hk. }
      destruct (decide (k ∈ PrimaryKey t)) as [Hp|Hp]; [by right; left|].
      right. right. left. apply Hothers. split.
      + apply elem_of_dom. by rewrite <- Hfh2.
      + apply Hwritten. split; [|done]. rewrite elem_of_bookkeeping. tauto. }
  assert (Hsane : Forall (fun n => headerNameSanity n = true) names).
  { unfold names. repeat apply Forall_app_2.
    - by repeat constructor.
    - unfold R. destruct (0 <? rev)%Z; by repeat constructor.
    - apply PrimaryKey_sane.
    - apply Forall_forall. intros k [Hk Hw]%Hothers.
      apply Hwritten in Hw as [Hbk _].
      destruct (Hnotbk k Hbk) as (Ht & _ & Hr & Hbl).
      apply elem_of_dom in Hk as [v Hv].
      rewrite Hfh1, Hfhother in Hv by done. by apply (Hdomain k v).
    - unfold BL. destruct (0 <? length body); by repeat constructor. }
  assert (Hvalid : forall k, utf8_Valid (fh2 !!! k) = true).
  { intros k. rewrite lookup_total_alt.
    destruct (fh2 !! k) as [v|] eqn:Hv; [|done]. simpl.
    destruct (decide (k = B "body-length")) as [->|Hbl].
    { rewrite Hfh2bl in Hv. destruct (0 <? length body); [|done].
      injection Hv as <-. apply utf8_Valid_ascii.
      eapply Forall_impl; [apply Itoa_nonneg_digits; lia|].
      by intros c [? _]%is_digit_ascii. }
    rewrite Hfh2 in Hv by done.
    destruct (decide (k = B "revision")) as [->|Hr].
    { rewrite Hfh1rev in Hv. destruct (0 <? rev)%Z; [|done].
      rewrite Hfhother in Hv by done. by apply (Hdomain _ _ Hv). }
    rewrite Hfh1 in Hv by done.
    destruct (decide (k = B "type")) as [->|Htype]; [congruence|].
    rewrite Hfhother in Hv by done. by apply (Hdomain _ _ Hv). }
  exists t, names. subst a. cbn [assertionBase.content assertionBase.body
    assertionBase.headers assertionBase.revision assertionBase.signature].
  split; [|split; [done|split; [done|split; [done|split;
    [by apply Forall_forall|split; [done|]]]]]].
  - (* the content *)
    unfold names.
    change ([B "type"; B "authority-id"] ++ ?x)
      with (B "type" :: (B "authority-id" :: x)).
    rewrite (map_cons _ (B "type")), concat_cons.
    assert (Htl : fh2 !!! B "type" = Name t).
    { by rewrite lookup_total_alt, Hfh2, Hfh1, Hfhtype. }
    assert (Hel : entry_lines (B "type") (fh2 !!! B "type")
                  = [B "type: " ++ Name t]).
    { unfold entry_lines. by rewrite Htl, HNnl. }
    rewrite Hel, Join_entries by done.
    cbn [Join map concat]. rewrite !map_app, !concat_app.
    rewrite <- !app_assoc. do 2 f_equal.
    rewrite (entry_lookup fh2 fh (B "authority-id"))
      by (by rewrite Hfh2, Hfh1).
    f_equal.
    assert (HR : concat (map (entry fh2) R)
                 = if (0 <? rev)%Z then entry fh (B "revision") else []).
    { unfold R. destruct (0 <? rev)%Z eqn:Hpos; [|done]. cbn [map concat].
      rewrite app_nil_r. apply entry_lookup.
      by rewrite Hfh2, Hfh1rev. }
    rewrite HR. f_equal.
    rewrite (map_entry_ext fh2 fh1 (PrimaryKey t)).
    2:{ intros k Hk. destruct (Hnotbk k (Hpkbk k Hk)) as (_ & _ & _ & Hbl).
        by apply Hfh2. }
    f_equal.
    rewrite (map_entry_ext fh2 fh1 others).
    2:{ intros k [_ Hw]%Hothers. apply Hwritten in Hw as [Hbk _].
        destruct (Hnotbk k Hbk) as (_ & _ & _ & Hbl). by apply Hfh2. }
    f_equal. unfold BL, fh2.
    destruct (0 <? length body); [|done]. cbn [map concat].
    by rewrite app_nil_r.
  - (* the checks *)
    split; [by rewrite Hfh2, Hfh1, Hfhtype|]. split.
    { exists auth. rewrite <- Hauth. apply checkNotEmpty_ext.
      by rewrite Hfh2, Hfh1. }
    split.
    { unfold checkRevision in *.
      rewrite (checkInteger_ext fh2 fh1) by (by apply Hfh2).
      unfold checkInteger at 1. rewrite Hfh1rev.
      destruct (0 <? rev)%Z eqn:Hpos; [done|].
      apply Z.ltb_ge in Hpos. cbn [mbind result_mbind result_bind].
      assert (rev = 0%Z) as -> by lia. done. }
    split.
    { rewrite <- Hpk. apply checkPrimaryKeys_ext. intros k Hk.
      destruct (Hnotbk k (Hpkbk k Hk)) as (_ & _ & _ & Hbl). by apply Hfh2. }
    split; [done|]. split; [done|]. by exists sig.
Qed.

(** *** Decoding what [assembleAndSign] produced *)

Lemma parseHeaders_canonical (hs : gmap bytes bytes) (names : list bytes) :
  names <> [] ->
  Forall (fun n => headerNameSanity n = true) names ->
  Forall (fun n => utf8_Valid (hs !!! n) = true) names ->
  (forall k, k ∈ names <-> k ∈ dom hs) ->
  let head := Join (concat (map (fun n => entry_lines n (hs !!! n)) names)) nl in
  parseHeaders head = Ok hs /\ Index (head ++ nl) nlnl = None.
Proof.
  intros Hne Hsane Hvalid Hmem head.
  assert (Hlines : lines_of (fun n => hs !!! n) names <> []).
  { destruct names as [|n names]; [done|]. unfold lines_of. cbn [map concat].
    intros [H _]%app_eq_nil. by apply entry_lines_nonempty in H. }
  change head with (Join (lines_of (fun n => hs !!! n) names) nl).
  pose proof (lines_of_no_nl (fun n => hs !!! n) names Hsane) as Hnonl.
  pose proof (lines_of_no_blank (fun n => hs !!! n) names Hsane) as Hnoblank.
  split; [|by apply no_blank_line].
  rewrite parseHeaders_lines; [|done|done|].
  - rewrite (parseEntries_names (fun n => hs !!! n)) by done. f_equal.
    apply map_eq. intros k. rewrite foldl_insert_lookup, lookup_empty.
    destruct (decide (k ∈ names)) as [Hk|Hk].
    + apply Hmem, elem_of_dom in Hk as [v Hv].
      by rewrite lookup_total_alt, Hv.
    + symmetry. apply not_elem_of_dom. by rewrite <- Hmem.
  - destruct names as [|n names]; [done|].
    apply Forall_cons in Hsane as [Hn Hsane].
    apply Forall_cons in Hvalid as [Hvn Hvalid].
    unfold lines_of. cbn [map concat].
    rewrite Join_entries by apply entry_lines_nonempty.
    apply utf8_Valid_app; [|by apply utf8_Valid_entries].
    pose proof (utf8_Valid_entry hs n Hn Hvn) as He.
    rewrite entry_text in He. exact He.
Qed.

Lemma LastIndex_separator (content sig : bytes) :
  Index (nl ++ sig) nlnl = None ->
  LastIndex (content ++ nlnl ++ sig) nlnl = Some (length content).
Proof.
  intros Hnone. apply LastIndex_Some. split; [|split].
  - by rewrite drop_app_length, HasPrefix_app.
  - rewrite length_app. lia.
  - intros j Hj _.
    change (content ++ nlnl ++ sig) with (content ++ nl ++ (nl ++ sig)).
    rewrite app_assoc, drop_app_ge by (rewrite length_app; simpl; lia).
    apply (proj1 (Index_None _ _) Hnone).
Qed.

(** C1 (as amended). For every input accepted by [assembleAndSign] whose
    header names match the name pattern and whose header values are valid
    UTF-8, with a body no longer than the largest [int], and such that
    the signature (the signer's output and the final newline) holds no
    empty line and does not start with a newline: decoding the encoding
    of the resulting assertion succeeds and yields that assertion, with
    the same type, revision, authority-id, body and headers. *)
Theorem Decode_Encode_assembleAndSign (assertType : option AssertionType)
    (headers : gmap bytes bytes) (body : bytes) (privKey : PrivateKey)
    (a : Assertion) :
  assembleAndSign PrivateKey signContent typeCheck assertType headers body privKey
    = Ok a ->
  (forall name v, headers !! name = Some v ->
     headerNameSanity name = true /\ utf8_Valid v = true) ->
  (Z.of_nat (length body) <= maxInt)%Z ->
  Index (nl ++ assertionBase.signature a) nlnl = None ->
  Decode typeCheck (Encode a) = Ok a.
Proof.
  intros Hasm Hdomain Hlen Hsig.
  destruct (canonical_content _ _ _ _ _ Hasm Hdomain)
    as (t & names & Hcontent & Hbody & Hne & Hsane & Hvalid & Hmem & Htype
        & [auth Hauth] & Hrev & Hpk & Hbl & Hcheck & [sig Hs]).
  destruct (parseHeaders_canonical _ _ Hne Hsane Hvalid Hmem)
    as [Hparse Hblank].
  destruct (Name_facts t) as (_ & _ & HNne & HNtype).
  destruct a as [hs abody rev content signature].
  cbn [assertionBase.content assertionBase.body assertionBase.headers
       assertionBase.revision assertionBase.signature] in *.
  set (head := Join (concat (map (fun n => entry_lines n (hs !!! n)) names)) nl)
    in *.
  unfold Encode, Signature, Decode.
  cbn [assertionBase.content assertionBase.signature].
  rewrite (LastIndex_separator content signature Hsig).
  rewrite take_app_length.
  replace (length content + 2) with (length (content ++ nlnl))
    by (rewrite length_app; simpl; lia).
  rewrite app_assoc, drop_app_length.
  assert (Hsplit : (match Index content nlnl with
                    | Some headersBodySplit =>
                        (drop (headersBodySplit + 2) content,
                         take headersBodySplit content)
                    | None => ([], content)
                    end) = (abody, head)).
  { rewrite Hcontent, Hbody. destruct (0 <? length body).
    - rewrite (Index_head_body head body Hblank).
      rewrite take_app_length.
      replace (length head + 2) with (length (head ++ nlnl))
        by (rewrite length_app; simpl; lia).
      by rewrite app_assoc, drop_app_length.
    - rewrite app_nil_r. by rewrite (Index_head_alone head Hblank). }
  rewrite Hsplit, Hparse. cbn [wrapErr mbind result_mbind result_bind].
  unfold Assemble, checkInteger. rewrite Hbl.
  assert (Hn : (if 0 <? length body
                then match Atoi (Itoa (Z.of_nat (length body))) with
                     | Some value => Ok value
                     | None => Err (Errorf "%q header is not an integer: %v"
                         [AStr (B "body-length");
                          AStr (Itoa (Z.of_nat (length body)))])
                     end
                else Ok 0%Z) = Ok (Z.of_nat (length abody))).
  { rewrite Hbody. destruct (0 <? length body); [|done].
    rewrite Atoi_Itoa by lia. done. }
  assert (Hn' : match (if 0 <? length body
                       then Some (Itoa (Z.of_nat (length body))) else None) with
                | Some valueStr =>
                    match Atoi valueStr with
                    | Some value => Ok value
                    | None => Err (Errorf "%q header is not an integer: %v"
                        [AStr (B "body-length"); AStr valueStr])
                    end
                | None => Ok 0%Z
                end = Ok (Z.of_nat (length abody))).
  { destruct (0 <? length body); exact Hn. }
  rewrite Hn'. cbn [wrapErr mbind result_mbind result_bind].
  rewrite Z.eqb_refl. cbn [negb].
  rewrite Hauth. cbn [wrapErr mbind result_mbind result_bind].
  assert (Ht : checkNotEmpty hs (B "type") = Ok (Name t)).
  { by apply checkNotEmpty_Ok. }
  rewrite Ht. cbn [wrapErr mbind result_mbind result_bind].
  rewrite HNtype, Hpk. cbn [wrapErr mbind result_mbind result_bind].
  rewrite Hrev. cbn [wrapErr mbind result_mbind result_bind].
  rewrite Hs, length_app. cbn [length nl].
  replace (length sig + 1 =? 0) with false by (symmetry; apply Nat.eqb_neq; lia).
  unfold assembler. rewrite <- Hs, Hcheck. done.
Qed.

End properties.

(** ** The properties on concrete inputs *)

(** A decoded assertion whose signature does not end in a newline: the
    stream written for it alone is one byte longer than its encoding. *)
Lemma Encoder_stream_not_plain_join :
  Decode acceptAll accountWire = Ok accountAssertion /\
  Encoder.wr (snd (Encoder_EncodeAll (NewEncoder []) [accountAssertion]))
    <> Join (map Encode [accountAssertion]) nl.
Proof.
  split; [compute_done|].
  vm_compute. discriminate.
Qed.

(** The assertion decoded from a stream holds its body as a slice
    of the array of its content. A caller that writes one byte through
    the slice [Body] returned changes what [Body] and [Signature] return
    from then on. *)
Lemma Body_returns_internal_slice :
  let ab := Store.mk 1%positive
              (Store.Slice 2%positive 155 5) 3%Z
              (Store.Slice 2%positive 0 160) (Store.Slice 3%positive 0 4) in
  let h : Store.arrays :=
    {[ 2%positive := snapBuildContent; 3%positive := B "SIG" ++ nl ]} in
  Store.bytes_of (Store.Body ab) h = B "hello" /\
  Store.bytes_of (fst (Store.Signature ab)) h = snapBuildContent /\
  exists h',
    Store.set_index (Store.Body ab) 0 "j" h = Some h' /\
    Store.bytes_of (Store.Body ab) h' = B "jello" /\
    Store.bytes_of (fst (Store.Signature ab)) h' <> snapBuildContent.
Proof.
  intros ab h. split; [compute_done|]. split; [compute_done|].
  eexists. split; [reflexivity|]. split; [compute_done|].
  vm_compute. discriminate.
Qed.

Lemma Headers_returns_fresh_copy_witness :
  let ab := Store.mk 1%positive (Store.Slice 2%positive 0 0) 0%Z
              (Store.Slice 2%positive 0 0) (Store.Slice 3%positive 0 0) in
  let σ : Store.store := {[ 1%positive := {[ B "type" := B "account" ]} ]} in
  let m := fst (Store.Headers ab σ) in
  Store.Header ab (B "type")
    (foldl (Store.mutate m) (snd (Store.Headers ab σ))
       [Store.Assign (B "type") (B "model"); Store.Delete (B "type")])
  = B "account".
Proof.
  intros ab σ m.
  assert (Hs : is_Some (σ !! Store.headers ab)) by (eexists; apply lookup_singleton_eq).
  destruct (Headers_returns_fresh_copy ab σ
    [Store.Assign (B "type") (B "model"); Store.Delete (B "type")] Hs)
    as (_ & _ & H & _).
  subst m. rewrite (H (B "type")). compute_done.
Defined.

Lemma Decoder_Decode_end_of_stream_witness :
  (exists d', Decoder_Decode acceptAll (NewDecoder [] io_EOF)
                = Some (Err io_EOF, d')) /\
  (exists d', Decoder_Decode acceptAll (NewDecoder (B "type: account") io_EOF)
                = Some (Err io_ErrUnexpectedEOF, d')).
Proof.
  split.
  - apply (Decoder_Decode_end_of_stream acceptAll (NewDecoder [] io_EOF));
      [exact I | reflexivity | reflexivity | reflexivity].
  - apply (Decoder_Decode_end_of_stream acceptAll
             (NewDecoder (B "type: account") io_EOF));
      [exact I | reflexivity | reflexivity | discriminate | reflexivity |].
    exists 0. split; [reflexivity | by left].
Defined.

(** With no body declared and a separator before the signature, the
    content of the decoded assertion keeps that separator. *)
Lemma Decoder_Decode_content_keeps_separator :
  let a := assertionBase.mk accountParsed [] 0%Z
             (accountHeaders ++ nlnl) (B "openpgp sig") in
  Decoder_Decode acceptAll (NewDecoder accountWireSeparated io_EOF)
    = Some (Ok a, atEnd []) /\
  parseHeaders accountHeaders = Ok (assertionBase.headers a) /\
  checkInteger (assertionBase.headers a) (B "body-length") 0%Z = Ok 0%Z /\
  assertionBase.content a <> accountHeaders.
Proof.
  split; [compute_done|].
  split; [compute_done|].
  split; [compute_done|].
  vm_compute. discriminate.
Qed.

Lemma Decoder_Decode_content_witness :
  exists head rest L,
    Decoder.unread (NewDecoder accountWire io_EOF) = head ++ nlnl ++ rest /\
    Index (Decoder.unread (NewDecoder accountWire io_EOF)) nlnl
      = Some (length head) /\
    parseHeaders head = Ok (assertionBase.headers accountAssertion) /\
    checkInteger (assertionBase.headers accountAssertion) (B "body-length") 0%Z
      = Ok L /\
    assertionBase.body accountAssertion
      = (if (0 <? L)%Z then take (Z.to_nat L) rest else []) /\
    assertionBase.content accountAssertion
      = (if (0 <? L)%Z then head ++ nlnl ++ assertionBase.body accountAssertion
         else if HasPrefix rest nlnl then head ++ nlnl else head).
Proof.
  apply (Decoder_Decode_content acceptAll (NewDecoder accountWire io_EOF)
           accountAssertion (atEnd [])).
  - exact I.
  - compute_done.
Defined.



Lemma Decoder_Decode_direct_signature_witness :
  Decoder_Decode acceptAll
    (NewDecoder (fiveHeaders ++ nlnl ++ B "helloSIG") io_EOF)
    = Some (Err (Errorf "missing content/signature separator" []), atEnd []) /\
  Decoder_Decode acceptAll (NewDecoder accountWire io_EOF)
    = Some (Assemble acceptAll accountParsed []
              (take (length (accountHeaders ++ nlnl) - 2)
                 (accountHeaders ++ nlnl))
              (normalized (B "openpgp sig")), atEnd []) /\
  (forall a,
     Decoder_Decode acceptAll (NewDecoder accountWire io_EOF)
       = Some (Ok a, atEnd []) ->
     0%Z = 0%Z /\ assertionBase.signature a = normalized (B "openpgp sig")).
Proof.
  split.
  - apply (Decoder_Decode_direct_signature acceptAll
             (NewDecoder (fiveHeaders ++ nlnl ++ B "helloSIG") io_EOF)
             (fiveHeaders ++ nlnl) (atEnd (B "helloSIG"))
             (<[B "body-length" := B "5"]> accountParsed) 5%Z
             (atEnd (B "SIG")) (B "SIG") (Some io_EOF) (atEnd [])).
    + compute_done.
    + compute_done.
    + compute_done.
    + vm_compute. discriminate.
    + exists (B "hello"). compute_done.
    + compute_done.
    + reflexivity.
    + discriminate.
    + reflexivity.
  - assert (H := Decoder_Decode_direct_signature acceptAll
             (NewDecoder accountWire io_EOF) (accountHeaders ++ nlnl)
             (atEnd (B "openpgp sig")) accountParsed 0%Z
             (atEnd (B "openpgp sig")) (B "openpgp sig") (Some io_EOF)
             (atEnd [])).
    destruct H as (_ & Hsig & Honly).
    + compute_done.
    + compute_done.
    + compute_done.
    + vm_compute. discriminate.
    + reflexivity.
    + compute_done.
    + reflexivity.
    + discriminate.
    + split; [|exact Honly]. apply Hsig; [reflexivity|].
      vm_compute. discriminate.
Defined.

Lemma Encode_reproduces_decoded_input_witness :
  Encode accountAssertion = accountWire /\
  exists consumed,
    Decoder.unread (NewDecoder accountWire io_EOF)
      = consumed ++ Decoder.unread (atEnd []) /\
    modulo_newlines consumed (Encode accountAssertion).
Proof.
  destruct (Encode_reproduces_decoded_input acceptAll) as [Hone Hstream].
  split.
  - apply Hone. compute_done.
  - apply Hstream; [exact I | compute_done].
Defined.

(** A value that is not UTF-8, and a name outside the name pattern: in
    both cases parsing the serialized header fails. *)
Lemma multiline_header_not_parsed :
  (let v := "255"%char :: nl ++ B "line2" in
   parseHeaders (drop 1 (writeHeader [] {[B "description" := v]}
                           (B "description")))
   = Err (Errorf "header is not utf8" [])) /\
  (let v := B "line1" ++ nl ++ B "line2" in
   parseHeaders (drop 1 (writeHeader [] {[B "Description" := v]}
                           (B "Description")))
   = Err (Errorf "invalid header name: %q" [AStr (B "Description")])).
Proof. split; compute_done. Qed.

Lemma multiline_header_round_trip_witness :
  let v := B "line1" ++ nl ++ B "line2" in
  parseHeaders (drop 1 (writeHeader [] {[B "description" := v]}
                          (B "description")))
  = Ok {[B "description" := v]}.
Proof.
  intros v.
  apply (multiline_header_round_trip {[B "description" := v]}
           (B "description") v).
  - compute_done.
  - compute_done.
  - compute_done.
  - apply lookup_singleton_eq.
Defined.

(** [assembleAndSign] accepts a header whose name is outside the name
    pattern, and a signature ending in a newline; in both cases the
    encoding of its result is refused by [Decode]. *)
Lemma Decode_Encode_assembleAndSign_fails :
  (assembleAndSign unit (constSigner (B "openpgp sig")) acceptAll
     (Some AccountType) notedHeaders [] tt = Ok notedAssertion /\
   Decode acceptAll (Encode notedAssertion)
   = Err (Errorw "parsing assertion headers: %v" []
            (Errorf "invalid header name: %q" [AStr (B "Note")]))) /\
  (let a := assertionBase.mk accountParsed [] 0%Z accountHeaders
              (B "sig" ++ nl ++ nl) in
   assembleAndSign unit (constSigner (B "sig" ++ nl)) acceptAll
     (Some AccountType)
     (list_to_map [(B "authority-id", B "canonical");
                   (B "account-id", B "alice")]) [] tt = Ok a /\
   Decode acceptAll (Encode a)
   = Err (Errorf
       "assertion body length and declared body-length don't match: %v != %v"
       [AInt 3; AInt 0])).
Proof. repeat split; compute_done. Qed.

Lemma Decode_Encode_assembleAndSign_witness :
  Decode acceptAll (Encode snapBuildAssertion) = Ok snapBuildAssertion.
Proof.
  apply (Decode_Encode_assembleAndSign unit (constSigner (B "SIG")) acceptAll
           (Some SnapBuildType) snapBuildHeaders (B "hello") tt).
  - compute_done.
  - change (map_Forall (fun name v =>
              headerNameSanity name = true /\ utf8_Valid v = true)
              snapBuildHeaders).
    compute_done.
  - compute_done.
  - compute_done.
Defined.

Lemma assembleAndSign_header_order_witness :
  exists t others,
    let fh := <[B "body-length" := Itoa (Z.of_nat (length (B "hello")))]>
                (<[B "type" := Name t]> snapBuildHeaders) in
    Some SnapBuildType = Some t /\
    assertionBase.content snapBuildAssertion =
      B "type: " ++ Name t
      ++ entry fh (B "authority-id")
      ++ (if (0 <? Revision snapBuildAssertion)%Z
          then entry fh (B "revision") else [])
      ++ concat (map (entry fh) (PrimaryKey t))
      ++ concat (map (entry fh) others)
      ++ (if 0 <? length (B "hello")
          then entry fh (B "body-length") ++ nlnl ++ B "hello" else []) /\
    StronglySorted bytes_le others /\
    NoDup others /\
    (forall name,
       name ∈ others <->
       name ∈ dom fh /\ (name ∉ bookkeeping) /\ (name ∉ PrimaryKey t)).
Proof.
  apply (assembleAndSign_header_order unit (constSigner (B "SIG")) acceptAll
           (Some SnapBuildType) snapBuildHeaders (B "hello") tt
           snapBuildAssertion).
  compute_done.
Defined.

(** ** Further properties of the codec *)

Section coverage.

Variable PrivateKey : Type.
Variable signContent : bytes -> PrivateKey -> result bytes.
Variable typeCheck : AssertionType -> assertionBase.t -> option error.

#[local] Arguments HasPrefix : simpl never.
#[local] Arguments HasSuffix : simpl never.
#[local] Arguments Index : simpl never.
#[local] Arguments B : simpl never.
#[local] Arguments parseHeaders : simpl never.
#[local] Arguments checkInteger : simpl never.
#[local] Arguments Assemble : simpl never.
#[local] Arguments readUntil : simpl never.
#[local] Arguments readExact : simpl never.

(** *** The registry of types *)

Lemma Type'_Some (name : bytes) (t : AssertionType) :
  Type' name = Some t <-> name = Name t.
Proof.
  split.
  - unfold Type', typeRegistry. intros H.
    apply elem_of_list_to_map_2 in H.
    repeat (apply elem_of_cons in H as [[= -> ->]|H]; [done|]).
    by apply elem_of_nil in H.
  - intros ->. by destruct (Name_facts t) as (_ & _ & _ & ?).
Qed.

(** X1. [Type] is the inverse of [Name]: the name of every type is
    registered for this type, and a name resolves to a type only when it is
    the name of that type; any other name resolves to nil. *)
Theorem Type_inverts_Name (name : bytes) :
  match Type' name with
  | Some t => name = Name t
  | None => forall t, name <> Name t
  end /\
  forall t, Type' (Name t) = Some t.
Proof.
  split; [|intros t; by apply Type'_Some].
  destruct (Type' name) as [t|] eqn:Ht; [by apply Type'_Some|].
  intros t ->. by rewrite (proj2 (Type'_Some _ t) eq_refl) in Ht.
Qed.

(** *** What [Assemble] checks *)

Lemma checkPrimaryKey_Ok (h : gmap bytes bytes) (k v : bytes) :
  checkPrimaryKey h k = Ok v <->
  h !! k = Some v /\ v <> [] /\ ContainsByte v "/"%char = false.
Proof.
  unfold checkPrimaryKey. split.
  - intros (v' & Hv & H)%bind_Ok. apply checkNotEmpty_Ok in Hv as [Hv Hne].
    destruct (ContainsByte v' "/"%char) eqn:Hs; [discriminate|].
    by injection H as <-.
  - intros (Hv & Hne & Hs).
    rewrite (proj2 (checkNotEmpty_Ok h k v) (conj Hv Hne)).
    cbn [mbind result_mbind result_bind]. by rewrite Hs.
Qed.

Lemma checkPrimaryKeys_Ok (h : gmap bytes bytes) (keys : list bytes) :
  checkPrimaryKeys h keys = Ok tt <->
  Forall (fun k => exists v,
    h !! k = Some v /\ v <> [] /\ ContainsByte v "/"%char = false) keys.
Proof.
  induction keys as [|k keys IH]; cbn [checkPrimaryKeys].
  - split; [by constructor|done].
  - rewrite Forall_cons, <- IH. split.
    + intros (v & Hv & H)%bind_Ok. split; [|done].
      exists v. by apply checkPrimaryKey_Ok.
    + intros [(v & Hv) H]. apply checkPrimaryKey_Ok in Hv. by rewrite Hv.
Qed.

Lemma Assemble_Ok_inv (headers : gmap bytes bytes)
    (body content signature : bytes) (a : Assertion) :
  Assemble typeCheck headers body content signature = Ok a ->
  exists revision t auth,
    a = assertionBase.mk headers body revision content signature /\
    checkInteger headers (B "body-length") 0%Z = Ok (Z.of_nat (length body)) /\
    checkNotEmpty headers (B "authority-id") = Ok auth /\
    checkNotEmpty headers (B "type") = Ok (Name t) /\
    checkPrimaryKeys headers (PrimaryKey t) = Ok tt /\
    checkRevision headers = Ok revision /\
    signature <> [] /\
    typeCheck t a = None.
Proof.
  unfold Assemble. intros H.
  apply bind_Ok in H as (len & Hlen%wrapErr_Ok & H).
  destruct (negb (len =? Z.of_nat (length body))%Z) eqn:Hcmp; [discriminate|].
  apply negb_false_iff, Z.eqb_eq in Hcmp. subst len.
  apply bind_Ok in H as (auth & Hauth%wrapErr_Ok & H).
  apply bind_Ok in H as (typ & Htyp%wrapErr_Ok & H).
  destruct (Type' typ) as [t|] eqn:Ht; [|discriminate].
  apply Type'_Some in Ht as ->.
  apply bind_Ok in H as ([] & Hpk%wrapErr_Ok & H).
  apply bind_Ok in H as (rev & Hrev%wrapErr_Ok & H).
  destruct (length signature =? 0) eqn:Hsig; [discriminate|].
  apply wrapErr_Ok, assembler_Ok in H as [-> Hcheck].
  exists rev, t, auth. repeat split; try done.
  intros ->. discriminate.
Qed.

(** The converse: the checks that make [Assemble] succeed. *)
Lemma Assemble_intro (headers : gmap bytes bytes)
    (body content signature : bytes) (revision : Z) (t : AssertionType)
    (auth : bytes) :
  checkInteger headers (B "body-length") 0%Z = Ok (Z.of_nat (length body)) ->
  checkNotEmpty headers (B "authority-id") = Ok auth ->
  checkNotEmpty headers (B "type") = Ok (Name t) ->
  checkPrimaryKeys headers (PrimaryKey t) = Ok tt ->
  checkRevision headers = Ok revision ->
  signature <> [] ->
  typeCheck t (assertionBase.mk headers body revision content signature) = None ->
  Assemble typeCheck headers body content signature
  = Ok (assertionBase.mk headers body revision content signature).
Proof.
  intros Hlen Hauth Htyp Hpk Hrev Hsig Hcheck. unfold Assemble.
  rewrite Hlen. cbn [wrapErr mbind result_mbind result_bind].
  rewrite Z.eqb_refl. cbn [negb].
  rewrite Hauth. cbn [wrapErr mbind result_mbind result_bind].
  rewrite Htyp. cbn [wrapErr mbind result_mbind result_bind].
  rewrite (proj2 (Type'_Some _ t) eq_refl), Hpk.
  cbn [wrapErr mbind result_mbind result_bind].
  rewrite Hrev. cbn [wrapErr mbind result_mbind result_bind].
  destruct signature as [|c sig]; [done|]. cbn [length Nat.eqb].
  unfold assembler. by rewrite Hcheck.
Qed.

(** X2. Every assertion [Assemble] returns holds the components it was
    given and has passed the checks: its type is registered and its [type]
    header is the name of that type, the assembler of the type has accepted
    it, every header of the primary key of the type is non-empty and free
    of [/], the authority is non-empty, the revision is the [revision]
    header (0 without one) and is not negative, the [body-length] header (0
    without one) is the length of the body, and the signature is not empty. *)
Theorem Assemble_result_is_checked (headers : gmap bytes bytes)
    (body content signature : bytes) (a : Assertion) :
  Assemble typeCheck headers body content signature = Ok a ->
  a = assertionBase.mk headers body (Revision a) content signature /\
  (exists t,
     assertionBase_Type a = Some t /\ Header a (B "type") = Name t /\
     typeCheck t a = None /\
     Forall (fun k => Header a k <> [] /\
                      ContainsByte (Header a k) "/"%char = false)
       (PrimaryKey t)) /\
  AuthorityID a <> [] /\
  checkInteger headers (B "revision") 0%Z = Ok (Revision a) /\
  (0 <= Revision a)%Z /\
  checkInteger headers (B "body-length") 0%Z = Ok (Z.of_nat (length body)) /\
  signature <> [].
Proof.
  intros (rev & t & auth & -> & Hlen & Hauth & Htyp & Hpk & Hrev & Hsig & Hcheck)
    %Assemble_Ok_inv.
  apply checkNotEmpty_Ok in Hauth as [Hauth Hane].
  apply checkNotEmpty_Ok in Htyp as [Htyp _].
  unfold assertionBase_Type, Header, AuthorityID, Revision.
  cbn [assertionBase.headers assertionBase.revision].
  split; [done|]. split.
  { exists t. rewrite lookup_total_alt, Htyp. cbn [default from_option].
    split; [by apply Type'_Some|]. split; [done|]. split; [done|].
    apply checkPrimaryKeys_Ok in Hpk.
    eapply Forall_impl; [exact Hpk|]. intros k (v & Hv & Hne & Hs).
    by rewrite lookup_total_alt, Hv. }
  split; [by rewrite lookup_total_alt, Hauth|].
  unfold checkRevision in Hrev.
  apply bind_Ok in Hrev as (r & Hr & Hrev).
  destruct (r <? 0)%Z eqn:Hneg; [discriminate|].
  injection Hrev as <-. apply Z.ltb_ge in Hneg. done.
Qed.

(** *** What [assembleAndSign] builds *)

Lemma assembleAndSign_final_headers (assertType : option AssertionType)
    (headers : gmap bytes bytes) (body : bytes) (privKey : PrivateKey)
    (a : Assertion) :
  assembleAndSign PrivateKey signContent typeCheck assertType headers body privKey
    = Ok a ->
  exists t sig auth,
    assertType = Some t /\
    signContent (assertionBase.content a) privKey = Ok sig /\
    assertionBase.signature a = sig ++ nl /\
    assertionBase.body a = body /\
    typeCheck t a = None /\
    checkInteger headers (B "revision") 0%Z = Ok (Revision a) /\
    (0 <= Revision a)%Z /\
    headers !! B "authority-id" = Some auth /\ auth <> [] /\
    checkPrimaryKeys (assertionBase.headers a) (PrimaryKey t) = Ok tt /\
    forall k,
      assertionBase.headers a !! k =
        if decide (k = B "type") then Some (Name t)
        else if decide (k = B "body-length") then
          (if 0 <? length body
           then Some (Itoa (Z.of_nat (length body))) else None)
        else if decide (k = B "revision") then
          (if (0 <? Revision a)%Z then headers !! k else None)
        else headers !! k.
Proof.
  intros (t & rev & sig & Ht & [auth Hauth] & Hrev & Hpk & Hsign & Hcheck & Ha)
    %assembleAndSign_Ok.
  cbn zeta in *.
  set (fh := <[B "body-length" := Itoa (Z.of_nat (length body))]>
               (<[B "type" := Name t]> headers)) in *.
  set (fh1 := if (0 <? rev)%Z then fh else delete (B "revision") fh) in *.
  set (fh2 := if 0 <? length body then fh1 else delete (B "body-length") fh1) in *.
  assert (Hfhother : forall k, k <> B "type" -> k <> B "body-length" ->
            fh !! k = headers !! k).
  { intros k H1 H2. unfold fh. by rewrite !lookup_insert_ne. }
  assert (Hfh1 : forall k, k <> B "revision" -> fh1 !! k = fh !! k).
  { intros k Hk. unfold fh1. destruct (0 <? rev)%Z; [done|].
    by rewrite lookup_delete_ne. }
  assert (Hfh2 : forall k, k <> B "body-length" -> fh2 !! k = fh1 !! k).
  { intros k Hk. unfold fh2. destruct (0 <? length body); [done|].
    by rewrite lookup_delete_ne. }
  assert (Hlookup : forall k,
      fh2 !! k =
        if decide (k = B "type") then Some (Name t)
        else if decide (k = B "body-length") then
          (if 0 <? length body
           then Some (Itoa (Z.of_nat (length body))) else None)
        else if decide (k = B "revision") then
          (if (0 <? rev)%Z then headers !! k else None)
        else headers !! k).
  { intros k.
    destruct (decide (k = B "type")) as [->|Htype].
    { rewrite Hfh2, Hfh1 by done. unfold fh.
      rewrite lookup_insert_ne by done. by rewrite lookup_insert_eq. }
    destruct (decide (k = B "body-length")) as [->|Hbl].
    { unfold fh2. destruct (0 <? length body); [|by rewrite lookup_delete_eq].
      rewrite Hfh1 by done. unfold fh. by rewrite lookup_insert_eq. }
    rewrite Hfh2 by done.
    destruct (decide (k = B "revision")) as [->|Hr].
    { unfold fh1. destruct (0 <? rev)%Z; [|by rewrite lookup_delete_eq].
      by apply Hfhother. }
    rewrite Hfh1 by done. by apply Hfhother. }
  exists t, sig, auth. subst a.
  unfold Revision.
  cbn [assertionBase.content assertionBase.body assertionBase.headers
       assertionBase.revision assertionBase.signature].
  split; [done|]. split; [done|]. split; [done|]. split.
  { destruct body; done. }
  split; [done|]. split.
  { unfold checkRevision in Hrev. apply bind_Ok in Hrev as (r & Hr & Hrev).
    destruct (r <? 0)%Z; [discriminate|]. injection Hrev as <-.
    rewrite <- Hr. apply checkInteger_ext. symmetry. by apply Hfhother. }
  split; [by apply checkRevision_Ok in Hrev as [? _]|].
  apply checkNotEmpty_Ok in Hauth as [Hauth Hane].
  rewrite Hfhother in Hauth by done.
  split; [done|]. split; [done|]. split; [|done].
  rewrite <- Hpk. apply checkPrimaryKeys_ext. intros k Hk.
  apply Hfh2. intros ->.
  apply PrimaryKey_not_bookkeeping in Hk. apply Hk.
  rewrite (elem_of_bookkeeping PrivateKey signContent). tauto.
Qed.

(** X3. The assertion [assembleAndSign] returns: its signature is what the
    signer gave for its content, followed by one newline; its body is the
    body given; its headers are the headers given, except that [type] is
    the name of the type and [body-length] the length of the body whatever
    the caller passed under these names, that [body-length] is absent for
    an empty body, and that [revision] is absent when it is 0. *)
Theorem assembleAndSign_result (assertType : option AssertionType)
    (headers : gmap bytes bytes) (body : bytes) (privKey : PrivateKey)
    (a : Assertion) :
  assembleAndSign PrivateKey signContent typeCheck assertType headers body privKey
    = Ok a ->
  exists t sig,
    assertType = Some t /\
    signContent (assertionBase.content a) privKey = Ok sig /\
    assertionBase.signature a = sig ++ nl /\
    assertionBase.body a = body /\
    checkInteger headers (B "revision") 0%Z = Ok (Revision a) /\
    (0 <= Revision a)%Z /\
    forall k,
      assertionBase.headers a !! k =
        if decide (k = B "type") then Some (Name t)
        else if decide (k = B "body-length") then
          (if 0 <? length body
           then Some (Itoa (Z.of_nat (length body))) else None)
        else if decide (k = B "revision") then
          (if (0 <? Revision a)%Z then headers !! k else None)
        else headers !! k.
Proof.
  intros (t & sig & auth & ? & ? & ? & ? & _ & ? & ? & _ & _ & _ & ?)
    %assembleAndSign_final_headers.
  by exists t, sig.
Qed.

(** X4. [Assemble] accepts what [assembleAndSign] built: given the headers,
    the body, the content and the signature of an assertion returned by
    [assembleAndSign] (for a body whose length fits an [int]), it returns
    this assertion. *)
Theorem Assemble_accepts_assembleAndSign (assertType : option AssertionType)
    (headers : gmap bytes bytes) (body : bytes) (privKey : PrivateKey)
    (a : Assertion) :
  assembleAndSign PrivateKey signContent typeCheck assertType headers body privKey
    = Ok a ->
  (Z.of_nat (length body) <= maxInt)%Z ->
  Assemble typeCheck (assertionBase.headers a) (assertionBase.body a)
    (assertionBase.content a) (assertionBase.signature a) = Ok a.
Proof.
  intros (t & sig & auth & _ & _ & Hsig & Hbody & Hcheck & Hrev & Hrev0 & Hauth
          & Hane & Hpk & Hlookup)%assembleAndSign_final_headers Hlen.
  destruct a as [hs abody rev content signature].
  unfold Revision in *.
  cbn [assertionBase.content assertionBase.body assertionBase.headers
       assertionBase.revision assertionBase.signature] in *.
  subst abody signature.
  apply (Assemble_intro _ _ _ _ rev t auth); try done.
  - unfold checkInteger. rewrite Hlookup.
    repeat (destruct (decide _) as [|]; try done).
    destruct (0 <? length body) eqn:Hb.
    + by rewrite Atoi_Itoa by lia.
    + apply Nat.ltb_ge in Hb. by destruct body; [|simpl in Hb; lia].
  - apply checkNotEmpty_Ok. split; [|done]. rewrite Hlookup.
    by repeat (destruct (decide _) as [|]; try done).
  - apply checkNotEmpty_Ok. split; [|by destruct (Name_facts t) as (_ & _ & ? & _)].
    rewrite Hlookup. by destruct (decide _).
  - unfold checkRevision, checkInteger in *. rewrite Hlookup.
    repeat (destruct (decide _) as [|]; try done).
    destruct (0 <? rev)%Z eqn:Hpos.
    + destruct (headers !! B "revision") as [v|]; [|by injection Hrev as <-].
      destruct (Atoi v); [|done]. injection Hrev as ->.
      cbn [mbind result_mbind result_bind].
      by destruct (rev <? 0)%Z eqn:Hn; [apply Z.ltb_lt in Hn; lia|].
    + apply Z.ltb_ge in Hpos. by assert (rev = 0%Z) as -> by lia.
  - intros [_ ?]%app_eq_nil. discriminate.
Qed.

(** *** The stream written for signed assertions *)

Lemma terminated_Encode (a : Assertion) (sig : bytes) :
  assertionBase.signature a = sig ++ nl -> terminated (Encode a) = Encode a.
Proof.
  intros Hs. unfold terminated, Encode, Signature. cbn [fst snd].
  rewrite Hs, !app_assoc. change nl with ["010"%char]. rewrite last_snoc.
  by rewrite bool_decide_eq_true_2.
Qed.

(** X5. For assertions built by [assembleAndSign] the streaming encoder
    writes the single-shot encodings joined with a single newline, as they
    are: each of them already ends in the newline [assembleAndSign] added
    to the signature. *)
Theorem Encoder_stream_of_signed_assertions (asserts : list Assertion)
    (w : bytes) :
  Forall (fun a => exists assertType headers body privKey,
            assembleAndSign PrivateKey signContent typeCheck
              assertType headers body privKey = Ok a) asserts ->
  Encoder_EncodeAll (NewEncoder w) asserts
  = (None, Encoder.mk (w ++ Join (map Encode asserts) nl)
             (match asserts with [] => [] | _ => nl end)).
Proof.
  intros Hall.
  assert (Hterm : map (fun a => terminated (Encode a)) asserts
                  = map Encode asserts).
  { apply map_ext_Forall. eapply Forall_impl; [exact Hall|].
    intros a (assertType & headers & body & privKey & Ha).
    apply assembleAndSign_final_headers in Ha
      as (t & sig & _ & _ & _ & Hs & _).
    by apply (terminated_Encode a sig). }
  destruct asserts as [|a rest].
  - simpl. by rewrite app_nil_r.
  - cbn [Encoder_EncodeAll]. unfold Encoder_Encode, NewEncoder.
    rewrite Encoder_append_wr by apply Encode_nonempty.
    rewrite Encoder_EncodeAll_sep by done.
    cbn [Encoder.wr Encoder.nextSep].
    cbn [map] in Hterm. injection Hterm as Ha Hrest.
    rewrite Ha, Hrest. cbn [map]. rewrite Join_cons. by rewrite <- !app_assoc.
Qed.

(** *** The header grammar [parseHeaders] accepts *)

Lemma parseEntries_single (hs : gmap bytes bytes) (name v : bytes)
    (rest : list bytes) :
  headerNameSanity name = true ->
  parseEntries hs ((name ++ B ": " ++ v) :: rest)
  = parseEntries (<[name := v]> hs) rest.
Proof.
  intros Hsane.
  pose proof (sane_no_byte name ":"%char Hsane (or_introl eq_refl)) as Hcolon.
  change (B ": " ++ v) with (":"%char :: " "%char :: v).
  rewrite (parseEntries_singleline _ _ _ (length name)).
  - rewrite take_app_length. do 2 f_equal.
    rewrite <- Nat.add_assoc. rewrite drop_app_add'; done.
  - apply (Index_single name (" "%char :: v) ":"%char Hcolon).
  - by rewrite take_app_length.
  - rewrite length_app. simpl. lia.
  - rewrite lookup_app_r by lia.
    by replace (length name + 1 - length name) with 1 by lia.
Qed.

Lemma parseEntries_multi (hs : gmap bytes bytes) (name c : bytes)
    (conts rest : list bytes) :
  headerNameSanity name = true ->
  starts_entry rest ->
  parseEntries hs ((name ++ B ":") :: map (cons " "%char) (c :: conts) ++ rest)
  = parseEntries (<[name := Join (c :: conts) nl]> hs) rest.
Proof.
  intros Hsane Hrest.
  pose proof (sane_no_byte name ":"%char Hsane (or_introl eq_refl)) as Hcolon.
  cbn [map app].
  rewrite (parseEntries_multiline _ _ _ _ (length name)).
  - rewrite take_app_length. cbn [drop].
    rewrite continuation_lines by done. by rewrite <- Join_cons.
  - apply (Index_single name [] ":"%char Hcolon).
  - by rewrite take_app_length.
  - rewrite length_app. simpl. lia.
  - done.
Qed.

Lemma continuation_span (ls : list bytes) :
  exists conts rest,
    ls = map (cons " "%char) conts ++ rest /\ starts_entry rest.
Proof.
  induction ls as [|l ls (conts & rest & -> & Hrest)].
  - by exists [], [].
  - destruct (isContinuation l) eqn:Hl.
    + destruct l as [|x l]; [done|]. simpl in Hl. apply Ascii.eqb_eq in Hl as ->.
      by exists (l :: conts), rest.
    + by exists [], (l :: map (cons " "%char) conts ++ rest).
Qed.

(** How [parseHeaders] reads a block of lines it accepts: entry by
    entry, each entry being one line [name: value], or a line [name:]
    and the continuation lines that follow it, up to the next line that is
    not a continuation line. *)
Lemma parseEntries_Ok_ind
    (P : gmap bytes bytes -> list bytes -> gmap bytes bytes -> Prop) :
  (forall hs, P hs [] hs) ->
  (forall hs name v rest hs',
     headerNameSanity name = true ->
     parseEntries (<[name := v]> hs) rest = Ok hs' ->
     P (<[name := v]> hs) rest hs' ->
     P hs ((name ++ B ": " ++ v) :: rest) hs') ->
  (forall hs name c conts rest hs',
     headerNameSanity name = true ->
     starts_entry rest ->
     parseEntries (<[name := Join (c :: conts) nl]> hs) rest = Ok hs' ->
     P (<[name := Join (c :: conts) nl]> hs) rest hs' ->
     P hs ((name ++ B ":") :: map (cons " "%char) (c :: conts) ++ rest) hs') ->
  forall lines hs hs', parseEntries hs lines = Ok hs' -> P hs lines hs'.
Proof.
  intros Hnil Hsingle Hmulti lines.
  assert (Hn : forall n lines, length lines <= n ->
            forall hs hs', parseEntries hs lines = Ok hs' -> P hs lines hs');
    [|by apply (Hn (length lines))].
  clear lines. induction n as [|n IH]; intros lines Hlen hs hs' H.
  { destruct lines; [|simpl in Hlen; lia]. injection H as <-. apply Hnil. }
  destruct lines as [|entry rest]; [injection H as <-; apply Hnil|].
  simpl in Hlen. cbn [parseEntries] in H.
  destruct (Index entry (B ":")) as [k|] eqn:Hk; [|discriminate].
  destruct (headerNameSanity (take k entry)) eqn:Hsane; [|discriminate].
  cbn [negb] in H.
  pose proof (Index_bound _ _ _ Hk) as Hb. cbn [length B] in Hb.
  change (length (B ":")) with 1 in Hb.
  apply Index_Some in Hk as [Hat _].
  apply HasPrefix_split in Hat; [|lia].
  change (length (B ":")) with 1 in Hat.
  destruct (k + 1 =? length entry) eqn:Hl.
  - (* a value on continuation lines *)
    apply Nat.eqb_eq in Hl.
    rewrite drop_ge, app_nil_r in Hat by lia.
    destruct rest as [|first rest']; [discriminate|].
    destruct (isContinuation first) eqn:Hf; [|discriminate].
    change (continuation (take k entry) hs (drop 1 first) rest' = Ok hs') in H.
    destruct first as [|x c]; [done|].
    simpl in Hf. apply Ascii.eqb_eq in Hf as ->. cbn [drop] in H.
    destruct (continuation_span rest') as (conts & rest'' & -> & Hrest).
    rewrite continuation_lines, <- Join_cons in H by done.
    rewrite Hat.
    apply (Hmulti hs (take k entry) c conts rest'' hs'); try done.
    apply IH; [|done]. simpl in Hlen. rewrite length_app in Hlen. lia.
  - (* a value on the line of the name *)
    destruct (bool_decide (entry !! (k + 1) = Some " "%char)) eqn:Hsp;
      [|discriminate].
    apply bool_decide_eq_true in Hsp. cbn [negb] in H.
    rewrite (drop_S _ _ _ Hsp) in Hat.
    replace (S (k + 1)) with (k + 1 + 1) in Hat by lia.
    rewrite Hat.
    apply (Hsingle hs (take k entry) (drop (k + 1 + 1) entry) rest hs');
      try done.
    apply IH; [lia|done].
Qed.

Lemma parseEntries_grows (lines : list bytes) (hs hs' : gmap bytes bytes) :
  parseEntries hs lines = Ok hs' ->
  dom hs ⊆ dom hs' /\ (lines <> [] -> hs' <> ∅).
Proof.
  revert lines hs hs'.
  apply (parseEntries_Ok_ind (fun hs lines hs' =>
           dom hs ⊆ dom hs' /\ (lines <> [] -> hs' <> ∅))).
  - done.
  - intros hs name v rest hs' _ _ [Hsub _]. rewrite dom_insert in Hsub.
    split.
    + intros k Hk. apply Hsub, elem_of_union. by right.
    + intros _ ->. rewrite dom_empty in Hsub.
      apply (not_elem_of_empty (C := gset bytes) name), Hsub, elem_of_union.
      left. by apply elem_of_singleton.
  - intros hs name c conts rest hs' _ _ _ [Hsub _]. rewrite dom_insert in Hsub.
    split.
    + intros k Hk. apply Hsub, elem_of_union. by right.
    + intros _ ->. rewrite dom_empty in Hsub.
      apply (not_elem_of_empty (C := gset bytes) name), Hsub, elem_of_union.
      left. by apply elem_of_singleton.
Qed.

Lemma entry_line_not_continuation (l : bytes) :
  entry_line l -> isContinuation l = false.
Proof. intros (name & rest & -> & Hsane & _). by apply sane_not_continuation. Qed.

Lemma parseEntries_grammar (lines : list bytes) (hs hs' : gmap bytes bytes) :
  parseEntries hs lines = Ok hs' ->
  Forall (fun l => isContinuation l = true \/ entry_line l) lines /\
  match lines with
  | [] => True
  | l :: _ => entry_line l
  end.
Proof.
  revert lines hs hs'.
  apply (parseEntries_Ok_ind (fun hs lines hs' =>
           Forall (fun l => isContinuation l = true \/ entry_line l) lines /\
           match lines with
           | [] => True
           | l :: _ => entry_line l
           end)).
  - done.
  - intros hs name v rest hs' Hsane _ [Hall _].
    assert (He : entry_line (name ++ B ": " ++ v)).
    { exists name, (" "%char :: v). split; [done|]. split; [done|]. eauto. }
    split; [|done]. constructor; [by right|done].
  - intros hs name c conts rest hs' Hsane _ _ [Hall _].
    assert (He : entry_line (name ++ B ":")).
    { exists name, []. split; [done|]. split; [done|]. by left. }
    split; [|done]. constructor; [by right|].
    apply Forall_app. split; [|done].
    apply Forall_map, Forall_forall. intros x _. by left.
Qed.

(** X6. Every line of a header block [parseHeaders] accepts is a
    continuation line (it starts with a space) or opens an entry: a name
    matching the name pattern, a colon, and then nothing or a space and a
    value. The first line opens an entry. *)
Theorem parseHeaders_line_grammar (head : bytes) (hs : gmap bytes bytes) :
  parseHeaders head = Ok hs ->
  (exists l ls, Split head "010"%char = l :: ls /\ entry_line l) /\
  Forall (fun l => isContinuation l = true \/ entry_line l)
    (Split head "010"%char).
Proof.
  unfold parseHeaders. destruct (utf8_Valid head); [|discriminate].
  cbn [negb]. intros [Hall Hfirst]%parseEntries_grammar.
  split; [|done].
  destruct (Split head "010"%char) as [|l ls] eqn:Hs;
    [by apply Split_nonempty in Hs|].
  by exists l, ls.
Qed.

Lemma parseHeaders_Ok_lines (head : bytes) (hs : gmap bytes bytes) :
  parseHeaders head = Ok hs ->
  Forall (fun l => l <> []) (Split head "010"%char) /\
  head <> [] /\
  Index (head ++ nl) nlnl = None /\
  hs <> ∅.
Proof.
  unfold parseHeaders. destruct (utf8_Valid head); [|discriminate].
  cbn [negb]. intros H.
  assert (Hlines : Forall (fun l => l <> []) (Split head "010"%char)).
  { apply parseEntries_grammar in H as [Hall _].
    eapply Forall_impl; [exact Hall|]. intros l [Hl|Hl] ->; [done|].
    destruct Hl as (name & rest & Hl & Hsane & _).
    symmetry in Hl. apply app_eq_nil in Hl as [-> _]. done. }
  split; [done|]. split; [|split].
  - intros ->. by apply Forall_cons in Hlines as [? _].
  - rewrite <- (Join_Split head "010"%char).
    apply no_blank_line; [apply Split_nonempty|apply Split_lines|done].
  - apply parseEntries_grows in H as [_ H]. apply H, Split_nonempty.
Qed.

(** X7. [parseHeaders] accepts no header block with an empty line: not the
    empty block, not a block that starts or ends with a newline, not a
    block with two newlines in a row. The headers it returns are never the
    empty map. *)
Theorem parseHeaders_rejects_empty_lines (head : bytes)
    (hs : gmap bytes bytes) :
  parseHeaders head = Ok hs ->
  Forall (fun l => l <> []) (Split head "010"%char) /\
  head <> [] /\
  Index (head ++ nl) nlnl = None /\
  hs <> ∅.
Proof. apply parseHeaders_Ok_lines. Qed.

(** *** Names and values of parsed headers *)

Lemma utf8_Valid_ascii_app (a b : bytes) :
  Forall (fun c => (N_of_ascii c <? 128)%N = true) a ->
  utf8_Valid (a ++ b) = utf8_Valid b.
Proof.
  induction 1 as [|c a Hc _ IH]; [done|]. cbn [app utf8_Valid]. by rewrite Hc.
Qed.

Lemma utf8_Valid_split_le (n : nat) (a b : bytes) :
  length a <= n ->
  utf8_Valid (a ++ "010"%char :: b) = true ->
  utf8_Valid a = true /\ utf8_Valid b = true.
Proof.
  assert (Hnl : forall lo hi, (128 <= lo)%N -> byte_in lo hi "010"%char = false).
  { intros lo hi Hlo. destruct (byte_in lo hi "010"%char) eqn:Hb; [|done].
    by apply byte_in_high_not_nl in Hb. }
  assert (Hsec : forall c0, utf8_second c0 "010"%char = false).
  { intros c0. destruct (utf8_second c0 "010"%char) eqn:Hb; [|done].
    by apply utf8_second_not_nl in Hb. }
  revert a. induction n as [|n IH]; intros a Hlen Hv.
  { destruct a; [|simpl in Hlen; lia]. done. }
  destruct a as [|c0 r]; [done|]. simpl in Hlen.
  cbn [app utf8_Valid] in Hv |- *.
  destruct (N_of_ascii c0 <? 128)%N; [apply IH; [lia|done]|].
  destruct (byte_in 194 223 c0).
  { destruct r as [|c1 r]; cbn [app] in Hv.
    - rewrite Hnl in Hv by lia. done.
    - apply andb_true_iff in Hv as [H1 Hv]. rewrite H1.
      simpl in Hlen. apply IH; [lia|done]. }
  destruct (byte_in 224 239 c0).
  { destruct r as [|c1 [|c2 r]]; cbn [app] in Hv.
    - destruct b; [done|]. by rewrite Hsec in Hv.
    - rewrite (Hnl 128%N) in Hv by lia. by rewrite andb_false_r in Hv.
    - apply andb_true_iff in Hv as [[H1 H2]%andb_true_iff Hv]. rewrite H1, H2.
      simpl in Hlen. apply IH; [lia|done]. }
  destruct (byte_in 240 244 c0); [|done].
  destruct r as [|c1 [|c2 [|c3 r]]]; cbn [app] in Hv.
  - destruct b as [|? [|? ?]]; [done..|]. by rewrite Hsec in Hv.
  - destruct b; [done|]. rewrite (Hnl 128%N) in Hv by lia.
    by rewrite andb_false_r in Hv.
  - rewrite (Hnl 128%N) in Hv by lia. by rewrite andb_false_r in Hv.
  - apply andb_true_iff in Hv as [[[H1 H2]%andb_true_iff H3]%andb_true_iff Hv].
    rewrite H1, H2, H3. simpl in Hlen. apply IH; [lia|done].
Qed.

Lemma utf8_Valid_Join (lines : list bytes) :
  utf8_Valid (Join lines nl) = true <->
  Forall (fun l => utf8_Valid l = true) lines.
Proof.
  induction lines as [|x [|y rest] IH].
  - done.
  - cbn [Join]. split; [by repeat constructor|]. by intros [? _]%Forall_cons.
  - change (Join (x :: y :: rest) nl)
      with (x ++ "010"%char :: Join (y :: rest) nl).
    rewrite (Forall_cons _ x), <- IH. split.
    + by apply (utf8_Valid_split_le (length x)).
    + intros [Hx Hr]. by apply utf8_Valid_app.
Qed.

Lemma sane_ascii (name : bytes) :
  headerNameSanity name = true ->
  Forall (fun c => (N_of_ascii c <? 128)%N = true) name.
Proof.
  intros [Hall _]%headerNameSanity_chars.
  eapply Forall_impl; [exact Hall|]. by intros c [? _]%name_char_ascii.
Qed.

Lemma parseEntries_sane_valid (lines : list bytes) (hs hs' : gmap bytes bytes) :
  parseEntries hs lines = Ok hs' ->
  Forall (fun l => utf8_Valid l = true) lines ->
  map_Forall (fun name v =>
    headerNameSanity name = true /\ utf8_Valid v = true) hs ->
  map_Forall (fun name v =>
    headerNameSanity name = true /\ utf8_Valid v = true) hs'.
Proof.
  revert lines hs hs'.
  apply (parseEntries_Ok_ind (fun hs lines hs' =>
    Forall (fun l => utf8_Valid l = true) lines ->
    map_Forall (fun name v =>
      headerNameSanity name = true /\ utf8_Valid v = true) hs ->
    map_Forall (fun name v =>
      headerNameSanity name = true /\ utf8_Valid v = true) hs')).
  - done.
  - intros hs name v rest hs' Hsane _ IH [Hl Hrest]%Forall_cons Hhs.
    apply IH; [done|]. apply map_Forall_insert_2; [|done].
    split; [done|].
    rewrite utf8_Valid_ascii_app in Hl by by apply sane_ascii.
    change (B ": " ++ v) with ([":"%char; " "%char] ++ v) in Hl.
    rewrite utf8_Valid_ascii_app in Hl by by repeat constructor.
    done.
  - intros hs name c conts rest hs' Hsane _ _ IH [_ Hrest]%Forall_cons Hhs.
    apply Forall_app in Hrest as [Hconts Hrest].
    apply IH; [done|]. apply map_Forall_insert_2; [|done].
    split; [done|]. apply utf8_Valid_Join.
    apply Forall_map in Hconts.
    eapply Forall_impl; [exact Hconts|]. intros l Hl. exact Hl.
Qed.

(** X8. Every header [parseHeaders] returns has a name matching the name
    pattern and a value that is valid UTF-8. *)
Theorem parseHeaders_names_and_values (head : bytes) (hs : gmap bytes bytes)
    (name v : bytes) :
  parseHeaders head = Ok hs ->
  hs !! name = Some v ->
  headerNameSanity name = true /\ utf8_Valid v = true.
Proof.
  unfold parseHeaders. destruct (utf8_Valid head) eqn:Hvalid; [|discriminate].
  cbn [negb]. intros H Hv.
  eapply parseEntries_sane_valid in H; [by apply (H name v)| |done].
  apply utf8_Valid_Join. change nl with ["010"%char]. by rewrite Join_Split.
Qed.

(** *** Header blocks put together *)

Lemma parseEntries_app (l1 l2 : list bytes) (hs hs1 : gmap bytes bytes) :
  parseEntries hs l1 = Ok hs1 ->
  starts_entry l2 ->
  parseEntries hs (l1 ++ l2) = parseEntries hs1 l2.
Proof.
  intros H Hl2. revert l1 hs hs1 H.
  apply (parseEntries_Ok_ind (fun hs l1 hs1 =>
           parseEntries hs (l1 ++ l2) = parseEntries hs1 l2)).
  - done.
  - intros hs name v rest hs' Hsane _ IH.
    rewrite <- app_comm_cons, parseEntries_single by done. exact IH.
  - intros hs name c conts rest hs' Hsane Hrest _ IH.
    rewrite <- app_comm_cons, <- app_assoc, parseEntries_multi; [done..|].
    destruct rest; [exact Hl2|exact Hrest].
Qed.

Lemma parseEntries_union (lines : list bytes) (hs hs' m : gmap bytes bytes) :
  parseEntries hs lines = Ok hs' ->
  parseEntries (hs ∪ m) lines = Ok (hs' ∪ m).
Proof.
  intros H. revert lines hs hs' H.
  apply (parseEntries_Ok_ind (fun hs lines hs' =>
           parseEntries (hs ∪ m) lines = Ok (hs' ∪ m))).
  - done.
  - intros hs name v rest hs' Hsane _ IH.
    rewrite parseEntries_single by done. by rewrite insert_union_l.
  - intros hs name c conts rest hs' Hsane Hrest _ IH.
    rewrite parseEntries_multi by done. by rewrite insert_union_l.
Qed.

(** X9. Two header blocks that [parseHeaders] accepts, put one after the
    other with a newline in between, are accepted as one block; its headers
    are those of both, a name in both having the value of the second block:
    of two entries of the same name the later one wins. *)
Theorem parseHeaders_append (h1 h2 : bytes) (m1 m2 : gmap bytes bytes) :
  parseHeaders h1 = Ok m1 ->
  parseHeaders h2 = Ok m2 ->
  parseHeaders (h1 ++ nl ++ h2) = Ok (m2 ∪ m1).
Proof.
  unfold parseHeaders.
  destruct (utf8_Valid h1) eqn:Hv1; [|discriminate].
  destruct (utf8_Valid h2) eqn:Hv2; [|discriminate].
  cbn [negb]. intros H1 H2.
  rewrite (utf8_Valid_app h1 (nl ++ h2)); [|done|by apply (utf8_Valid_app nl)].
  cbn [negb]. change (nl ++ h2) with ("010"%char :: h2).
  rewrite Split_app.
  rewrite (parseEntries_app _ _ _ _ H1).
  - apply (parseEntries_union _ _ _ m1) in H2.
    by rewrite (left_id_L ∅ (∪)) in H2.
  - apply parseEntries_grammar in H2 as [_ Hfirst].
    destruct (Split h2 "010"%char); [done|].
    by apply entry_line_not_continuation.
Qed.

(** *** The two forms of a value without newline *)

(** X10. A value without newline may stand on the line of its name or alone
    on one continuation line: [parseHeaders] reads the same header from
    both forms. ([writeHeader] writes the first.) *)
Theorem parseHeaders_continuation_of_one_line (name v : bytes) :
  headerNameSanity name = true ->
  utf8_Valid v = true ->
  ContainsByte v "010"%char = false ->
  parseHeaders (name ++ B ":" ++ nl ++ B " " ++ v) = Ok {[name := v]} /\
  parseHeaders (name ++ B ": " ++ v) = Ok {[name := v]}.
Proof.
  intros Hsane Hvalid Hnl.
  pose proof (sane_no_byte name "010"%char Hsane
                (or_intror (or_intror eq_refl))) as Hname.
  pose proof (utf8_Valid_sane name Hsane) as Hnv.
  split.
  - replace (name ++ B ":" ++ nl ++ B " " ++ v)
      with (Join [name ++ B ":"; " "%char :: v] nl)
      by (cbn [Join]; by rewrite <- app_assoc).
    rewrite parseHeaders_lines.
    + rewrite (parseEntries_multi ∅ name v [] []) by done.
      cbn [Join parseEntries]. by rewrite insert_empty.
    + done.
    + repeat constructor.
      * rewrite ContainsByte_app, Hname. done.
      * change (ContainsByte (" "%char :: v) "010"%char)
          with (Ascii.eqb "010"%char " "%char || ContainsByte v "010"%char).
        by rewrite Hnl.
    + apply utf8_Valid_Join. repeat constructor.
      * by apply utf8_Valid_app.
      * by apply (utf8_Valid_app (B " ")).
  - change (name ++ B ": " ++ v) with (Join [name ++ B ": " ++ v] nl).
    rewrite parseHeaders_lines.
    + rewrite parseEntries_single by done.
      cbn [parseEntries]. by rewrite insert_empty.
    + done.
    + repeat constructor. rewrite !ContainsByte_app, Hname, Hnl. done.
    + cbn [Join]. apply utf8_Valid_app; [done|].
      by apply (utf8_Valid_app (B ": ")).
Qed.

(** *** Parsing a block of headers [writeHeader] wrote *)

(** X11. The headers of the names [names], written one after the other by
    [writeHeader], are parsed back by [parseHeaders] (past the newline that
    [writeHeader] puts first): each name has the value it had in the map,
    the empty string for a name absent from it. The names match the name
    pattern and the values written are valid UTF-8. *)
Theorem writeHeader_block_round_trip (headers : gmap bytes bytes)
    (names : list bytes) :
  names <> [] ->
  Forall (fun n => headerNameSanity n = true) names ->
  Forall (fun n => utf8_Valid (headers !!! n) = true) names ->
  exists parsed,
    parseHeaders
      (drop 1 (foldl (fun buf k => writeHeader buf headers k) [] names))
    = Ok parsed /\
    forall k, parsed !! k
              = if decide (k ∈ names) then Some (headers !!! k) else None.
Proof.
  intros Hne Hsane Hvalid.
  exists (foldl (fun m n => <[n := headers !!! n]> m) ∅ names).
  split; [|intros k; by rewrite foldl_insert_lookup, lookup_empty].
  rewrite foldl_writeHeader. cbn [app].
  destruct names as [|n names]; [done|]. cbn [map concat].
  rewrite entry_text. change (drop 1 ((nl ++ ?x) ++ ?y)) with (x ++ y).
  rewrite <- Join_entries by apply entry_lines_nonempty.
  change (entry_lines n (headers !!! n)
          ++ concat (map (fun n => entry_lines n (headers !!! n)) names))
    with (lines_of (fun n => headers !!! n) (n :: names)).
  pose proof (lines_of_no_nl (fun n => headers !!! n) _ Hsane) as Hnonl.
  assert (Hlines : lines_of (fun n => headers !!! n) (n :: names) <> []).
  { unfold lines_of. cbn [map concat].
    intros [H _]%app_eq_nil. by apply entry_lines_nonempty in H. }
  rewrite parseHeaders_lines; [|done|done|].
  - by rewrite (parseEntries_names (fun n => headers !!! n)).
  - apply Forall_cons in Hsane as [Hn Hsane].
    apply Forall_cons in Hvalid as [Hvn Hvalid].
    unfold lines_of. cbn [map concat].
    rewrite Join_entries by apply entry_lines_nonempty.
    apply utf8_Valid_app; [|by apply utf8_Valid_entries].
    pose proof (utf8_Valid_entry headers n Hn Hvn) as He.
    rewrite entry_text in He. exact He.
Qed.

(** *** What the single-shot [Decode] accepts *)

Lemma Decode_Ok_inv (s : bytes) (a : Assertion) :
  Decode typeCheck s = Ok a ->
  exists i head body,
    LastIndex s nlnl = Some i /\
    (match Index (take i s) nlnl with
     | None => body = [] /\ head = take i s
     | Some j => body = drop (j + 2) (take i s) /\ head = take j (take i s)
     end) /\
    parseHeaders head = Ok (assertionBase.headers a) /\
    Assemble typeCheck (assertionBase.headers a) body (take i s)
      (drop (i + 2) s) = Ok a.
Proof.
  unfold Decode. intros H.
  destruct (LastIndex s nlnl) as [i|] eqn:Hi; [|discriminate].
  exists i.
  destruct (Index (take i s) nlnl) as [j|] eqn:Hj.
  - apply bind_Ok in H as (hs & Hparse%wrapErr_Ok & H).
    pose proof H as (rev & ? & ? & -> & _)%Assemble_Ok_inv.
    by exists (take j (take i s)), (drop (j + 2) (take i s)).
  - apply bind_Ok in H as (hs & Hparse%wrapErr_Ok & H).
    pose proof H as (rev & ? & ? & -> & _)%Assemble_Ok_inv.
    by exists (take i s), [].
Qed.

Lemma HasSuffix_app_r (x y z : bytes) :
  length z <= length y -> HasSuffix (x ++ y) z = HasSuffix y z.
Proof.
  intros Hlen. unfold HasSuffix. rewrite rev_app_distr.
  apply HasPrefix_app_l. by rewrite !length_rev.
Qed.

Lemma LastIndex_tail (s : bytes) (i : nat) :
  LastIndex s nlnl = Some i ->
  s = take i s ++ nlnl ++ drop (i + 2) s /\
  Index (nl ++ drop (i + 2) s) nlnl = None.
Proof.
  intros (Hat & Hle & Hlast)%LastIndex_Some.
  pose proof (HasPrefix_split _ _ _ Hat Hle) as Hs.
  change (length nlnl) with 2 in Hs. split; [done|].
  assert (Hd : drop (i + 1) s = nl ++ drop (i + 2) s).
  { rewrite Hs at 1. rewrite drop_app_ge by (rewrite length_take; lia).
    rewrite length_take_le by lia.
    by replace (i + 1 - i) with 1 by lia. }
  apply Index_None. intros j. rewrite <- Hd, drop_drop.
  destruct (decide (i + 1 + j <= length s)) as [Hj|Hj].
  - apply Hlast; lia.
  - rewrite drop_ge; [done|lia].
Qed.

(** The parts of an input [Decode] accepts. *)
Lemma Decode_parts (s : bytes) (a : Assertion) :
  Decode typeCheck s = Ok a ->
  exists head,
    s = assertionBase.content a ++ nlnl ++ assertionBase.signature a /\
    assertionBase.signature a <> [] /\
    Index (nl ++ assertionBase.signature a) nlnl = None /\
    parseHeaders head = Ok (assertionBase.headers a) /\
    checkInteger (assertionBase.headers a) (B "body-length") 0%Z
      = Ok (Z.of_nat (length (assertionBase.body a))) /\
    Assemble typeCheck (assertionBase.headers a) (assertionBase.body a)
      (assertionBase.content a) (assertionBase.signature a) = Ok a /\
    ((assertionBase.content a = head /\ assertionBase.body a = []) \/
     assertionBase.content a = head ++ nlnl ++ assertionBase.body a).
Proof.
  intros (i & head & body & Hi & Hsplit & Hparse & Hasm)%Decode_Ok_inv.
  exists head. pose proof Hasm as Hasm'.
  apply Assemble_Ok_inv in Hasm
    as (rev & t & auth & Ha & Hlen & _ & _ & _ & _ & Hsig & _).
  destruct a as [hs abody arev acontent asig].
  cbn [assertionBase.headers assertionBase.body assertionBase.content
       assertionBase.signature] in *.
  injection Ha as -> -> -> ->.
  apply LastIndex_tail in Hi as [Hs Hnone].
  do 5 (split; [done|]). split; [done|].
  destruct (Index (take i s) nlnl) as [j|] eqn:Hj.
  - right. destruct Hsplit as [-> ->].
    pose proof (Index_bound _ _ _ Hj) as Hb. change (length nlnl) with 2 in Hb.
    apply Index_Some in Hj as [Hat _].
    apply (HasPrefix_split _ _ _ Hat). lia.
  - left. by destruct Hsplit as [-> ->].
Qed.

(** X12. The signature of an assertion [Decode] returns is what follows the
    last pair of newlines of the input: it is not empty, it does not start
    with a newline and it holds no pair of newlines. An input that ends in
    a pair of newlines is never accepted. *)
Theorem Decode_signature_shape (s : bytes) (a : Assertion) :
  Decode typeCheck s = Ok a ->
  assertionBase.signature a <> [] /\
  Index (nl ++ assertionBase.signature a) nlnl = None /\
  HasSuffix s nlnl = false.
Proof.
  intros (head & Hs & Hsig & Hnone & _)%Decode_parts.
  split; [done|]. split; [done|].
  assert (Hsl : 0 < length (assertionBase.signature a))
    by (destruct (assertionBase.signature a); [done|simpl; lia]).
  rewrite Hs. change nlnl with (nl ++ nl) at 1.
  rewrite <- app_assoc, (app_assoc _ nl).
  rewrite HasSuffix_app_r by (rewrite length_app; simpl; lia).
  destruct (HasSuffix _ nlnl) eqn:Hsuf; [|done].
  apply HasSuffix_true in Hsuf as [r Hr].
  pose proof (proj1 (Index_None _ _) Hnone (length r)) as Hj.
  by rewrite Hr, drop_app_length in Hj.
Qed.

(** X13. The content of an assertion [Decode] returns starts with the
    header block its headers were parsed from. Either the content holds no
    pair of newlines: it is the header block, and the body is empty. Or the
    header block ends at the first pair of newlines of the content and the
    body is all that follows this pair. In both cases the body has the
    length the [body-length] header declares (0 without one). *)
Theorem Decode_content_split (s : bytes) (a : Assertion) :
  Decode typeCheck s = Ok a ->
  exists head,
    parseHeaders head = Ok (assertionBase.headers a) /\
    checkInteger (assertionBase.headers a) (B "body-length") 0%Z
      = Ok (Z.of_nat (length (assertionBase.body a))) /\
    ((Index (assertionBase.content a) nlnl = None /\
      assertionBase.content a = head /\ assertionBase.body a = [])
     \/
     (Index (assertionBase.content a) nlnl = Some (length head) /\
      assertionBase.content a = head ++ nlnl ++ assertionBase.body a)).
Proof.
  intros (i & head & body & Hi & Hsplit & Hparse & Hasm)%Decode_Ok_inv.
  exists head. split; [done|].
  apply Assemble_Ok_inv in Hasm
    as (rev & t & auth & -> & Hlen & _).
  cbn [assertionBase.headers assertionBase.body assertionBase.content] in *.
  split; [done|].
  destruct (Index (take i s) nlnl) as [j|] eqn:Hj.
  - right. destruct Hsplit as [-> ->].
    pose proof (Index_bound _ _ _ Hj) as Hb. change (length nlnl) with 2 in Hb.
    apply Index_Some in Hj as [Hat _].
    rewrite length_take_le by lia. split; [done|].
    apply (HasPrefix_split _ _ _ Hat). lia.
  - left. by destruct Hsplit as [-> ->].
Qed.

(** *** The scan for a delimiter *)

Lemma Index_in_window (u delim : bytes) (i l n : nat) :
  Index u delim = Some i -> l <= i -> i + length delim <= n ->
  Index (drop l (take n u)) delim = Some (i - l).
Proof.
  intros [Hat Hbefore]%Index_Some Hl Hn. apply Index_Some. split.
  - rewrite drop_drop. replace (l + (i - l)) with i by lia.
    by rewrite HasPrefix_drop_take.
  - intros j Hj. rewrite drop_drop, HasPrefix_drop_take by lia.
    apply Hbefore. lia.
Qed.

Lemma Index_past_window (u delim : bytes) (i l n : nat) :
  delim <> [] ->
  Index u delim = Some i -> n < i + length delim ->
  Index (drop l (take n u)) delim = None.
Proof.
  intros Hne [Hat Hbefore]%Index_Some Hn. apply Index_None. intros j.
  rewrite drop_drop.
  destruct (HasPrefix (drop (l + j) (take n u)) delim) eqn:Hp; [|done].
  exfalso.
  assert (Hb : l + j + length delim <= n).
  { apply HasPrefix_true in Hp as [r Hr]. apply (f_equal length) in Hr.
    rewrite length_drop, length_take, length_app in Hr.
    destruct delim; [done|]. simpl in *. lia. }
  rewrite HasPrefix_drop_take in Hp by done.
  destruct (decide (l + j < i)) as [Hlt|Hge]; [by rewrite Hbefore in Hp|].
  lia.
Qed.

(** A scan whose sizes reach the end of the first occurrence of the
    delimiter returns the input up to and including this occurrence. *)
Lemma readUntil_loop_found (delim : bytes) (maxSize : Z) (k : nat) :
  delim <> [] ->
  forall (fuel : nat) (last size : Z) (d : Decoder.t) (i : nat),
  Decoder_wf d -> (0 < size)%Z ->
  Index (Decoder.unread d) delim = Some i ->
  Z.to_nat last <= i ->
  k < fuel ->
  (Z.of_nat (i + length delim) <= size * 2 ^ Z.of_nat k)%Z ->
  k = 0 \/ (size * 2 ^ Z.of_nat k <= maxSize)%Z ->
  exists d',
    readUntil_loop fuel delim maxSize last size d
      = Some ((take (i + length delim) (Decoder.unread d), None), d').
Proof.
  intros Hne.
  assert (Hnow : forall (fuel : nat) (last size : Z) (d : Decoder.t) (i : nat),
    Index (Decoder.unread d) delim = Some i ->
    Z.to_nat last <= i ->
    i + length delim <= Z.to_nat size ->
    exists d',
      readUntil_loop (S fuel) delim maxSize last size d
        = Some ((take (i + length delim) (Decoder.unread d), None), d')).
  { intros fuel last size d i Hidx Hlast Hlen. cbn [readUntil_loop].
    pose proof (peek_buf size d) as Hbuf.
    destruct (peek size d) as [[buf0 err0] d0]. simpl in Hbuf.
    rewrite Hbuf, (Index_in_window _ _ i) by done.
    replace (Z.to_nat last + (i - Z.to_nat last) + length delim)
      with (i + length delim) by lia.
    rewrite take_take.
    replace (Init.Nat.min (i + length delim) (Z.to_nat size))
      with (i + length delim) by lia.
    by eexists. }
  induction k as [|k IH];
    intros fuel last size d i Hwf Hsize Hidx Hlast Hfuel Hlen Hmax;
    (destruct fuel as [|fuel]; [lia|]).
  { apply Hnow; [done|done|]. rewrite Z.mul_1_r in Hlen. lia. }
  destruct (decide (i + length delim <= Z.to_nat size)) as [Hin|Hout];
    [by apply Hnow|].
  cbn [readUntil_loop].
  pose proof (peek_buf size d) as Hbuf.
  pose proof (peek_buf_b size d) as Hbufb.
  pose proof (peek_unread size d) as Hun.
  pose proof (peek_wf size d Hwf) as Hwf0.
  pose proof (peek_err size d) as Herr.
  pose proof (Index_bound _ _ _ Hidx) as Hb.
  destruct (peek size d) as [[buf0 err0] d0]. simpl in *.
  rewrite Hbuf, (Index_past_window _ _ i) by (done || lia).
  rewrite <- Hbuf.
  assert (Hret : bool_decide (err0 <> None) && (length buf0 =? Buffered d0)
                 = false).
  { destruct err0 as [e|]; [|done].
    unfold Decoder_wf in Hwf0. rewrite <- Herr in Hwf0.
    destruct Hwf0 as [_ Hrd].
    assert (Hbd : Decoder.b d0 = Decoder.unread d).
    { rewrite <- Hun. unfold Decoder.unread. by rewrite Hrd, app_nil_r. }
    apply andb_false_iff. right. apply Nat.eqb_neq.
    unfold Buffered. rewrite Hbd, Hbuf, length_take. lia. }
  rewrite Hret.
  rewrite Nat2Z.inj_succ, Z.pow_succ_r in Hlen, Hmax by lia.
  destruct Hmax as [?|Hmax]; [done|].
  assert (0 < 2 ^ Z.of_nat k)%Z by (apply Z.pow_pos_nonneg; lia).
  destruct (maxSize <? size * 2)%Z eqn:Hlt; [apply Z.ltb_lt in Hlt; nia|].
  destruct (IH fuel (size - Z.of_nat (length delim) + 1)%Z (size * 2)%Z d0 i)
    as [d' Hrun]; try done; try lia.
  - by rewrite Hun.
  - rewrite Hun in Hrun. by exists d'.
Qed.

Lemma within_reach_fuel (d : Decoder.t) (maxSize : Z) (k : nat) :
  (0 < Decoder.initialBufSize d)%Z ->
  k = 0 \/ (Decoder.initialBufSize d * 2 ^ Z.of_nat k <= maxSize)%Z ->
  k < S (Z.to_nat (Z.log2 maxSize)).
Proof.
  intros Hinit [->|Hmax]; [lia|].
  assert (0 < 2 ^ Z.of_nat k)%Z by (apply Z.pow_pos_nonneg; lia).
  assert (2 ^ Z.of_nat k <= maxSize)%Z as Hpow by nia.
  apply Z.log2_le_pow2 in Hpow; lia.
Qed.

Lemma readUntil_found (delim : bytes) (maxSize : Z) (d : Decoder.t) (i : nat) :
  delim <> [] -> Decoder_wf d -> (0 < Decoder.initialBufSize d)%Z ->
  Index (Decoder.unread d) delim = Some i ->
  within_reach d maxSize (i + length delim) ->
  exists d',
    readUntil delim maxSize d
      = Some ((take (i + length delim) (Decoder.unread d), None), d') /\
    Decoder.unread d' = drop (i + length delim) (Decoder.unread d) /\
    same_config d d' /\ Decoder_wf d'.
Proof.
  intros Hne Hwf Hinit Hidx (k & Hlen & Hmax).
  destruct (readUntil_loop_found delim maxSize k Hne
              (S (Z.to_nat (Z.log2 maxSize))) 0%Z (Decoder.initialBufSize d) d i)
    as [d' Hrun]; try done.
  { simpl. lia. }
  { by apply (within_reach_fuel d). }
  exists d'. split; [done|].
  apply readUntil_spec in Hrun as (Hcfg & Hwf' & Hun & _); [|done|done].
  split; [|done].
  rewrite <- (take_drop (i + length delim) (Decoder.unread d)) in Hun at 1.
  by apply app_inv_head in Hun.
Qed.

(** X14. [readUntil] on an input that holds the delimiter, the end of its
    first occurrence being within reach of the scan: it returns the input
    up to and including this occurrence, without error, and has consumed
    these bytes and no other. *)
Theorem readUntil_returns_first_occurrence (delim : bytes) (maxSize : Z)
    (d : Decoder.t) (i : nat) :
  delim <> [] -> Decoder_wf d -> (0 < Decoder.initialBufSize d)%Z ->
  Index (Decoder.unread d) delim = Some i ->
  within_reach d maxSize (i + length delim) ->
  exists d',
    readUntil delim maxSize d
      = Some ((take (i + length delim) (Decoder.unread d), None), d') /\
    HasSuffix (take (i + length delim) (Decoder.unread d)) delim = true /\
    Decoder.unread d' = drop (i + length delim) (Decoder.unread d).
Proof.
  intros Hne Hwf Hinit Hidx Hreach.
  destruct (readUntil_found _ _ _ _ Hne Hwf Hinit Hidx Hreach)
    as (d' & Hrun & Hun & _).
  exists d'. split; [done|]. split; [|done].
  pose proof (Index_bound _ _ _ Hidx) as Hb.
  apply Index_Some in Hidx as [Hat _].
  apply HasPrefix_split in Hat; [|lia].
  apply HasSuffix_true. exists (take i (Decoder.unread d)).
  rewrite Hat at 1. rewrite app_assoc, take_app_length'; [done|].
  rewrite length_app, length_take. lia.
Qed.

(** A scan that meets no delimiter up to its last size, on an input
    that goes on beyond this size, ends on the size limit and leaves the
    input as it was. *)
Lemma readUntil_loop_exceeds (delim : bytes) (maxSize : Z) (k : nat) :
  forall (fuel : nat) (last size : Z) (d : Decoder.t),
  Decoder_wf d -> (0 < size)%Z ->
  k < fuel ->
  Index (take (Z.to_nat (size * 2 ^ Z.of_nat k)) (Decoder.unread d)) delim
    = None ->
  Z.to_nat (size * 2 ^ Z.of_nat k) < length (Decoder.unread d) ->
  (size * 2 ^ Z.of_nat k <= maxSize < 2 * (size * 2 ^ Z.of_nat k))%Z ->
  exists d',
    readUntil_loop fuel delim maxSize last size d
      = Some (([], Some (Errorf
                 "maximum size exceeded while looking for delimiter %q"
                 [AStr delim])), d') /\
    Decoder.unread d' = Decoder.unread d.
Proof.
  induction k as [|k IH]; intros fuel last size d Hwf Hsize Hfuel Hnone Hlen Hmax;
    (destruct fuel as [|fuel]; [lia|]); cbn [readUntil_loop];
    pose proof (peek_buf size d) as Hbuf;
    pose proof (peek_unread size d) as Hun;
    pose proof (peek_wf size d Hwf) as Hwf0;
    pose proof (peek_err size d) as Herr;
    destruct (peek size d) as [[buf0 err0] d0]; simpl in *.
  - change (2 ^ Z.of_nat 0)%Z with 1%Z in *.
    rewrite Z.mul_1_r in Hnone, Hlen, Hmax. subst buf0.
    assert (Hidx : Index (drop (Z.to_nat last)
                            (take (Z.to_nat size) (Decoder.unread d))) delim
                   = None).
    { pose proof (Index_None_slice _ delim (Z.to_nat last) (Z.to_nat size) Hnone)
        as Hs.
      by rewrite take_take, Nat.min_id in Hs. }
    rewrite Hidx.
    assert (Hret : bool_decide (err0 <> None)
                   && (length (take (Z.to_nat size) (Decoder.unread d))
                       =? Buffered d0) = false).
    { destruct err0 as [e|]; [|done].
      unfold Decoder_wf in Hwf0. rewrite <- Herr in Hwf0.
      destruct Hwf0 as [_ Hrd].
      assert (Hbd : Decoder.b d0 = Decoder.unread d).
      { rewrite <- Hun. unfold Decoder.unread. by rewrite Hrd, app_nil_r. }
      apply andb_false_iff. right. apply Nat.eqb_neq.
      unfold Buffered. rewrite Hbd, length_take. lia. }
    rewrite Hret.
    assert ((maxSize <? size * 2)%Z = true) as -> by (apply Z.ltb_lt; lia).
    by exists d0.
  - assert (0 < 2 ^ Z.of_nat k)%Z by (apply Z.pow_pos_nonneg; lia).
    rewrite Nat2Z.inj_succ, Z.pow_succ_r in Hnone, Hlen, Hmax by lia.
    assert (Hsub : take (Z.to_nat size) (Decoder.unread d)
                   = take (Z.to_nat size)
                       (take (Z.to_nat (size * (2 * 2 ^ Z.of_nat k)))
                          (Decoder.unread d))).
    { rewrite take_take. f_equal. nia. }
    subst buf0. rewrite Hsub, (Index_None_slice _ _ _ _ Hnone), <- Hsub.
    assert (Hret : bool_decide (err0 <> None)
                   && (length (take (Z.to_nat size) (Decoder.unread d))
                       =? Buffered d0) = false).
    { destruct err0 as [e|]; [|done].
      unfold Decoder_wf in Hwf0. rewrite <- Herr in Hwf0.
      destruct Hwf0 as [_ Hrd].
      assert (Hbd : Decoder.b d0 = Decoder.unread d).
      { rewrite <- Hun. unfold Decoder.unread. by rewrite Hrd, app_nil_r. }
      apply andb_false_iff. right. apply Nat.eqb_neq.
      unfold Buffered. rewrite Hbd, length_take. nia. }
    rewrite Hret.
    assert ((maxSize <? size * 2)%Z = false) as -> by (apply Z.ltb_ge; nia).
    replace (size * (2 * 2 ^ Z.of_nat k))%Z with (size * 2 * 2 ^ Z.of_nat k)%Z
      in Hnone, Hlen, Hmax by lia.
    destruct (IH fuel (size - Z.of_nat (length delim) + 1)%Z (size * 2)%Z d0)
      as (d' & Hrun & Hd'); try done; try lia.
    + by rewrite Hun.
    + by rewrite Hun.
    + exists d'. split; [done|]. by rewrite Hd'.
Qed.

(** *** Reading a given number of bytes *)

Lemma readExact_full (size : Z) (d : Decoder.t) :
  Decoder_wf d ->
  Z.to_nat size <= length (Decoder.unread d) ->
  exists d',
    readExact size d = ((take (Z.to_nat size) (Decoder.unread d), None), d') /\
    Decoder.unread d' = drop (Z.to_nat size) (Decoder.unread d) /\
    same_config d d' /\ Decoder_wf d'.
Proof.
  intros Hwf Hlen.
  assert (Hrun : exists d',
    readExact size d = ((take (Z.to_nat size) (Decoder.unread d), None), d')).
  { unfold readExact. pose proof (peek_buf size d) as Hbuf.
    destruct (peek size d) as [[buf0 err0] d0]. simpl in Hbuf. subst buf0.
    rewrite length_take_le, Nat.eqb_refl by done. by eexists. }
  destruct Hrun as [d' Hrun]. exists d'. split; [done|].
  apply readExact_Ok in Hrun as (_ & Hun & Hcfg & Hwf'); [|done].
  split; [|done].
  rewrite <- (take_drop (Z.to_nat size) (Decoder.unread d)) in Hun at 1.
  by apply app_inv_head in Hun.
Qed.

Lemma readExact_short (size : Z) (d : Decoder.t) :
  Decoder_wf d ->
  length (Decoder.unread d) < Z.to_nat size ->
  exists d',
    readExact size d
      = ((Decoder.unread d, Some (shortRead (Decoder.rd_err d))), d') /\
    Decoder.unread d' = [] /\ same_config d d' /\ Decoder_wf d'.
Proof.
  intros Hwf Hlen. unfold readExact.
  pose proof (peek_buf size d) as Hbuf.
  pose proof (peek_unread size d) as Hun.
  pose proof (peek_wf size d Hwf) as Hwf0.
  pose proof (peek_config size d) as Hcfg.
  pose proof (peek_err size d) as Herr.
  pose proof (peek_err_short size d Hwf Hlen) as Hshort.
  destruct (peek size d) as [[buf0 err0] d0]. simpl in *.
  rewrite Hshort in Herr |- *.
  assert (Hall : buf0 = Decoder.unread d) by (rewrite Hbuf; apply take_ge; lia).
  assert ((length buf0 =? Z.to_nat size) = false) as ->
    by (apply Nat.eqb_neq; rewrite Hall; lia).
  pose proof Hwf0 as Hwf0'.
  unfold Decoder_wf in Hwf0. rewrite <- Herr in Hwf0. destruct Hwf0 as [_ Hrd].
  assert (Hb : Decoder.b d0 = Decoder.unread d).
  { rewrite <- Hun. unfold Decoder.unread. by rewrite Hrd, app_nil_r. }
  exists (Discard (length buf0) d0). split.
  { rewrite Hall. unfold shortRead. by destruct (Decoder.rd_err d). }
  split.
  { unfold Decoder.unread, Discard. simpl.
    by rewrite Hrd, Hb, Hall, app_nil_r, drop_all. }
  split; [eapply same_config_trans; [done|apply Discard_config]|].
  by apply Discard_wf.
Qed.

(** X15. [readExact(size)]: when the unread input holds [size] bytes it
    returns the first [size] of them without error and has consumed exactly
    these; when the reader fails before, it returns all that was left,
    which it has consumed, with the error of the reader, io.EOF being
    turned into io.ErrUnexpectedEOF. *)
Theorem readExact_contract (size : Z) (d : Decoder.t) :
  Decoder_wf d ->
  (Z.to_nat size <= length (Decoder.unread d) ->
   exists d',
     readExact size d
       = ((take (Z.to_nat size) (Decoder.unread d), None), d') /\
     Decoder.unread d' = drop (Z.to_nat size) (Decoder.unread d)) /\
  (length (Decoder.unread d) < Z.to_nat size ->
   exists d',
     readExact size d
       = ((Decoder.unread d, Some (shortRead (Decoder.rd_err d))), d') /\
     Decoder.unread d' = []).
Proof.
  intros Hwf. split; intros Hlen.
  - destruct (readExact_full size d Hwf Hlen) as (d' & ? & ? & _). eauto.
  - destruct (readExact_short size d Hwf Hlen) as (d' & ? & ? & _). eauto.
Qed.

(** *** [Decoder.Decode] returns *)

Lemma readUntil_loop_config (fuel : nat) (delim : bytes) (maxSize : Z) :
  forall (last size : Z) (d : Decoder.t) r d',
  readUntil_loop fuel delim maxSize last size d = Some (r, d') ->
  same_config d d'.
Proof.
  induction fuel as [|fuel IH]; intros last size d r d' H; [discriminate|].
  cbn [readUntil_loop] in H.
  pose proof (peek_config size d) as Hcfg.
  destruct (peek size d) as [[buf0 err0] d0]. simpl in Hcfg.
  destruct (Index _ delim).
  { injection H as <- <-. eapply same_config_trans; [done|apply Discard_config]. }
  destruct (_ && _).
  { injection H as <- <-. eapply same_config_trans; [done|apply Discard_config]. }
  destruct (_ <? _)%Z.
  { by injection H as <- <-. }
  eapply same_config_trans; [done|]. by eapply IH.
Qed.

Lemma readUntil_returns (delim : bytes) (maxSize : Z) (d : Decoder.t) :
  (0 < Decoder.initialBufSize d)%Z ->
  exists buf err d',
    readUntil delim maxSize d = Some ((buf, err), d') /\ same_config d d'.
Proof.
  intros Hinit.
  destruct (readUntil_total delim maxSize d Hinit) as [[[buf err] d'] Hrun].
  exists buf, err, d'. split; [done|].
  unfold readUntil in Hrun. by eapply readUntil_loop_config.
Qed.

Lemma readExact_config (size : Z) (d : Decoder.t) :
  same_config d (readExact size d).2.
Proof.
  unfold readExact. pose proof (peek_config size d) as Hcfg.
  destruct (peek size d) as [[buf0 err0] d0]. simpl in Hcfg.
  destruct (_ =? _); [simpl; eapply same_config_trans; [done|apply Discard_config]|].
  destruct err0 as [[]|]; simpl;
    (eapply same_config_trans; [done|apply Discard_config]).
Qed.

Lemma same_config_init (d d' : Decoder.t) :
  same_config d d' -> (0 < Decoder.initialBufSize d)%Z ->
  (0 < Decoder.initialBufSize d')%Z.
Proof. intros (_ & -> & _). done. Qed.

Lemma Decoder_trailer_returns (headers : gmap bytes bytes) (length' : Z)
    (headLen : nat) (contentBuf : bytes) (d : Decoder.t) :
  (0 < Decoder.initialBufSize d)%Z ->
  exists r d',
    Decoder_trailer typeCheck headers length' headLen contentBuf d
      = Some (r, d') /\ same_config d d'.
Proof.
  intros Hinit. unfold Decoder_trailer.
  destruct (readUntil_returns nlnl (Decoder.maxSigSize d) d Hinit)
    as (endOfBody & err & d1 & -> & Hcfg1). simpl.
  destruct (notEOF err); [eauto|].
  case_bool_decide; [|destruct (0 <? length')%Z; eauto].
  destruct (readUntil_returns nlnl (Decoder.maxSigSize d1) d1
              (same_config_init _ _ Hcfg1 Hinit))
    as (sig & err' & d2 & -> & Hcfg2). simpl.
  destruct (notEOF err'); eauto using same_config_trans.
Qed.

(** X16. A [Decoder.Decode] call returns, whatever the input, unless
    the allocation of its content buffer panics: the scans stop at their
    size limits. The call panics exactly when it gets to the allocation
    with a negative capacity, that is with a header block that parses and
    declares a body-length below minus the length of the block and its
    separator. A call that returns leaves the sizes of the decoder as
    they were. (The initial buffer size is positive, as [NewDecoder] sets
    it.) *)
Theorem Decoder_Decode_returns_or_panics (d : Decoder.t) :
  (0 < Decoder.initialBufSize d)%Z ->
  (allocation_panics d = true -> Decoder_Decode typeCheck d = None) /\
  (allocation_panics d = false ->
   exists r d', Decoder_Decode typeCheck d = Some (r, d') /\ same_config d d').
Proof.
  intros Hinit. unfold allocation_panics, Decoder_Decode.
  destruct (readUntil_returns nlnl (Decoder.maxHeadersSize d) d Hinit)
    as (headAndSep & err & d1 & -> & Hcfg1). simpl.
  pose proof (same_config_init _ _ Hcfg1 Hinit) as Hinit1.
  destruct err as [e|].
  { split; [done|]. intros _. destruct e; try destruct (negb _); eauto. }
  destruct (parseHeaders _) as [headers|]; [|split; [done|eauto]].
  destruct (checkInteger _ _ _) as [L|]; [|split; [done|eauto]].
  rewrite Z.leb_antisym.
  destruct (Decoder.maxBodySize d1 <? L)%Z; [split; [done|eauto]|].
  unfold make_bytes.
  destruct (Z.of_nat (length headAndSep) + L <? 0)%Z; [done|].
  split; [done|]. intros _. simpl.
  destruct (0 <? L)%Z.
  - pose proof (readExact_config L d1) as Hcfg2.
    destruct (readExact L d1) as [[body errb] d2]. simpl in Hcfg2.
    destruct errb as [e|]; [eauto using same_config_trans|].
    destruct (Decoder_trailer_returns headers L (length headAndSep - 2)
                (headAndSep ++ body) d2 (same_config_init _ _ Hcfg2 Hinit1))
      as (r & d' & -> & Hcfg3).
    exists r, d'. split; [done|].
    eapply same_config_trans; [done|]. by eapply same_config_trans.
  - destruct (Decoder_trailer_returns headers L (length headAndSep - 2)
                headAndSep d1 Hinit1) as (r & d' & -> & Hcfg3).
    eauto using same_config_trans.
Qed.

(** *** The end of the stream *)

Lemma Assemble_not_EOF (headers : gmap bytes bytes)
    (body content signature : bytes) :
  Assemble typeCheck headers body content signature <> Err io_EOF.
Proof.
  unfold Assemble, assembler, wrapErr, mbind, result_mbind, result_bind.
  intros H. repeat case_match; simplify_eq.
Qed.

Lemma Decoder_trailer_not_EOF (headers : gmap bytes bytes) (length' : Z)
    (headLen : nat) (contentBuf : bytes) (d d' : Decoder.t) :
  Decoder_trailer typeCheck headers length' headLen contentBuf d
    <> Some (Err io_EOF, d').
Proof.
  unfold Decoder_trailer, Decoder_finish. intros H.
  destruct (readUntil nlnl (Decoder.maxSigSize d) d)
    as [[[endOfBody err] d1]|]; [|done]. simpl in H.
  destruct (notEOF err); [done|].
  case_bool_decide.
  - destruct (readUntil nlnl (Decoder.maxSigSize d1) d1)
      as [[[sig err'] d2]|]; [|done]. simpl in H.
    destruct (notEOF err'); [done|].
    injection H as H _. by apply Assemble_not_EOF in H.
  - destruct (0 <? length')%Z; [done|].
    injection H as H _. by apply Assemble_not_EOF in H.
Qed.

Lemma Decoder_Decode_at_end (d : Decoder.t) :
  Decoder_wf d -> (0 < Decoder.initialBufSize d)%Z ->
  Decoder.rd_err d = io_EOF -> Decoder.unread d = [] ->
  exists d',
    Decoder_Decode typeCheck d = Some (Err io_EOF, d') /\
    Decoder.unread d' = [] /\ same_config d d' /\ Decoder_wf d'.
Proof.
  intros Hwf Hinit Heof Hnil.
  destruct (readUntil_end nlnl (Decoder.maxHeadersSize d) d 0)
    as (d' & Hrun & Hnil' & Hcfg); try done.
  { by rewrite Hnil. }
  { rewrite Hnil. simpl. lia. }
  { by left. }
  exists d'. unfold Decoder_Decode. rewrite Hrun. simpl.
  rewrite Heof, Hnil. split; [done|]. split; [done|]. split; [done|].
  by apply readUntil_spec in Hrun as (_ & ? & _).
Qed.

(** X17. [Decoder.Decode] returns io.EOF only at the end of the stream:
    when it does, no byte was left to read and the reader had ended on
    io.EOF; and every later call returns io.EOF again. *)
Theorem Decoder_Decode_EOF_only_at_end (d d' : Decoder.t) :
  Decoder_wf d -> (0 < Decoder.initialBufSize d)%Z ->
  Decoder_Decode typeCheck d = Some (Err io_EOF, d') ->
  Decoder.unread d = [] /\ Decoder.rd_err d = io_EOF /\
  Decoder.unread d' = [] /\
  exists d'', Decoder_Decode typeCheck d' = Some (Err io_EOF, d'').
Proof.
  intros Hwf Hinit H.
  assert (Hend : Decoder.unread d = [] /\ Decoder.rd_err d = io_EOF /\
                 Decoder.unread d' = [] /\ same_config d d' /\ Decoder_wf d').
  { unfold Decoder_Decode in H.
    destruct (readUntil nlnl (Decoder.maxHeadersSize d) d)
      as [[[headAndSep err] d1]|] eqn:Hrun; [|done]. simpl in H.
    destruct err as [e|].
    - destruct e; try done.
      destruct (length headAndSep =? 0) eqn:Hl; [|done]. simpl in H.
      injection H as <-. apply Nat.eqb_eq in Hl.
      destruct headAndSep; [|done].
      apply readUntil_spec in Hrun as (Hcfg & Hwf1 & Hun & Hres); [|done|done].
      destruct Hres as [(_ & Hnil & He & _)|[_ ?]]; [|done].
      rewrite Hun, Hnil. done.
    - destruct (parseHeaders _) as [headers|]; [|done].
      destruct (checkInteger _ _ _) as [L|]; [|done].
      destruct (_ <? _)%Z; [done|].
      destruct (make_bytes _) as [contentBuf|]; [|done]. simpl in H.
      destruct (0 <? L)%Z.
      + unfold readExact in H. destruct (peek L d1) as [[buf0 err0] d0].
        destruct (_ =? _); [by apply Decoder_trailer_not_EOF in H|].
        destruct err0 as [[]|]; try done;
          by apply Decoder_trailer_not_EOF in H.
      + by apply Decoder_trailer_not_EOF in H. }
  destruct Hend as (Hnil & Heof & Hnil' & Hcfg & Hwf').
  split; [done|]. split; [done|]. split; [done|].
  destruct (Decoder_Decode_at_end d') as (d'' & Hrun & _); try done.
  - by eapply same_config_init.
  - destruct Hcfg as (-> & _). done.
  - by exists d''.
Qed.

(** *** Running [Decoder.Decode] on a stream *)

#[local] Arguments Decoder_trailer : simpl never.
#[local] Arguments Decoder_finish : simpl never.
#[local] Arguments normalized : simpl never.
#[local] Arguments make_bytes : simpl never.

Lemma within_reach_le (d : Decoder.t) (maxSize : Z) (n m : nat) :
  m <= n -> within_reach d maxSize n -> within_reach d maxSize m.
Proof. intros Hle (k & Hk & Hmax). exists k. split; [lia|done]. Qed.

Lemma within_reach_config (d d' : Decoder.t) (maxSize : Z) (n : nat) :
  same_config d d' -> within_reach d maxSize n -> within_reach d' maxSize n.
Proof. intros (_ & Hi & _) (k & Hk & Hmax). exists k. by rewrite Hi. Qed.

Lemma fits_config (d d' : Decoder.t) (a : Assertion) :
  same_config d d' -> fits d a -> fits d' a.
Proof.
  intros Hcfg ((i & Hi & Hh) & Hb & Hs).
  pose proof Hcfg as (_ & _ & Hmh & Hmb & Hms).
  unfold fits. rewrite Hmh, Hmb, Hms.
  split; [exists i; split; [done|by eapply within_reach_config]|].
  split; [done|]. by eapply within_reach_config.
Qed.

(** Reading a block that ends at the first pair of newlines. *)
Lemma read_block (d : Decoder.t) (maxSize : Z) (x rest : bytes) :
  Decoder_wf d -> (0 < Decoder.initialBufSize d)%Z ->
  Decoder.unread d = x ++ nlnl ++ rest ->
  Index (x ++ nl) nlnl = None ->
  within_reach d maxSize (length x + 2) ->
  exists d1,
    readUntil nlnl maxSize d = Some ((x ++ nlnl, None), d1) /\
    Decoder.unread d1 = rest /\ same_config d d1 /\ Decoder_wf d1.
Proof.
  intros Hwf Hinit Hun Hnone Hreach.
  pose proof (Index_head_body x rest Hnone) as Hidx. rewrite <- Hun in Hidx.
  destruct (readUntil_found nlnl maxSize d (length x))
    as (d1 & Hrun & Hun1 & Hc & Hw); try done.
  exists d1. rewrite Hrun, Hun1, Hun. change (length nlnl) with 2.
  rewrite app_assoc.
  replace (length x + 2) with (length (x ++ nlnl))
    by (rewrite length_app; done).
  by rewrite take_app_length, drop_app_length.
Qed.

(** [Decoder.Decode] once the header block is read and parsed. *)
Lemma Decoder_Decode_after_head (d d1 : Decoder.t) (head : bytes)
    (headers : gmap bytes bytes) (L : Z) :
  readUntil nlnl (Decoder.maxHeadersSize d) d
    = Some ((head ++ nlnl, None), d1) ->
  parseHeaders head = Ok headers ->
  checkInteger headers (B "body-length") 0%Z = Ok L ->
  (L <= Decoder.maxBodySize d1)%Z ->
  (0 <= Z.of_nat (length head) + 2 + L)%Z ->
  Decoder_Decode typeCheck d =
    if (0 <? L)%Z then
      match readExact L d1 with
      | ((body, Some e), d2) => Some (Err e, d2)
      | ((body, None), d2) =>
          Decoder_trailer typeCheck headers L (length head)
            ((head ++ nlnl) ++ body) d2
      end
    else Decoder_trailer typeCheck headers L (length head) (head ++ nlnl) d1.
Proof.
  intros Hrun Hparse HL Hmax Hcap. unfold Decoder_Decode. rewrite Hrun. simpl.
  rewrite length_app. simpl.
  replace (length head + 2 - 2) with (length head) by lia.
  rewrite take_app_length, Hparse, HL.
  assert ((Decoder.maxBodySize d1 <? L)%Z = false) as ->
    by (apply Z.ltb_ge; lia).
  rewrite (proj2 (make_bytes_Some _ [])) by (split; [done|lia]). simpl.
  destruct (0 <? L)%Z; [|done].
  by destruct (readExact L d1) as [[body [e|]] d2].
Qed.

(** X18. With a body shorter than the [body-length] header declares, the
    stream ending before the declared length: [Decoder.Decode] returns the
    error of the reader as it is, io.EOF being turned into
    io.ErrUnexpectedEOF, and has consumed all the input. *)
Theorem Decoder_Decode_truncated_body (d : Decoder.t) (head rest : bytes)
    (headers : gmap bytes bytes) (L : Z) :
  Decoder_wf d -> (0 < Decoder.initialBufSize d)%Z ->
  Decoder.unread d = head ++ nlnl ++ rest ->
  parseHeaders head = Ok headers ->
  checkInteger headers (B "body-length") 0%Z = Ok L ->
  within_reach d (Decoder.maxHeadersSize d) (length head + 2) ->
  (L <= Decoder.maxBodySize d)%Z ->
  length rest < Z.to_nat L ->
  exists d',
    Decoder_Decode typeCheck d
      = Some (Err (shortRead (Decoder.rd_err d)), d') /\
    Decoder.unread d' = [].
Proof.
  intros Hwf Hinit Hun Hparse HL Hreach Hmax Hshort.
  pose proof (parseHeaders_Ok_lines _ _ Hparse) as (_ & _ & Hblank & _).
  destruct (read_block d (Decoder.maxHeadersSize d) head rest)
    as (d1 & Hrun & Hun1 & Hcfg1 & Hwf1); try done.
  pose proof Hcfg1 as (Hre & _ & _ & Hmb & _).
  rewrite (Decoder_Decode_after_head d d1 head headers L) by (done || lia).
  assert ((0 <? L)%Z = true) as -> by (apply Z.ltb_lt; lia).
  destruct (readExact_short L d1) as (d2 & Hex & Hnil & _); [done|by rewrite Hun1|].
  rewrite Hex, Hre. by exists d2.
Qed.

(** X19. A header block whose terminator is not within the last size of the
    scan, on an input that goes on beyond this size: [Decoder.Decode] fails
    on the size limit and has consumed nothing. (For a decoder made by
    [NewDecoder] the last size is 128 KiB.) *)
Theorem Decoder_Decode_headers_too_large (d : Decoder.t) (k : nat) :
  Decoder_wf d -> (0 < Decoder.initialBufSize d)%Z ->
  (Decoder.initialBufSize d * 2 ^ Z.of_nat k <= Decoder.maxHeadersSize d
     < 2 * (Decoder.initialBufSize d * 2 ^ Z.of_nat k))%Z ->
  Z.to_nat (Decoder.initialBufSize d * 2 ^ Z.of_nat k)
    < length (Decoder.unread d) ->
  Index (take (Z.to_nat (Decoder.initialBufSize d * 2 ^ Z.of_nat k))
           (Decoder.unread d)) nlnl = None ->
  exists d',
    Decoder_Decode typeCheck d
      = Some (Err (Errorw "error reading assertion headers: %v" []
                     (Errorf "maximum size exceeded while looking for delimiter %q"
                        [AStr nlnl])), d') /\
    Decoder.unread d' = Decoder.unread d.
Proof.
  intros Hwf Hinit Hmax Hlen Hnone.
  destruct (readUntil_loop_exceeds nlnl (Decoder.maxHeadersSize d) k
              (S (Z.to_nat (Z.log2 (Decoder.maxHeadersSize d)))) 0%Z
              (Decoder.initialBufSize d) d)
    as (d' & Hrun & Hun); try done.
  { apply (within_reach_fuel d). { done. } right. lia. }
  exists d'. split; [|done].
  unfold Decoder_Decode, readUntil. by rewrite Hrun.
Qed.

Lemma Index_tail_None (c : ascii) (s sep : bytes) :
  Index (c :: s) sep = None -> Index s sep = None.
Proof. rewrite !Index_None. intros H j. apply (H (S j)). Qed.

(** Reading the signature: up to the end of the stream, or up to the
    pair of newlines made by its final newline and the newline that
    separates two assertions. *)
Lemma read_signature (d : Decoder.t) (sig tail : bytes) :
  Decoder_wf d -> (0 < Decoder.initialBufSize d)%Z ->
  Decoder.unread d = sig ++ tail ->
  sig <> [] -> Index (nl ++ sig) nlnl = None ->
  (tail = [] /\ Decoder.rd_err d = io_EOF) \/
    (HasSuffix sig nl = true /\ HasPrefix tail nl = true) ->
  within_reach d (Decoder.maxSigSize d) (length sig + 2) ->
  exists sigr err d',
    readUntil nlnl (Decoder.maxSigSize d) d = Some ((sigr, err), d') /\
    notEOF err = None /\ normalized sigr = sig /\ sigr <> nlnl /\
    Decoder.unread d' = drop 1 tail /\ same_config d d' /\ Decoder_wf d'.
Proof.
  intros Hwf Hinit Hun Hne Hnone Htail Hreach.
  pose proof (Index_tail_None _ _ _ Hnone) as Hsignone.
  assert (Hself : HasPrefix nlnl nlnl = true) by (by apply HasPrefix_true; exists []).
  assert (Hstart : HasPrefix sig nl = false).
  { destruct (HasPrefix sig nl) eqn:Hp; [|done].
    apply HasPrefix_true in Hp as [r ->].
    pose proof (proj1 (Index_None _ _) Hnone 0) as H0. rewrite drop_0 in H0.
    change (nl ++ nl ++ r) with (nlnl ++ r) in H0.
    by rewrite HasPrefix_app in H0. }
  assert (Hnosuf : HasSuffix sig nlnl = false).
  { destruct (HasSuffix sig nlnl) eqn:Hs; [|done].
    apply HasSuffix_true in Hs as [r ->].
    pose proof (proj1 (Index_None _ _) Hsignone (length r)) as Hj.
    rewrite drop_app_length in Hj. congruence. }
  destruct Htail as [[-> Heof]|[Hsuf Hpre]].
  - rewrite app_nil_r in Hun. destruct Hreach as (k & Hk & Hmax).
    destruct (readUntil_end nlnl (Decoder.maxSigSize d) d k)
      as (d' & Hrun & Hnil & Hcfg); try done.
    { by rewrite Hun. }
    { rewrite Hun. lia. }
    exists sig, (Some io_EOF), d'. rewrite Hrun, Hun, Heof.
    split; [done|]. split; [done|].
    split; [unfold normalized; by rewrite Hnosuf|].
    split.
    { intros ->.
      rewrite (proj2 (HasSuffix_true _ _)) in Hnosuf; [done|by exists []]. }
    split; [done|]. split; [done|].
    by apply readUntil_spec in Hrun as (_ & ? & _).
  - apply HasSuffix_true in Hsuf as [sig' ->].
    apply HasPrefix_true in Hpre as [rest ->].
    destruct (read_block d (Decoder.maxSigSize d) sig' rest)
      as (d' & Hrun & Hun' & Hcfg & Hwf'); try done.
    { rewrite Hun. by rewrite <- !app_assoc. }
    { eapply within_reach_le; [|done]. rewrite length_app. simpl. lia. }
    exists (sig' ++ nlnl), None, d'. split; [done|]. split; [done|].
    split.
    { destruct (normalized_cases (sig' ++ nlnl)) as [[Hf _]|[_ Heq]].
      - rewrite (proj2 (HasSuffix_true _ _)) in Hf by eauto. done.
      - change nlnl with (nl ++ nl) in Heq at 1. rewrite app_assoc in Heq.
        by apply app_inv_tail in Heq. }
    split; [|done].
    intros Heq. destruct sig' as [|c sig'].
    + simpl in Hstart. unfold nl in Hstart.
      rewrite HasPrefix_single, Ascii.eqb_refl in Hstart. done.
    + apply (f_equal length) in Heq. rewrite length_app in Heq.
      simpl in Heq. lia.
Qed.

(** [Decoder.Decode] from the trailer on, for a signature that follows
    a separator ([sep]) or the header block directly. *)
Lemma Decoder_trailer_run (headers : gmap bytes bytes) (L : Z) (headLen : nat)
    (contentBuf : bytes) (d : Decoder.t) (sig tail : bytes) (sep : bool) :
  Decoder_wf d -> (0 < Decoder.initialBufSize d)%Z ->
  Decoder.unread d = (if sep then nlnl else []) ++ sig ++ tail ->
  sig <> [] -> Index (nl ++ sig) nlnl = None ->
  (tail = [] /\ Decoder.rd_err d = io_EOF) \/
    (HasSuffix sig nl = true /\ HasPrefix tail nl = true) ->
  within_reach d (Decoder.maxSigSize d) (length sig + 2) ->
  (sep = false -> (L <= 0)%Z) ->
  exists d',
    Decoder_trailer typeCheck headers L headLen contentBuf d
      = Some (Assemble typeCheck headers
                (if (0 <? L)%Z then drop (headLen + 2) contentBuf else [])
                (if sep then contentBuf else take headLen contentBuf) sig,
              d') /\
    Decoder.unread d' = drop 1 tail /\ same_config d d' /\ Decoder_wf d'.
Proof.
  intros Hwf Hinit Hun Hne Hnone Htail Hreach HL.
  destruct sep.
  - destruct (read_block d (Decoder.maxSigSize d) [] (sig ++ tail))
      as (d1 & Hrun1 & Hun1 & Hcfg1 & Hwf1); try done.
    { eapply within_reach_le; [|done]. simpl. lia. }
    pose proof Hcfg1 as (Hre & _ & _ & _ & Hms).
    destruct (read_signature d1 sig tail)
      as (sigr & err & d2 & Hrun2 & Hsoft & Hnorm & _ & Hun2 & Hcfg2 & Hwf2);
      try done.
    { by eapply same_config_init. }
    { by rewrite Hre. }
    { rewrite Hms. by eapply within_reach_config. }
    exists d2. unfold Decoder_trailer. rewrite Hrun1. simpl.
    rewrite Hrun2. simpl. rewrite Hsoft.
    rewrite (Decoder_finish_eq typeCheck), Hnorm.
    split; [done|]. split; [done|]. split; [|done].
    by eapply same_config_trans.
  - destruct (read_signature d sig tail)
      as (sigr & err & d2 & Hrun2 & Hsoft & Hnorm & Hnsep & Hun2 & Hcfg2 & Hwf2);
      try done.
    exists d2. unfold Decoder_trailer. rewrite Hrun2. simpl. rewrite Hsoft.
    rewrite bool_decide_eq_false_2 by done.
    assert ((0 <? L)%Z = false) as HL0 by (apply Z.ltb_ge; auto).
    by rewrite HL0, (Decoder_finish_eq typeCheck), Hnorm, HL0.
Qed.

Lemma Decoder_Decode_step (d : Decoder.t) (s tail : bytes) (a : Assertion) :
  Decoder_wf d -> (0 < Decoder.initialBufSize d)%Z ->
  Decode typeCheck s = Ok a ->
  Decoder.unread d = s ++ tail ->
  (tail = [] /\ Decoder.rd_err d = io_EOF) \/
    (HasSuffix s nl = true /\ HasPrefix tail nl = true) ->
  fits d a ->
  exists d',
    Decoder_Decode typeCheck d = Some (Ok a, d') /\
    Decoder.unread d' = drop 1 tail /\ same_config d d' /\ Decoder_wf d'.
Proof.
  intros Hwf Hinit Hdec Hun Htail ((i0 & Hi0 & Hhreach) & Hbody & Hsreach).
  destruct (Decode_parts _ _ Hdec)
    as (head & Hs & Hsig & Hnone & Hparse & HL & Hasm & Hcontent).
  unfold Encode, Signature in Hi0.
  destruct a as [hs body rev content sig].
  cbn [assertionBase.headers assertionBase.body assertionBase.content
       assertionBase.signature] in *.
  rewrite <- Hs in Hi0.
  pose proof (parseHeaders_Ok_lines _ _ Hparse) as (_ & _ & Hblank & _).
  assert (Hsl : 0 < length sig) by (destruct sig; [done|simpl; lia]).
  assert (Htail' : (tail = [] /\ Decoder.rd_err d = io_EOF) \/
                   (HasSuffix sig nl = true /\ HasPrefix tail nl = true)).
  { destruct Htail as [?|[Hsuf ?]]; [by left|right]. split; [|done].
    rewrite Hs, (app_assoc content nlnl sig) in Hsuf.
    rewrite HasSuffix_app_r in Hsuf; [done|simpl; lia]. }
  assert (Hhead : exists rest, s = head ++ nlnl ++ rest /\
            Decoder.unread d = head ++ nlnl ++ rest ++ tail).
  { destruct Hcontent as [[-> _]| ->].
    - exists sig. split; [done|]. by rewrite Hun, Hs, <- !app_assoc.
    - exists (body ++ nlnl ++ sig). rewrite Hun, Hs, <- !app_assoc. done. }
  destruct Hhead as (rest & Hs' & Hun').
  assert (i0 = length head) as ->.
  { pose proof (Index_head_body head rest Hblank) as Hidx.
    rewrite <- Hs' in Hidx. congruence. }
  destruct (read_block d (Decoder.maxHeadersSize d) head (rest ++ tail))
    as (d1 & Hrun1 & Hun1 & Hcfg1 & Hwf1); try done.
  pose proof Hcfg1 as (Hre & _ & _ & Hmb & Hms).
  pose proof (same_config_init _ _ Hcfg1 Hinit) as Hinit1.
  rewrite (Decoder_Decode_after_head d d1 head hs (Z.of_nat (length body)))
    by (done || lia).
  assert (Htail1 : (tail = [] /\ Decoder.rd_err d1 = io_EOF) \/
                   (HasSuffix sig nl = true /\ HasPrefix tail nl = true))
    by (by rewrite Hre).
  assert (Hsreach1 : within_reach d1 (Decoder.maxSigSize d1) (length sig + 2)).
  { rewrite Hms. by eapply within_reach_config. }
  destruct Hcontent as [[-> ->]| ->].
  - (* the signature right after the header block *)
    assert (rest = sig) as ->.
    { rewrite Hs in Hs'. by apply app_inv_head, app_inv_head in Hs'. }
    simpl. change (Z.of_nat 0) with 0%Z.
    destruct (Decoder_trailer_run hs 0%Z (length head) (head ++ nlnl) d1
                sig tail false)
      as (d' & Hrun & Hun2 & Hcfg2 & Hwf2); try done.
    exists d'. rewrite Hrun. simpl. rewrite take_app_length, Hasm.
    split; [done|]. split; [done|]. split; [|done].
    by eapply same_config_trans.
  - assert (rest = body ++ nlnl ++ sig) as ->.
    { rewrite Hs, <- !app_assoc in Hs'.
      by apply app_inv_head, app_inv_head in Hs'. }
    destruct (0 <? Z.of_nat (length body))%Z eqn:Hpos.
    + (* a body and the separator *)
      destruct (readExact_full (Z.of_nat (length body)) d1)
        as (d2 & Hex & Hun2 & Hcfg2 & Hwf2); [done| |].
      { rewrite Hun1, !length_app. lia. }
      rewrite Nat2Z.id, Hun1 in Hex, Hun2.
      rewrite <- !app_assoc, take_app_length in Hex.
      rewrite <- !app_assoc, drop_app_length in Hun2.
      rewrite Hex.
      pose proof Hcfg2 as (Hre2 & _ & _ & _ & Hms2).
      destruct (Decoder_trailer_run hs (Z.of_nat (length body)) (length head)
                  ((head ++ nlnl) ++ body) d2 sig tail true)
        as (d' & Hrun & Hun3 & Hcfg3 & Hwf3); try done.
      { by eapply same_config_init. }
      { by rewrite Hre2. }
      { rewrite Hms2. by eapply within_reach_config. }
      exists d'. rewrite Hrun, Hpos.
      replace (length head + 2) with (length (head ++ nlnl))
        by (rewrite length_app; done).
      rewrite drop_app_length, <- app_assoc, Hasm.
      split; [done|]. split; [done|]. split; [|done].
      eapply same_config_trans; [done|]. by eapply same_config_trans.
    + (* an empty body between two separators *)
      assert (body = []) as ->.
      { apply Z.ltb_ge in Hpos. destruct body; [done|simpl in Hpos; lia]. }
      simpl in Hun1 |- *. change (Z.of_nat 0) with 0%Z.
      rewrite app_nil_r in Hasm.
      destruct (Decoder_trailer_run hs 0%Z (length head) (head ++ nlnl) d1
                  sig tail true)
        as (d' & Hrun & Hun2 & Hcfg2 & Hwf2); try done.
      exists d'. rewrite Hrun. simpl. rewrite Hasm.
      split; [done|]. split; [done|]. split; [|done].
      by eapply same_config_trans.
Qed.

(** X20. The streaming decoder agrees with the single-shot one. On a stream
    that starts with an input [s] that [Decode] accepts, [s] being all the
    stream, or ending in a newline and followed by the newline that
    separates two assertions, and the parts of [s] being within the limits
    of the decoder: [Decoder.Decode] returns the assertion [Decode] returns
    for [s], and leaves unread what follows the separating newline. *)
Theorem Decoder_Decode_agrees_with_Decode (d : Decoder.t) (s tail : bytes)
    (a : Assertion) :
  Decoder_wf d -> (0 < Decoder.initialBufSize d)%Z ->
  Decode typeCheck s = Ok a ->
  Decoder.unread d = s ++ tail ->
  (tail = [] /\ Decoder.rd_err d = io_EOF) \/
    (HasSuffix s nl = true /\ HasPrefix tail nl = true) ->
  fits d a ->
  exists d',
    Decoder_Decode typeCheck d = Some (Ok a, d') /\
    Decoder.unread d' = drop 1 tail.
Proof.
  intros Hwf Hinit Hdec Hun Htail Hfits.
  destruct (Decoder_Decode_step d s tail a) as (d' & ? & ? & _); try done.
  by exists d'.
Qed.

(** *** A stream written by the encoder, read back by the decoder *)

Lemma terminated_HasSuffix (x : bytes) :
  HasSuffix x nl = true -> terminated x = x.
Proof.
  intros [r ->]%HasSuffix_true. unfold terminated.
  change nl with ["010"%char]. rewrite last_snoc.
  by rewrite bool_decide_eq_true_2.
Qed.

Lemma Encoder_EncodeAll_terminated (asserts : list Assertion) (w : bytes) :
  Forall (fun a => HasSuffix (Encode a) nl = true) asserts ->
  Encoder.wr (snd (Encoder_EncodeAll (NewEncoder w) asserts))
    = w ++ Join (map Encode asserts) nl.
Proof.
  intros Hall.
  assert (Hterm : map (fun a => terminated (Encode a)) asserts
                  = map Encode asserts).
  { apply map_ext_Forall. eapply Forall_impl; [exact Hall|].
    intros a Ha. by apply terminated_HasSuffix. }
  destruct asserts as [|a rest].
  - simpl. by rewrite app_nil_r.
  - cbn [Encoder_EncodeAll]. unfold Encoder_Encode, NewEncoder.
    rewrite Encoder_append_wr by apply Encode_nonempty.
    rewrite Encoder_EncodeAll_sep by done.
    cbn [Encoder.wr Encoder.nextSep snd].
    cbn [map] in Hterm. injection Hterm as Ha Hrest.
    rewrite Ha, Hrest. cbn [map]. rewrite Join_cons. by rewrite <- !app_assoc.
Qed.

Lemma Decoder_DecodeAll_Join (asserts : list Assertion) (d : Decoder.t) :
  Decoder_wf d -> (0 < Decoder.initialBufSize d)%Z ->
  Decoder.rd_err d = io_EOF ->
  Decoder.unread d = Join (map Encode asserts) nl ->
  Forall (fun a => Decode typeCheck (Encode a) = Ok a /\
                   HasSuffix (Encode a) nl = true /\ fits d a) asserts ->
  exists d',
    Decoder_DecodeAll typeCheck (S (length asserts)) d
      = Some (asserts, Some io_EOF, d').
Proof.
  revert d. induction asserts as [|a rest IH]; intros d Hwf Hinit Heof Hun Hall.
  - destruct (Decoder_Decode_at_end d) as (d' & Hrun & _); try done.
    exists d'. cbn [Decoder_DecodeAll length]. by rewrite Hrun.
  - apply Forall_cons in Hall as [(Hdec & Hsuf & Hfits) Hrest].
    cbn [map] in Hun.
    destruct (Decoder_Decode_step d (Encode a)
                (match rest with
                 | [] => []
                 | _ => nl ++ Join (map Encode rest) nl
                 end) a)
      as (d1 & Hrun1 & Hun1 & Hcfg1 & Hwf1); try done.
    { rewrite Hun. destruct rest; [by rewrite app_nil_r|done]. }
    { destruct rest; [by left|right]. split; [done|].
      apply HasPrefix_true. by eexists. }
    pose proof Hcfg1 as (Hre & _).
    destruct (IH d1) as (d' & Hall'); try done.
    { by eapply same_config_init. }
    { by rewrite Hre. }
    { rewrite Hun1. by destruct rest. }
    { eapply Forall_impl; [exact Hrest|]. intros b (? & ? & ?).
      split; [done|]. split; [done|]. by eapply fits_config. }
    exists d'. change (length (a :: rest)) with (S (length rest)).
    change (Decoder_DecodeAll typeCheck (S (S (length rest))) d)
      with ('(r, d) ← Decoder_Decode typeCheck d;
            match r with
            | Err e => Some ([], Some e, d)
            | Ok a =>
                '(asserts, err, d) ←
                  Decoder_DecodeAll typeCheck (S (length rest)) d;
                Some (a :: asserts, err, d)
            end).
    rewrite Hrun1. cbn [mbind option_bind]. by rewrite Hall'.
Qed.

(** X21. A stream round trip. Assertions that the single-shot codec carries
    unchanged, whose encodings end in a newline and are within the limits
    of the decoder, are carried unchanged by the streaming codec: a decoder
    reading what the streaming encoder wrote for them returns them one by
    one, in order, and then io.EOF. *)
Theorem Decoder_decodes_Encoder_stream (asserts : list Assertion)
    (d : Decoder.t) :
  Decoder_wf d -> (0 < Decoder.initialBufSize d)%Z ->
  Decoder.rd_err d = io_EOF ->
  Decoder.unread d
    = Encoder.wr (snd (Encoder_EncodeAll (NewEncoder []) asserts)) ->
  Forall (fun a => Decode typeCheck (Encode a) = Ok a /\
                   HasSuffix (Encode a) nl = true /\ fits d a) asserts ->
  exists d',
    Decoder_DecodeAll typeCheck (S (length asserts)) d
      = Some (asserts, Some io_EOF, d').
Proof.
  intros Hwf Hinit Heof Hun Hall.
  rewrite Encoder_EncodeAll_terminated in Hun.
  - by apply Decoder_DecodeAll_Join.
  - eapply Forall_impl; [exact Hall|]. by intros a (_ & ? & _).
Qed.

End coverage.

(** ** The further properties on concrete inputs *)

Lemma Assemble_result_is_checked_witness :
  let a := accountAssertion in
  a = assertionBase.mk accountParsed [] (Revision a) accountHeaders
        (B "openpgp sig") /\
  (exists t,
     assertionBase_Type a = Some t /\ Header a (B "type") = Name t /\
     acceptAll t a = None /\
     Forall (fun k => Header a k <> [] /\
                      ContainsByte (Header a k) "/"%char = false)
       (PrimaryKey t)) /\
  AuthorityID a <> [] /\
  checkInteger accountParsed (B "revision") 0%Z = Ok (Revision a) /\
  (0 <= Revision a)%Z /\
  checkInteger accountParsed (B "body-length") 0%Z
    = Ok (Z.of_nat (length (@nil ascii))) /\
  B "openpgp sig" <> [].
Proof.
  apply (Assemble_result_is_checked acceptAll accountParsed [] accountHeaders
           (B "openpgp sig") accountAssertion).
  compute_done.
Defined.

Lemma assembleAndSign_result_witness :
  let a := snapBuildAssertion in
  exists t sig,
    Some SnapBuildType = Some t /\
    constSigner (B "SIG") (assertionBase.content a) tt = Ok sig /\
    assertionBase.signature a = sig ++ nl /\
    assertionBase.body a = B "hello" /\
    checkInteger snapBuildHeaders (B "revision") 0%Z = Ok (Revision a) /\
    (0 <= Revision a)%Z /\
    forall k,
      assertionBase.headers a !! k =
        if decide (k = B "type") then Some (Name t)
        else if decide (k = B "body-length") then
          (if 0 <? length (B "hello")
           then Some (Itoa (Z.of_nat (length (B "hello")))) else None)
        else if decide (k = B "revision") then
          (if (0 <? Revision a)%Z then snapBuildHeaders !! k else None)
        else snapBuildHeaders !! k.
Proof.
  apply (assembleAndSign_result unit (constSigner (B "SIG")) acceptAll
           (Some SnapBuildType) snapBuildHeaders (B "hello") tt
           snapBuildAssertion).
  compute_done.
Defined.

Lemma Assemble_accepts_assembleAndSign_witness :
  let a := snapBuildAssertion in
  Assemble acceptAll (assertionBase.headers a) (assertionBase.body a)
    (assertionBase.content a) (assertionBase.signature a) = Ok a.
Proof.
  apply (Assemble_accepts_assembleAndSign unit (constSigner (B "SIG"))
           acceptAll (Some SnapBuildType) snapBuildHeaders (B "hello") tt
           snapBuildAssertion).
  - compute_done.
  - compute_done.
Defined.

Lemma Encoder_stream_of_signed_assertions_witness :
  Encoder_EncodeAll (NewEncoder []) [snapBuildAssertion; snapBuildAssertion]
  = (None, Encoder.mk
             ([] ++ Join (map Encode [snapBuildAssertion; snapBuildAssertion]) nl)
             nl).
Proof.
  apply (Encoder_stream_of_signed_assertions unit
           (constSigner (B "SIG")) acceptAll
           [snapBuildAssertion; snapBuildAssertion] []).
  apply Forall_cons. split.
  { exists (Some SnapBuildType), snapBuildHeaders, (B "hello"), tt.
    compute_done. }
  apply Forall_cons. split; [|apply Forall_nil_2].
  exists (Some SnapBuildType), snapBuildHeaders, (B "hello"), tt.
  compute_done.
Defined.

Lemma parseHeaders_line_grammar_witness :
  (exists l ls, Split accountHeaders "010"%char = l :: ls /\ entry_line l) /\
  Forall (fun l => isContinuation l = true \/ entry_line l)
    (Split accountHeaders "010"%char).
Proof.
  apply (parseHeaders_line_grammar accountHeaders accountParsed).
  compute_done.
Defined.

Lemma parseHeaders_rejects_empty_lines_witness :
  Forall (fun l => l <> []) (Split accountHeaders "010"%char) /\
  accountHeaders <> [] /\
  Index (accountHeaders ++ nl) nlnl = None /\
  accountParsed <> ∅.
Proof.
  apply (parseHeaders_rejects_empty_lines accountHeaders accountParsed).
  compute_done.
Defined.

Lemma parseHeaders_names_and_values_witness :
  headerNameSanity (B "account-id") = true /\ utf8_Valid (B "alice") = true.
Proof.
  apply (parseHeaders_names_and_values accountHeaders accountParsed
           (B "account-id") (B "alice")).
  - compute_done.
  - compute_done.
Defined.

Lemma parseHeaders_append_witness :
  parseHeaders (B "type: account" ++ nl ++ B "authority-id: canonical")
  = Ok ({[B "authority-id" := B "canonical"]} ∪ {[B "type" := B "account"]}).
Proof.
  apply (parseHeaders_append (B "type: account") (B "authority-id: canonical")
           {[B "type" := B "account"]} {[B "authority-id" := B "canonical"]}).
  - compute_done.
  - compute_done.
Defined.

Lemma parseHeaders_continuation_of_one_line_witness :
  parseHeaders (B "summary" ++ B ":" ++ nl ++ B " " ++ B "one line")
    = Ok {[B "summary" := B "one line"]} /\
  parseHeaders (B "summary" ++ B ": " ++ B "one line")
    = Ok {[B "summary" := B "one line"]}.
Proof.
  apply (parseHeaders_continuation_of_one_line (B "summary") (B "one line")).
  - compute_done.
  - compute_done.
  - compute_done.
Defined.

Lemma writeHeader_block_round_trip_witness :
  exists parsed,
    parseHeaders
      (drop 1 (foldl (fun buf k => writeHeader buf snapBuildHeaders k) []
                 [B "series"; B "snap-id"]))
    = Ok parsed /\
    forall k, parsed !! k
              = if decide (k ∈ [B "series"; B "snap-id"])
                then Some (snapBuildHeaders !!! k) else None.
Proof.
  apply (writeHeader_block_round_trip snapBuildHeaders
           [B "series"; B "snap-id"]).
  - discriminate.
  - compute_done.
  - compute_done.
Defined.

Lemma Decode_signature_shape_witness :
  assertionBase.signature snapBuildAssertion <> [] /\
  Index (nl ++ assertionBase.signature snapBuildAssertion) nlnl = None /\
  HasSuffix (Encode snapBuildAssertion) nlnl = false.
Proof.
  apply (Decode_signature_shape acceptAll (Encode snapBuildAssertion)
           snapBuildAssertion).
  compute_done.
Defined.

Lemma Decode_content_split_witness :
  let a := snapBuildAssertion in
  exists head,
    parseHeaders head = Ok (assertionBase.headers a) /\
    checkInteger (assertionBase.headers a) (B "body-length") 0%Z
      = Ok (Z.of_nat (length (assertionBase.body a))) /\
    ((Index (assertionBase.content a) nlnl = None /\
      assertionBase.content a = head /\ assertionBase.body a = [])
     \/
     (Index (assertionBase.content a) nlnl = Some (length head) /\
      assertionBase.content a = head ++ nlnl ++ assertionBase.body a)).
Proof.
  apply (Decode_content_split acceptAll (Encode snapBuildAssertion)
           snapBuildAssertion).
  compute_done.
Defined.

Lemma readUntil_returns_first_occurrence_witness :
  let d := NewDecoder accountWire io_EOF in
  let n := length accountHeaders + length nlnl in
  exists d',
    readUntil nlnl MaxHeadersSize d
      = Some ((take n (Decoder.unread d), None), d') /\
    HasSuffix (take n (Decoder.unread d)) nlnl = true /\
    Decoder.unread d' = drop n (Decoder.unread d).
Proof.
  apply (readUntil_returns_first_occurrence nlnl MaxHeadersSize
           (NewDecoder accountWire io_EOF) (length accountHeaders)).
  - discriminate.
  - exact I.
  - reflexivity.
  - compute_done.
  - exists 0. split; [compute_done | by left].
Defined.

Lemma readExact_contract_witness :
  let d := NewDecoder (B "hello world") io_EOF in
  (exists d',
     readExact 5 d = ((take (Z.to_nat 5) (Decoder.unread d), None), d') /\
     Decoder.unread d' = drop (Z.to_nat 5) (Decoder.unread d)) /\
  (exists d',
     readExact 50 d
       = ((Decoder.unread d, Some (shortRead (Decoder.rd_err d))), d') /\
     Decoder.unread d' = []).
Proof.
  intros d. split.
  - apply (readExact_contract 5 d); [exact I | compute_done].
  - apply (readExact_contract 50 d); [exact I | compute_done].
Defined.

Lemma Decoder_Decode_returns_or_panics_witness :
  Decoder_Decode acceptAll (NewDecoder negativeWire io_EOF) = None /\
  (let d := NewDecoder accountWire io_EOF in
   exists r d', Decoder_Decode acceptAll d = Some (r, d') /\ same_config d d').
Proof.
  split.
  - apply (Decoder_Decode_returns_or_panics acceptAll
             (NewDecoder negativeWire io_EOF)).
    + reflexivity.
    + compute_done.
  - apply (Decoder_Decode_returns_or_panics acceptAll
             (NewDecoder accountWire io_EOF)).
    + reflexivity.
    + compute_done.
Defined.

Lemma Decoder_Decode_EOF_only_at_end_witness :
  let d := NewDecoder [] io_EOF in
  Decoder.unread d = [] /\ Decoder.rd_err d = io_EOF /\
  Decoder.unread (atEnd []) = [] /\
  exists d'', Decoder_Decode acceptAll (atEnd []) = Some (Err io_EOF, d'').
Proof.
  apply (Decoder_Decode_EOF_only_at_end acceptAll (NewDecoder [] io_EOF)
           (atEnd [])).
  - exact I.
  - reflexivity.
  - compute_done.
Defined.

Lemma Decoder_Decode_truncated_body_witness :
  let d := NewDecoder (fiveHeaders ++ nlnl ++ B "hel") io_EOF in
  exists d',
    Decoder_Decode acceptAll d
      = Some (Err (shortRead (Decoder.rd_err d)), d') /\
    Decoder.unread d' = [].
Proof.
  apply (Decoder_Decode_truncated_body acceptAll
           (NewDecoder (fiveHeaders ++ nlnl ++ B "hel") io_EOF)
           fiveHeaders (B "hel") (<[B "body-length" := B "5"]> accountParsed)
           5%Z).
  - exact I.
  - reflexivity.
  - reflexivity.
  - compute_done.
  - compute_done.
  - exists 0. split; [compute_done | by left].
  - compute_done.
  - compute_done.
Defined.

Lemma Decoder_Decode_headers_too_large_witness :
  let d := Decoder.mk (B "type: account") io_EOF 4 [] None 8 8 8 in
  exists d',
    Decoder_Decode acceptAll d
      = Some (Err (Errorw "error reading assertion headers: %v" []
                     (Errorf "maximum size exceeded while looking for delimiter %q"
                        [AStr nlnl])), d') /\
    Decoder.unread d' = Decoder.unread d.
Proof.
  apply (Decoder_Decode_headers_too_large acceptAll
           (Decoder.mk (B "type: account") io_EOF 4 [] None 8 8 8) 1).
  - exact I.
  - reflexivity.
  - compute_done.
  - compute_done.
  - compute_done.
Defined.

Lemma Decoder_Decode_agrees_with_Decode_witness :
  let d := NewDecoder (Encode snapBuildAssertion ++ nl ++ accountWire) io_EOF in
  exists d',
    Decoder_Decode acceptAll d = Some (Ok snapBuildAssertion, d') /\
    Decoder.unread d' = drop 1 (nl ++ accountWire).
Proof.
  apply (Decoder_Decode_agrees_with_Decode acceptAll
           (NewDecoder (Encode snapBuildAssertion ++ nl ++ accountWire) io_EOF)
           (Encode snapBuildAssertion) (nl ++ accountWire) snapBuildAssertion).
  - exact I.
  - reflexivity.
  - compute_done.
  - reflexivity.
  - right. split; compute_done.
  - split; [|split].
    + exists 153. split; [compute_done|].
      exists 0. split; [compute_done | by left].
    + compute_done.
    + exists 0. split; [compute_done | by left].
Defined.

Lemma Decoder_decodes_Encoder_stream_witness :
  let asserts := [snapBuildAssertion; snapBuildAssertion] in
  let d := NewDecoder
             (Encoder.wr (snd (Encoder_EncodeAll (NewEncoder []) asserts)))
             io_EOF in
  exists d',
    Decoder_DecodeAll acceptAll (S (length asserts)) d
      = Some (asserts, Some io_EOF, d').
Proof.
  intros asserts d.
  assert (Hfits : fits d snapBuildAssertion).
  { split; [|split].
    - exists 153. split; [compute_done|].
      exists 0. split; [compute_done | by left].
    - compute_done.
    - exists 0. split; [compute_done | by left]. }
  apply (Decoder_decodes_Encoder_stream acceptAll asserts d).
  - exact I.
  - reflexivity.
  - reflexivity.
  - reflexivity.
  - apply Forall_cons. split; [split; [|split]; [compute_done..|exact Hfits]|].
    apply Forall_cons. split; [|apply Forall_nil_2].
    split; [|split]; [compute_done..|exact Hfits].
Defined.
